(** * Chunked transcription: a shallow embedding of the TypeScript sources

    The development follows the repository file by file: [types.ts],
    [config.ts], [utils/audio.ts], the two providers and [transcriber.ts].

    Conventions of the embedding.
    - A JavaScript [number] that holds a time, a duration or a confidence is
      an exact rational ([Q]); rounding of IEEE doubles, [NaN] and the
      infinities are outside the model.  Counters and indices are integers.
    - A function that can [throw] (or a promise that can reject) returns a
      [result]; the payload of [Throw] is the message of the [Error].
    - A [while] or [for(;;)] loop takes a [fuel]; [None] means that the fuel
      ran out before the loop was left.
    - What the program does to the outside (requests to the remote service,
      console lines, pauses, files written) is appended to the trace of a
      [World]; the answers of the outside are fields of environment records. *)

From Stdlib Require Import QArith Qminmax Qround Lqa Ascii.
From stdpp Require Import base option list strings pretty gmap sorting.

Local Open Scope string_scope.
Local Open Scope list_scope.
Local Open Scope Q_scope.

(** ** Outcomes *)

Inductive result (A : Type) : Type :=
| Ok (a : A)
| Throw (message : string).
Arguments Ok {A} a.
Arguments Throw {A} message.

(** [`${error}`] for an [Error] object. *)
Definition error_toString (message : string) : string := "Error: " +:+ message.

(** ** Object properties

    A property of an options object is missing, present with the value
    [undefined], or present with a value.  Object spread copies a property
    that is present, whatever its value. *)

Inductive prop (A : Type) : Type :=
| Missing
| Undefined
| Val (a : A).
Arguments Missing {A}.
Arguments Undefined {A}.
Arguments Val {A} a.

Definition spread_prop {A} (a b : prop A) : prop A :=
  match b with
  | Missing => a
  | _ => b
  end.

(** Reading a property: [undefined] when it is missing. *)
Definition read {A} (p : prop A) : option A :=
  match p with
  | Val a => Some a
  | _ => None
  end.

(** ** Numbers *)

Definition Qltb (x y : Q) : bool := negb (Qle_bool y x).

(** Truthiness of a number: every number but [0] (no [NaN] here). *)
Definition truthyQ (x : Q) : bool := negb (Qeq_bool x 0).
Definition truthyZ (x : Z) : bool := negb (x =? 0)%Z.

(** [x || d] on an optional number. *)
Definition orQ (x : option Q) (d : Q) : Q :=
  match x with
  | Some v => if truthyQ v then v else d
  | None => d
  end.

Definition orZ (x : option Z) (d : Z) : Z :=
  match x with
  | Some v => if truthyZ v then v else d
  | None => d
  end.

(** Truthiness of an optional boolean: [undefined] is falsy. *)
Definition truthyBool (x : option bool) : bool := default false x.

Definition truthyString (s : string) : bool :=
  match s with
  | EmptyString => false
  | _ => true
  end.

Definition orString (x : option string) (d : string) : string :=
  match x with
  | Some v => if truthyString v then v else d
  | None => d
  end.

(** ** types.ts *)

Definition Buffer := list Byte.byte.

Inductive AudioEncoding :=
| ENCODING_UNSPECIFIED | LINEAR16 | FLAC | MULAW | AMR | AMR_WB
| OGG_OPUS | SPEEX_WITH_HEADER_BYTE | MP3 | WEBM_OPUS.

Inductive OutputFormat := JSON | SRT | VTT | TXT | CSV.

Inductive ProviderName := google_speech | vertex_ai.

Module TranscriptionConfig.
(** The fields the modelled code reads or writes; the recognition hints
    (model, contexts, diarization, metadata) travel in [hints]. *)
Record t := mk {
  provider : ProviderName;
  languageCode : string;
  encoding : option AudioEncoding;
  sampleRateHertz : option Z;
  hints : string
}.
End TranscriptionConfig.

Module WordInfo.
Record t := mk {
  word : string;
  startTime : Q;
  endTime : Q;
  confidence : option Q;
  speakerTag : option Q
}.
End WordInfo.

Module Alternative.
Record t := mk {
  transcript : string;
  confidence : option Q;
  words : option (list WordInfo.t)
}.
End Alternative.

Module TranscriptionResult.
Record t := mk {
  transcript : string;
  words : option (list WordInfo.t);
  alternatives : option (list Alternative.t);
  languageCode : option string;
  confidence : option Q
}.
End TranscriptionResult.

Module AudioChunk.
Record t := mk {
  buffer : Buffer;
  startTime : Q;
  endTime : Q;
  index : nat
}.
End AudioChunk.

Module ProcessingOptions.
(** [types.ts] declares the first six properties; the transcriber also
    reads [maxConcurrentChunks], [retryFailedChunks] and [maxRetries]. *)
Record t := mk {
  chunkDuration : prop Q;
  overlap : prop Q;
  outputFormat : prop OutputFormat;
  outputPath : prop string;
  tempDir : prop string;
  verbose : prop bool;
  maxConcurrentChunks : prop Z;
  retryFailedChunks : prop bool;
  maxRetries : prop Z
}.

(** [{}], also what spreading an omitted argument contributes. *)
Definition empty : t :=
  mk Missing Missing Missing Missing Missing Missing Missing Missing Missing.

(** [{ ...a, ...b }] *)
Definition spread (a b : t) : t :=
  mk (spread_prop (chunkDuration a) (chunkDuration b))
     (spread_prop (overlap a) (overlap b))
     (spread_prop (outputFormat a) (outputFormat b))
     (spread_prop (outputPath a) (outputPath b))
     (spread_prop (tempDir a) (tempDir b))
     (spread_prop (verbose a) (verbose b))
     (spread_prop (maxConcurrentChunks a) (maxConcurrentChunks b))
     (spread_prop (retryFailedChunks a) (retryFailedChunks b))
     (spread_prop (maxRetries a) (maxRetries b)).
End ProcessingOptions.

(** ** path *)

(** [path.join] of a directory and a file name (no normalisation). *)
Definition path_join (dir name : string) : string := dir +:+ "/" +:+ name.

(** ** config.ts *)

Module Config.
Record t := mk {
  processingOptions : ProcessingOptions.t
}.

Definition loadDefaultProcessingOptions (cwd : string) : ProcessingOptions.t :=
  ProcessingOptions.mk
    (Val 59) (Val 1) Undefined Missing (Val (path_join cwd ".temp")) (Val false)
    Missing Missing Missing.

(** The singleton as [new Config()] leaves it. *)
Definition initial (cwd : string) : t := mk (loadDefaultProcessingOptions cwd).

(** [{ ...this.processingOptions }] *)
Definition getProcessingOptions (c : t) : ProcessingOptions.t :=
  ProcessingOptions.spread ProcessingOptions.empty (processingOptions c).

Definition updateProcessingOptions (c : t) (options : ProcessingOptions.t) : t :=
  mk (ProcessingOptions.spread (processingOptions c) options).
End Config.

(** [path.extname(p).toLowerCase()] and the serialisers of the output
    formats are taken from the host. *)
Module Host.
Record t := mk {
  extname : string -> string;
  serialize : OutputFormat -> TranscriptionResult.t -> string
}.
End Host.

(** ** utils/audio.ts *)

Module Metadata.
(** What the code reads of an [ffprobe] answer. *)
Record t := mk {
  format_duration : option Q;
  has_audio_stream : bool
}.
End Metadata.

Module Ffmpeg.
(** The audio collaborator: the file system and the [ffmpeg] binary.
    A [Throw] of [ffprobe] and [run_extractChunk] carries [err.message];
    [run_extractAudio] is the outcome of [AudioProcessor.extractAudio], the
    path of the audio that [ffmpeg] decoded or converted.  Creating and
    removing the temporary directory is not modelled. *)
Record t := mk {
  existsSync : string -> bool;
  statSync_size : string -> Z;
  ffprobe : string -> result Metadata.t;
  run_extractAudio : string -> result string;
  run_extractChunk : string -> string -> Q -> Q -> result unit;
  readFileSync : string -> result Buffer
}.
End Ffmpeg.

Module AudioProcessor.
Section AudioProcessor.
Variable config : Config.t.
Variable ff : Ffmpeg.t.

Definition getAudioDuration (audioPath : string) : result Q :=
  match Ffmpeg.ffprobe ff audioPath with
  | Throw message => Throw ("Failed to get audio duration: " +:+ message)
  | Ok metadata => Ok (orQ (Metadata.format_duration metadata) 0)
  end.

Definition extractChunk (inputPath outputPath : string) (startTime duration : Q)
  : result unit :=
  match Ffmpeg.run_extractChunk ff inputPath outputPath startTime duration with
  | Throw message => Throw ("Chunk extraction failed: " +:+ message)
  | Ok u => Ok u
  end.

Definition tempDir : string :=
  orString (read (ProcessingOptions.tempDir (Config.getProcessingOptions config)))
           ".temp".

(** The [while] loop of [splitAudioIntoChunks]; [chunks] is the array
    being filled. *)
Fixpoint splitLoop (fuel : nat) (audioPath : string)
    (duration chunkDuration overlap : Q)
    (currentTime : Q) (chunkIndex : nat) (chunks : list AudioChunk.t)
  : option (result (list AudioChunk.t)) :=
  match fuel with
  | O => None
  | S fuel' =>
    if Qltb currentTime duration then
      let startTime := Qmax 0 (currentTime - overlap) in
      let chunkLength := Qmin chunkDuration (duration - startTime) in
      let outputPath :=
        path_join tempDir ("chunk_" +:+ pretty chunkIndex +:+ ".wav") in
      match extractChunk audioPath outputPath startTime chunkLength with
      | Throw message => Some (Throw message)
      | Ok _ =>
        match Ffmpeg.readFileSync ff outputPath with
        | Throw message => Some (Throw message)
        | Ok buffer =>
          splitLoop fuel' audioPath duration chunkDuration overlap
            (currentTime + (chunkDuration - overlap)) (S chunkIndex)
            (chunks ++ [AudioChunk.mk buffer startTime (startTime + chunkLength)
                                      chunkIndex])
        end
      end
    else Some (Ok chunks)
  end.

(** [getAudioInfo] rejects when [ffprobe] fails or reports no audio
    stream; [validateAudioFile] wraps its error. *)
Definition validateAudioFile (audioPath : string) : result unit :=
  if negb (Ffmpeg.existsSync ff audioPath) then
    Throw ("Audio file not found: " +:+ audioPath)
  else if (Ffmpeg.statSync_size ff audioPath =? 0)%Z then
    Throw "Audio file is empty"
  else
    match Ffmpeg.ffprobe ff audioPath with
    | Throw message =>
      Throw ("Invalid audio/video file: "
             +:+ error_toString ("Failed to get audio info: " +:+ message))
    | Ok metadata =>
      if Metadata.has_audio_stream metadata then Ok tt
      else Throw ("Invalid audio/video file: "
                  +:+ error_toString "No audio stream found")
    end.

(** An argument that is [undefined] takes the default of the parameter. *)
Definition splitAudioIntoChunks (fuel : nat) (audioPath : string)
    (chunkDuration overlap : option Q)
  : option (result (list AudioChunk.t)) :=
  let chunkDuration := default 59 chunkDuration in
  let overlap := default 1 overlap in
  match getAudioDuration audioPath with
  | Throw message => Some (Throw message)
  | Ok duration =>
    splitLoop fuel audioPath duration chunkDuration overlap 0 0%nat []
  end.

End AudioProcessor.

Definition detectEncoding (host : Host.t) (filePath : string) : AudioEncoding :=
  let ext := Host.extname host filePath in
  if String.eqb ext ".wav" then LINEAR16
  else if String.eqb ext ".mp3" then MP3
  else if String.eqb ext ".flac" then FLAC
  else if String.eqb ext ".ogg" then OGG_OPUS
  else if String.eqb ext ".webm" then WEBM_OPUS
  else LINEAR16.
End AudioProcessor.

(** ** Strings *)

Fixpoint trimStart (s : string) : string :=
  match s with
  | String a s' => if Ascii.is_space a then trimStart s' else s
  | EmptyString => EmptyString
  end.

(** [String.prototype.trim], for the white space of ASCII. *)
Definition trim (s : string) : string :=
  String.rev (trimStart (String.rev (trimStart s))).

(** [Array.prototype.join]. *)
Fixpoint join (sep : string) (l : list string) : string :=
  match l with
  | [] => ""
  | [s] => s
  | s :: rest => s +:+ sep +:+ join sep rest
  end.

(** ** Arrays *)

(** [Array.prototype.slice(start, end)]: a negative bound counts from the
    end of the array. *)
Definition js_slice {A} (l : list A) (start end_ : Z) : list A :=
  let len := Z.of_nat (length l) in
  let k := if (start <? 0)%Z then Z.max (len + start) 0 else Z.min start len in
  let final := if (end_ <? 0)%Z then Z.max (len + end_) 0 else Z.min end_ len in
  take (Z.to_nat (final - k)) (drop (Z.to_nat k) l).

(** [l[i]]: [undefined] out of range. *)
Definition js_get {A} (l : list A) (i : Z) : option A :=
  if (i <? 0)%Z then None else l !! Z.to_nat i.

(** [l[i] = x] on an array of nullable entries: past the end the array grows
    (the holes in between read as absent); at a negative [i] the assignment
    creates a property that is no element. *)
Definition js_set {A} (l : list (option A)) (i : Z) (x : option A)
  : list (option A) :=
  if (i <? 0)%Z then l
  else if (i <? Z.of_nat (length l))%Z then <[Z.to_nat i := x]> l
  else l ++ replicate (Z.to_nat i - length l) None ++ [x].

(** ** The world *)

Inductive ConsoleLine :=
| AudioFileInfo (audioPath : string) (encoding : AudioEncoding) (duration : Q)
| SplitInto (chunks : nat)
| OutputSaved (outputPath : string)
| ProcessingChunks (chunks : nat) (maxConcurrent : Z)
| ChunkCompleted (chunkNumber : Z)
| ChunkFailed (chunkNumber : Z) (error : string)
| RetryingFailed (failed : nat)
| RetryingChunk (chunkNumber attempt maxRetries : Z)
| RetrySucceeded (chunkNumber attempt : Z)
| RetriesExhausted (chunkNumber maxRetries : Z) (error : string)
| SuccessfullyTranscribed (valid total : nat).

(** What a run does to the outside, in order.  The spinner and the elapsed
    times printed with [ChunkCompleted] are not part of the model. *)
Inductive Event :=
| Request (content : Buffer) (config : TranscriptionConfig.t)
| Console (line : ConsoleLine)
| Delay (ms : Z)
| FileWritten (path content : string)
| CleanupTempFiles
| AuthCleanup.

Definition World := list Event.

(** ** Computations: state, exceptions, fuel *)

Definition M (A : Type) : Type := World -> option (result A * World).

Definition ret {A} (a : A) : M A := fun w => Some (Ok a, w).
Definition throw {A} (message : string) : M A := fun w => Some (Throw message, w).
Definition out_of_fuel {A} : M A := fun _ => None.
Definition lift {A} (r : result A) : M A := fun w => Some (r, w).
Definition emit (e : Event) : M unit := fun w => Some (Ok tt, w ++ [e]).

Definition bind {A B} (m : M A) (f : A -> M B) : M B := fun w =>
  match m w with
  | None => None
  | Some (Throw message, w') => Some (Throw message, w')
  | Some (Ok a, w') => f a w'
  end.

(** [try { m } catch (error) { handler }] *)
Definition try_catch {A} (m : M A) (handler : string -> M A) : M A := fun w =>
  match m w with
  | Some (Throw message, w') => handler message w'
  | other => other
  end.

(** [if (c) { m }] *)
Definition when (c : bool) (m : M unit) : M unit := if c then m else ret tt.

Declare Scope M_scope.
Delimit Scope M_scope with M.
Notation "x <- m ;; k" := (bind m (fun x => k))
  (at level 100, m at next level, right associativity) : M_scope.
Notation "m ;;; k" := (bind m (fun _ => k))
  (at level 100, right associativity) : M_scope.

(** ** The transcription port *)

(** A call of the port returns or throws; it contains no loop. *)
Definition IO (A : Type) : Type := World -> result A * World.

(** [await] of a call of the port. *)
Definition await {A} (m : IO A) : M A := fun w => Some (m w).

Class TranscriptionProvider (P : Type) := {
  name : P -> string;
  transcribe : P -> string -> TranscriptionConfig.t -> IO TranscriptionResult.t;
  transcribeChunk :
    P -> AudioChunk.t -> TranscriptionConfig.t -> IO TranscriptionResult.t;
  validateConfig : P -> TranscriptionConfig.t -> result unit
}.

(** [{ ...word, startTime: word.startTime + offset, endTime: word.endTime + offset }] *)
Definition shiftWord (offset : Q) (word : WordInfo.t) : WordInfo.t :=
  WordInfo.mk (WordInfo.word word)
    (WordInfo.startTime word + offset) (WordInfo.endTime word + offset)
    (WordInfo.confidence word) (WordInfo.speakerTag word).

(** The adjustment of [transcribeChunk], the same in both providers. *)
Definition adjustTimestamps (chunk : AudioChunk.t) (result : TranscriptionResult.t)
  : TranscriptionResult.t :=
  match TranscriptionResult.words result with
  | Some words =>
    TranscriptionResult.mk (TranscriptionResult.transcript result)
      (Some (map (shiftWord (AudioChunk.startTime chunk)) words))
      (TranscriptionResult.alternatives result)
      (TranscriptionResult.languageCode result)
      (TranscriptionResult.confidence result)
  | None => result
  end.

(** ** utils/auth.ts and the environment of the process *)

Module ProcessEnv.
Record t := mk {
  GOOGLE_CLOUD_PROJECT_ID : option string;
  GCLOUD_PROJECT : option string;
  GOOGLE_APPLICATION_CREDENTIALS : option string;
  VERTEX_AI_PROJECT_ID : option string;
  VERTEX_AI_LOCATION : option string;
  VERTEX_AI_SPEECH_ENDPOINT_ID : option string;
  (** Outcome of [AuthHelper.prepareCredentials] and of
      [AuthHelper.validateServiceAccountKey] on a credential input. *)
  prepareCredentials : string -> result unit;
  validateServiceAccountKey : string -> result unit
}.

Definition truthy (x : option string) : bool :=
  match x with
  | Some s => truthyString s
  | None => false
  end.

(** [a || b] on two variables of the environment. *)
Definition or (a b : option string) : option string :=
  if truthy a then a else b.
End ProcessEnv.

(** ** providers/google-speech.ts *)

Module Google.
(** A [Duration] of the service. *)
Record Duration := mkDuration {
  seconds : option Z;
  nanos : option Z
}.

Record Word := mkWord {
  word : string;
  startTime : option Duration;
  endTime : option Duration;
  confidence : option Q;
  speakerTag : option Q
}.

Record Alt := mkAlt {
  transcript : option string;
  alt_confidence : option Q;
  words : option (list Word)
}.

Record Result := mkResult {
  alternatives : option (list Alt);
  languageCode : option string
}.

Record Response := mkResponse {
  results : option (list Result)
}.
End Google.

Module GoogleSpeechProvider.
Record t := mk {
  env : ProcessEnv.t;
  fs : Ffmpeg.t;
  (** [client.recognize]: the answer of the service to a request, given
      what happened before.  The request is determined by the audio
      content and the configuration. *)
  recognize : World -> Buffer -> TranscriptionConfig.t -> result Google.Response
}.

Definition timeToSeconds (time : option Google.Duration) : Q :=
  match time with
  | None => 0
  | Some time =>
    inject_Z (orZ (Google.seconds time) 0)
    + inject_Z (orZ (Google.nanos time) 0) / 1000000000
  end.

Definition wordInfo (word : Google.Word) : WordInfo.t :=
  WordInfo.mk (Google.word word)
    (timeToSeconds (Google.startTime word)) (timeToSeconds (Google.endTime word))
    (Google.confidence word) (Google.speakerTag word).

(** The words of an alternative other than the first carry no speaker. *)
Definition alternativeWord (word : Google.Word) : WordInfo.t :=
  WordInfo.mk (Google.word word)
    (timeToSeconds (Google.startTime word)) (timeToSeconds (Google.endTime word))
    (Google.confidence word) None.

Definition alternative (alt : Google.Alt) : Alternative.t :=
  Alternative.mk (default "" (Google.transcript alt)) (Google.alt_confidence alt)
    (map alternativeWord <$> Google.words alt).

(** [result.alternatives?.[0]] *)
Definition firstAlternative (result : Google.Result) : option Google.Alt :=
  Google.alternatives result ≫= head.

Definition processResponse (response : Google.Response) : TranscriptionResult.t :=
  match default [] (Google.results response) with
  | [] => TranscriptionResult.mk "" (Some []) (Some []) None None
  | (primaryResult :: _) as results =>
    let primaryAlternative := firstAlternative primaryResult in
    let words :=
      map wordInfo (default [] (primaryAlternative ≫= Google.words)) in
    let alternatives :=
      map alternative (tail (default [] (Google.alternatives primaryResult))) in
    let fullTranscript :=
      trim (join " "
        (map (fun result =>
                orString (firstAlternative result ≫= Google.transcript) "")
             results)) in
    TranscriptionResult.mk fullTranscript (Some words) (Some alternatives)
      (Google.languageCode primaryResult)
      (primaryAlternative ≫= Google.alt_confidence)
  end.

Section Methods.
Variable self : t.

(** [this.config.getGoogleCloudConfig().projectId]; preparing the
    credentials can throw. *)
Definition getGoogleCloudConfig_projectId : result (option string) :=
  let credentials := ProcessEnv.GOOGLE_APPLICATION_CREDENTIALS (env self) in
  let projectId :=
    ProcessEnv.or (ProcessEnv.GOOGLE_CLOUD_PROJECT_ID (env self))
                  (ProcessEnv.GCLOUD_PROJECT (env self)) in
  match credentials with
  | Some c =>
    if truthyString c then
      match ProcessEnv.prepareCredentials (env self) c with
      | Throw message => Throw message
      | Ok _ => Ok projectId
      end
    else Ok projectId
  | None => Ok projectId
  end.

Definition validateConfig (config : TranscriptionConfig.t) : result unit :=
  if negb (truthyString (TranscriptionConfig.languageCode config)) then
    Throw "Language code is required for Google Speech-to-Text"
  else
    match getGoogleCloudConfig_projectId with
    | Throw message => Throw message
    | Ok projectId =>
      if negb (ProcessEnv.truthy projectId) then
        Throw "Google Cloud project ID is not configured. Set GOOGLE_CLOUD_PROJECT_ID environment variable."
      else
        match ProcessEnv.GOOGLE_APPLICATION_CREDENTIALS (env self) with
        | Some c =>
          if truthyString c then
            match ProcessEnv.validateServiceAccountKey (env self) c with
            | Throw message =>
              Throw ("Invalid Google Cloud credentials: "
                     +:+ error_toString message)
            | Ok _ => Ok tt
            end
          else
            Throw "Google Cloud credentials are not configured. Set GOOGLE_APPLICATION_CREDENTIALS environment variable."
        | None =>
          Throw "Google Cloud credentials are not configured. Set GOOGLE_APPLICATION_CREDENTIALS environment variable."
        end
    end.

(** The request is sent, then [client.recognize] answers or rejects. *)
Definition transcribe (audioPath : string) (config : TranscriptionConfig.t)
  : IO TranscriptionResult.t := fun w =>
  match validateConfig config with
  | Throw message => (Throw message, w)
  | Ok _ =>
    match Ffmpeg.readFileSync (fs self) audioPath with
    | Throw message => (Throw message, w)
    | Ok audioBytes =>
      match recognize self w audioBytes config with
      | Ok response =>
        (Ok (processResponse response), w ++ [Request audioBytes config])
      | Throw error =>
        (Throw ("Google Speech transcription failed: "
                +:+ error_toString error),
         w ++ [Request audioBytes config])
      end
    end
  end.

Definition transcribeChunk (chunk : AudioChunk.t) (config : TranscriptionConfig.t)
  : IO TranscriptionResult.t := fun w =>
  match validateConfig config with
  | Throw message => (Throw message, w)
  | Ok _ =>
    let audioBytes := AudioChunk.buffer chunk in
    match recognize self w audioBytes config with
    | Ok response =>
      let result := processResponse response in
      (* Adjust timestamps based on chunk offset *)
      (Ok (adjustTimestamps chunk result), w ++ [Request audioBytes config])
    | Throw error =>
      (Throw ("Google Speech chunk transcription failed: "
              +:+ error_toString error),
       w ++ [Request audioBytes config])
    end
  end.
End Methods.

#[global] Instance google_port : TranscriptionProvider t :=
  Build_TranscriptionProvider t (fun _ => "Google Cloud Speech-to-Text")
    transcribe transcribeChunk validateConfig.
End GoogleSpeechProvider.

(** ** providers/vertex-ai.ts *)

Module Vertex.
(** A protobuf [Value] as the client decodes it. *)
#[warnings="-register-all"] Inductive Value :=
| NullValue
| StringValue (s : string)
| NumberValue (n : Q)
| BoolValue (b : bool)
| ListValue (values : list Value)
| StructValue (fields : gmap string Value).

Record Response := mkResponse {
  predictions : option (list Value)
}.
End Vertex.

Module VertexAISpeechProvider.
Record t := mk {
  project : string;
  location : string;
  endpointId : string;
  fs : Ffmpeg.t;
  (** [client.predict]: the answer of the endpoint to a request, given what
      happened before. *)
  predict : World -> Buffer -> TranscriptionConfig.t -> result Vertex.Response
}.

(** The constructor reads the environment. *)
Definition new (env : ProcessEnv.t) (fs : Ffmpeg.t)
    (predict : World -> Buffer -> TranscriptionConfig.t -> result Vertex.Response)
  : t :=
  mk (orString (ProcessEnv.or (ProcessEnv.VERTEX_AI_PROJECT_ID env)
                              (ProcessEnv.GOOGLE_CLOUD_PROJECT_ID env)) "")
     (orString (ProcessEnv.VERTEX_AI_LOCATION env) "us-central1")
     (orString (ProcessEnv.VERTEX_AI_SPEECH_ENDPOINT_ID env) "")
     fs predict.

Definition getStringValue (field : option Vertex.Value) : string :=
  match field with
  | Some (Vertex.StringValue s) => s
  | _ => ""
  end.

Definition getNumberValue (field : option Vertex.Value) : Q :=
  match field with
  | Some (Vertex.NumberValue n) => if truthyQ n then n else 0
  | _ => 0
  end.

Definition getListValue (field : option Vertex.Value) : list Vertex.Value :=
  match field with
  | Some (Vertex.ListValue values) => values
  | _ => []
  end.

(** [value.structValue?.fields || {}] *)
Definition fieldsOf (value : Vertex.Value) : gmap string Vertex.Value :=
  match value with
  | Vertex.StructValue fields => fields
  | _ => ∅
  end.

Definition wordInfo (wordObj : Vertex.Value) : WordInfo.t :=
  let wordFields := fieldsOf wordObj in
  WordInfo.mk (getStringValue (wordFields !! "word"))
    (getNumberValue (wordFields !! "startTime"))
    (getNumberValue (wordFields !! "endTime"))
    (Some (getNumberValue (wordFields !! "confidence")))
    (Some (getNumberValue (wordFields !! "speakerTag"))).

Definition alternative (altObj : Vertex.Value) : Alternative.t :=
  let altFields := fieldsOf altObj in
  Alternative.mk (getStringValue (altFields !! "transcript"))
    (Some (getNumberValue (altFields !! "confidence"))) None.

Definition processResponse (response : Vertex.Response) : TranscriptionResult.t :=
  match default [] (Vertex.predictions response) with
  | [] => TranscriptionResult.mk "" (Some []) (Some []) None None
  | prediction :: _ =>
    let fields := fieldsOf prediction in
    let words := map wordInfo (getListValue (fields !! "words")) in
    let alternatives :=
      map alternative (tail (getListValue (fields !! "alternatives"))) in
    TranscriptionResult.mk (getStringValue (fields !! "transcript"))
      (Some words) (Some alternatives)
      (Some (getStringValue (fields !! "languageCode")))
      (Some (getNumberValue (fields !! "confidence")))
  end.

Section Methods.
Variable self : t.

Definition validateConfig (config : TranscriptionConfig.t) : result unit :=
  if negb (truthyString (TranscriptionConfig.languageCode config)) then
    Throw "Language code is required for Vertex AI Speech"
  else if negb (truthyString (project self)) then
    Throw "Vertex AI project is not configured. Set VERTEX_AI_PROJECT_ID or GOOGLE_CLOUD_PROJECT_ID environment variable."
  else if negb (truthyString (endpointId self)) then
    Throw "Vertex AI Speech endpoint ID is not configured. Set VERTEX_AI_SPEECH_ENDPOINT_ID environment variable."
  else Ok tt.

(** The request is sent, then [client.predict] answers or rejects. *)
Definition transcribe (audioPath : string) (config : TranscriptionConfig.t)
  : IO TranscriptionResult.t := fun w =>
  match validateConfig config with
  | Throw message => (Throw message, w)
  | Ok _ =>
    match Ffmpeg.readFileSync (fs self) audioPath with
    | Throw message => (Throw message, w)
    | Ok audioContent =>
      match predict self w audioContent config with
      | Ok response =>
        (Ok (processResponse response), w ++ [Request audioContent config])
      | Throw error =>
        (Throw ("Vertex AI Speech transcription failed: "
                +:+ error_toString error),
         w ++ [Request audioContent config])
      end
    end
  end.

Definition transcribeChunk (chunk : AudioChunk.t) (config : TranscriptionConfig.t)
  : IO TranscriptionResult.t := fun w =>
  match validateConfig config with
  | Throw message => (Throw message, w)
  | Ok _ =>
    let audioBytes := AudioChunk.buffer chunk in
    match predict self w audioBytes config with
    | Ok response =>
      let result := processResponse response in
      (* Adjust timestamps based on chunk offset *)
      (Ok (adjustTimestamps chunk result), w ++ [Request audioBytes config])
    | Throw error =>
      (Throw ("Vertex AI Speech chunk transcription failed: "
              +:+ error_toString error),
       w ++ [Request audioBytes config])
    end
  end.
End Methods.

#[global] Instance vertex_port : TranscriptionProvider t :=
  Build_TranscriptionProvider t (fun _ => "Vertex AI Speech")
    transcribe transcribeChunk validateConfig.
End VertexAISpeechProvider.

(** ** transcriber.ts *)

(** The provider that the constructor of [Transcriber] selects by name. *)
Inductive Provider :=
| UseGoogleSpeech (p : GoogleSpeechProvider.t)
| UseVertexAI (p : VertexAISpeechProvider.t).

#[global] Instance Provider_port : TranscriptionProvider Provider :=
  Build_TranscriptionProvider Provider
    (fun self => match self with
                 | UseGoogleSpeech p => name p
                 | UseVertexAI p => name p
                 end)
    (fun self => match self with
                 | UseGoogleSpeech p => transcribe p
                 | UseVertexAI p => transcribe p
                 end)
    (fun self => match self with
                 | UseGoogleSpeech p => transcribeChunk p
                 | UseVertexAI p => transcribeChunk p
                 end)
    (fun self => match self with
                 | UseGoogleSpeech p => validateConfig p
                 | UseVertexAI p => validateConfig p
                 end).

(** [Array.prototype.sort(compareFn)]: the sort is stable, and with a
    consistent [compareFn] its result is the one of this insertion sort. *)
Fixpoint js_sort_insert {A} (compareFn : A -> A -> Q) (a : A) (sorted : list A)
  : list A :=
  match sorted with
  | [] => [a]
  | b :: rest =>
    if Qle_bool (compareFn a b) 0 then a :: b :: rest
    else b :: js_sort_insert compareFn a rest
  end.

Definition js_sort {A} (compareFn : A -> A -> Q) (l : list A) : list A :=
  foldr (js_sort_insert compareFn) [] l.

Module Transcriber.

(** The loop of [mergeResults] over [results], on the fields of
    [mergedResult] and the two counters. *)
Fixpoint mergeLoop (results : list TranscriptionResult.t)
    (transcript : string) (words : list WordInfo.t)
    (languageCode : option string)
    (totalConfidence : Q) (confidenceCount : Z)
  : string * list WordInfo.t * option string * Q * Z :=
  match results with
  | [] => (transcript, words, languageCode, totalConfidence, confidenceCount)
  | result :: rest =>
    let transcript :=
      if truthyString (TranscriptionResult.transcript result) then
        transcript +:+ (if truthyString transcript then " " else "")
                   +:+ TranscriptionResult.transcript result
      else transcript in
    let words :=
      match TranscriptionResult.words result with
      | Some ws => words ++ ws
      | None => words
      end in
    let counted :=
      match TranscriptionResult.confidence result with
      | Some c => truthyQ c
      | None => false
      end in
    let totalConfidence :=
      if counted
      then totalConfidence + default 0 (TranscriptionResult.confidence result)
      else totalConfidence in
    let confidenceCount :=
      if counted then (confidenceCount + 1)%Z else confidenceCount in
    let languageCode :=
      if negb (ProcessEnv.truthy languageCode)
         && ProcessEnv.truthy (TranscriptionResult.languageCode result)
      then TranscriptionResult.languageCode result
      else languageCode in
    mergeLoop rest transcript words languageCode totalConfidence confidenceCount
  end.

Definition mergeResults (results : list TranscriptionResult.t)
  : TranscriptionResult.t :=
  let '(transcript, words, languageCode, totalConfidence, confidenceCount) :=
    mergeLoop results "" [] None 0 0%Z in
  let confidence :=
    if (0 <? confidenceCount)%Z
    then totalConfidence / inject_Z confidenceCount
    else 0 in
  TranscriptionResult.mk transcript
    (Some (js_sort (fun a b => WordInfo.startTime a - WordInfo.startTime b) words))
    (Some []) languageCode (Some confidence).

Definition detectFormat (ext : string) : OutputFormat :=
  if String.eqb ext ".json" then JSON
  else if String.eqb ext ".srt" then SRT
  else if String.eqb ext ".vtt" then VTT
  else if String.eqb ext ".csv" then CSV
  else TXT.

Section Transcriber.
Context {P : Type} `{TranscriptionProvider P}.
Variable config : Config.t.
Variable ff : Ffmpeg.t.
Variable host : Host.t.
Variable provider : P.

(** The callback of [batch.map] in [transcribeChunks]: the entry of
    [batchResults] for one chunk. *)
Definition batchPromise (transcriptionConfig : TranscriptionConfig.t)
    (verbose : bool) (chunkIndex : Z) (chunk : AudioChunk.t)
  : M (Z * option TranscriptionResult.t) :=
  (try_catch
     (result <- await (transcribeChunk provider chunk transcriptionConfig) ;;
      when verbose (emit (Console (ChunkCompleted (chunkIndex + 1)))) ;;;
      ret (chunkIndex, Some result))
     (fun error =>
        emit (Console (ChunkFailed (chunkIndex + 1) (error_toString error))) ;;;
        ret (chunkIndex, None)))%M.

(** One batch: the callbacks run one after the other, in the order in
    which [batch.map] starts them (the order in which the promises
    settle, which decides only the order of [failedChunks], is taken to
    be that order); a callback that caught an error has pushed its index
    on [failedChunks]. *)
Fixpoint runBatch (transcriptionConfig : TranscriptionConfig.t)
    (verbose : bool) (i : Z) (batch : list AudioChunk.t) (batchIdx : Z)
    (failedChunks : list Z)
  : M (list (Z * option TranscriptionResult.t) * list Z) :=
  match batch with
  | [] => ret ([], failedChunks)
  | chunk :: rest =>
    let chunkIndex := (i + batchIdx)%Z in
    (entry <- batchPromise transcriptionConfig verbose chunkIndex chunk ;;
     let failedChunks :=
       match snd entry with
       | Some _ => failedChunks
       | None => failedChunks ++ [chunkIndex]
       end in
     more <- runBatch transcriptionConfig verbose i rest (batchIdx + 1)
               failedChunks ;;
     ret (entry :: fst more, snd more))%M
  end.

(** The [for] loop of [transcribeChunks]. *)
Fixpoint dispatchLoop (fuel : nat) (chunks : list AudioChunk.t)
    (transcriptionConfig : TranscriptionConfig.t) (verbose : bool)
    (maxConcurrent : Z) (i : Z)
    (results : list (option TranscriptionResult.t)) (failedChunks : list Z)
  : M (list (option TranscriptionResult.t) * list Z) :=
  match fuel with
  | O => out_of_fuel
  | S fuel' =>
    let length := Z.of_nat (length chunks) in
    if (i <? length)%Z then
      let batch := js_slice chunks i (Z.min (i + maxConcurrent) length) in
      (done <- runBatch transcriptionConfig verbose i batch 0 failedChunks ;;
       let results :=
         fold_left (fun results entry => js_set results (fst entry) (snd entry))
                   (fst done) results in
       when (i + maxConcurrent <? length)%Z (emit (Delay 100)) ;;;
       dispatchLoop fuel' chunks transcriptionConfig verbose maxConcurrent
         (i + maxConcurrent) results (snd done))%M
    else ret (results, failedChunks)
  end.

(** [await this.provider.transcribeChunk(chunks[chunkIndex], config)];
    at an index outside of [chunks] the chunk is [undefined] and reading
    its buffer raises a [TypeError] after the configuration is checked. *)
Definition transcribeChunkAt (chunks : list AudioChunk.t) (chunkIndex : Z)
    (transcriptionConfig : TranscriptionConfig.t) : M TranscriptionResult.t :=
  match js_get chunks chunkIndex with
  | Some chunk => await (transcribeChunk provider chunk transcriptionConfig)
  | None =>
    (lift (validateConfig provider transcriptionConfig) ;;;
     throw "Cannot read properties of undefined (reading 'buffer')")%M
  end.

(** The [try] statement in the [while] loop of [retryFailedChunks]; the
    value is [results], [retryCount] and [success] after it. *)
Definition retryAttempt (chunks : list AudioChunk.t)
    (transcriptionConfig : TranscriptionConfig.t) (maxRetries : Z)
    (chunkIndex : Z) (retryCount : Z) (success : bool)
    (results : list (option TranscriptionResult.t))
  : M (list (option TranscriptionResult.t) * Z * bool) :=
  (try_catch
     (emit (Console (RetryingChunk (chunkIndex + 1) (retryCount + 1)
                                   maxRetries)) ;;;
      (* Add exponential backoff delay *)
      emit (Delay (2 ^ retryCount * 1000)) ;;;
      result <- transcribeChunkAt chunks chunkIndex transcriptionConfig ;;
      emit (Console (RetrySucceeded (chunkIndex + 1) (retryCount + 1))) ;;;
      ret (js_set results chunkIndex (Some result), retryCount, true))
     (fun error =>
        let retryCount := (retryCount + 1)%Z in
        when (maxRetries <=? retryCount)%Z
          (emit (Console (RetriesExhausted (chunkIndex + 1) maxRetries
                                           (error_toString error)))) ;;;
        ret (results, retryCount, success)))%M.

(** The [while] loop of [retryFailedChunks] for one [chunkIndex]. *)
Fixpoint retryLoop (fuel : nat) (chunks : list AudioChunk.t)
    (transcriptionConfig : TranscriptionConfig.t) (maxRetries : Z)
    (chunkIndex : Z) (retryCount : Z) (success : bool)
    (results : list (option TranscriptionResult.t))
  : M (list (option TranscriptionResult.t)) :=
  match fuel with
  | O => out_of_fuel
  | S fuel' =>
    if (retryCount <? maxRetries)%Z && negb success then
      (next <- retryAttempt chunks transcriptionConfig maxRetries chunkIndex
                 retryCount success results ;;
       retryLoop fuel' chunks transcriptionConfig maxRetries chunkIndex
         (snd (fst next)) (snd next) (fst (fst next)))%M
    else ret results
  end.

Fixpoint retryEach (fuel : nat) (chunks : list AudioChunk.t)
    (transcriptionConfig : TranscriptionConfig.t) (maxRetries : Z)
    (failedIndices : list Z) (results : list (option TranscriptionResult.t))
  : M (list (option TranscriptionResult.t)) :=
  match failedIndices with
  | [] => ret results
  | chunkIndex :: rest =>
    (results <- retryLoop fuel chunks transcriptionConfig maxRetries
                  chunkIndex 0 false results ;;
     retryEach fuel chunks transcriptionConfig maxRetries rest results)%M
  end.

(** The array [results] is updated in place; the model returns it. *)
Definition retryFailedChunks (fuel : nat) (chunks : list AudioChunk.t)
    (failedIndices : list Z) (transcriptionConfig : TranscriptionConfig.t)
    (results : list (option TranscriptionResult.t))
    (options : ProcessingOptions.t)
  : M (list (option TranscriptionResult.t)) :=
  let maxRetries := orZ (read (ProcessingOptions.maxRetries options)) 3 in
  retryEach fuel chunks transcriptionConfig maxRetries failedIndices results.

(** The first half of [transcribeChunks]: the batches, then the retries;
    the value is the array [results]. *)
Definition collectResults (fuel : nat) (chunks : list AudioChunk.t)
    (transcriptionConfig : TranscriptionConfig.t)
  : M (list (option TranscriptionResult.t)) :=
  let options := Config.getProcessingOptions config in
  let maxConcurrent :=
    orZ (read (ProcessingOptions.maxConcurrentChunks options)) 3 in
  let verbose := truthyBool (read (ProcessingOptions.verbose options)) in
  let results := replicate (length chunks) None in
  (when verbose
     (emit (Console (ProcessingChunks (length chunks) maxConcurrent))) ;;;
   done <- dispatchLoop fuel chunks transcriptionConfig verbose maxConcurrent
             0 results [] ;;
   (* Retry failed chunks if enabled *)
   if truthyBool (read (ProcessingOptions.retryFailedChunks options))
      && (0 <? length (snd done))%nat
   then
     emit (Console (RetryingFailed (length (snd done)))) ;;;
     retryFailedChunks fuel chunks (snd done) transcriptionConfig (fst done)
       options
   else ret (fst done))%M.

Definition transcribeChunks (fuel : nat) (chunks : list AudioChunk.t)
    (transcriptionConfig : TranscriptionConfig.t) : M TranscriptionResult.t :=
  let options := Config.getProcessingOptions config in
  let verbose := truthyBool (read (ProcessingOptions.verbose options)) in
  (results <- collectResults fuel chunks transcriptionConfig ;;
   (* Filter out null results and merge *)
   let validResults := omap id results in
   if (length validResults =? 0)%nat then
     throw "All chunks failed to transcribe"
   else
     when verbose
       (emit (Console (SuccessfullyTranscribed (length validResults)
                                               (length chunks)))) ;;;
     ret (mergeResults validResults))%M.

Definition saveOutput (result : TranscriptionResult.t) (outputPath : string)
    (format : option OutputFormat) : M unit :=
  let outputFormat :=
    match format with
    | Some f => f
    | None => detectFormat (Host.extname host outputPath)
    end in
  let content :=
    match outputFormat with
    | TXT => TranscriptionResult.transcript result
    | other => Host.serialize host other result
    end in
  emit (FileWritten outputPath content).

Definition cleanup : M unit := (emit CleanupTempFiles ;;; emit AuthCleanup)%M.

Definition transcribeFile (fuel : nat) (inputPath : string)
    (transcriptionConfig : TranscriptionConfig.t)
    (processingOptions : ProcessingOptions.t) : M TranscriptionResult.t :=
  let options :=
    ProcessingOptions.spread (Config.getProcessingOptions config)
                             processingOptions in
  let verbose := truthyBool (read (ProcessingOptions.verbose options)) in
  (try_catch
    ((* Validate input file *)
     lift (AudioProcessor.validateAudioFile ff inputPath) ;;;
     audioPath <- lift (Ffmpeg.run_extractAudio ff inputPath) ;;
     (* Detect and set appropriate encoding *)
     let detectedEncoding := AudioProcessor.detectEncoding host audioPath in
     let transcriptionConfig :=
       TranscriptionConfig.mk
         (TranscriptionConfig.provider transcriptionConfig)
         (TranscriptionConfig.languageCode transcriptionConfig)
         (Some detectedEncoding) (Some 16000%Z)
         (TranscriptionConfig.hints transcriptionConfig) in
     duration <- lift (AudioProcessor.getAudioDuration ff audioPath) ;;
     when verbose
       (emit (Console (AudioFileInfo audioPath detectedEncoding duration))) ;;;
     result <-
       (if Qltb (orQ (read (ProcessingOptions.chunkDuration options)) 59)
                duration
        then
          chunks <-
            (fun w =>
               match AudioProcessor.splitAudioIntoChunks config ff fuel
                       audioPath
                       (read (ProcessingOptions.chunkDuration options))
                       (read (ProcessingOptions.overlap options)) with
               | None => None
               | Some r => Some (r, w)
               end) ;;
          when verbose (emit (Console (SplitInto (length chunks)))) ;;;
          transcribeChunks fuel chunks transcriptionConfig
        else
          await (transcribe provider audioPath transcriptionConfig)) ;;
     (* Save output if requested *)
     match read (ProcessingOptions.outputPath options) with
     | Some outputPath =>
       if truthyString outputPath then
         saveOutput result outputPath
           (read (ProcessingOptions.outputFormat options)) ;;;
         when verbose (emit (Console (OutputSaved outputPath)))
       else ret tt
     | None => ret tt
     end ;;;
     cleanup ;;;
     ret result)
    (fun error => cleanup ;;; throw error))%M.

End Transcriber.
End Transcriber.

(** ** index.ts *)

Module Cli.
(** The options that the command line parser hands to the action; the two
    numbers are the values of [parseInt]. *)
Record Options := mkOptions {
  output : option string;
  format : option OutputFormat;
  chunkDuration : Z;
  maxConcurrent : Z;
  noRetry : option bool;
  verbose : option bool
}.

(** A property written from a value that can be [undefined]. *)
Definition written {A} (x : option A) : prop A :=
  match x with
  | Some a => Val a
  | None => Undefined
  end.

(** The [processingOptions] that the action builds for [transcribeFile]. *)
Definition processingOptions (config : Config.t) (options : Options)
  : ProcessingOptions.t :=
  ProcessingOptions.spread (Config.getProcessingOptions config)
    (ProcessingOptions.mk
       (Val (inject_Z (chunkDuration options)))
       Missing
       (written (format options))
       (written (output options))
       Missing
       (written (verbose options))
       (Val (maxConcurrent options))
       (Val (negb (truthyBool (noRetry options))))
       Missing).
End Cli.

(** * Vocabulary of the statements *)

(** The call returns [chunks] whenever it is given enough fuel. *)
Definition split_returns (config : Config.t) (ff : Ffmpeg.t) (audioPath : string)
    (chunkDuration overlap : option Q) (chunks : list AudioChunk.t) : Prop :=
  exists n : nat, forall fuel, (n < fuel)%nat ->
    AudioProcessor.splitAudioIntoChunks config ff fuel audioPath
      chunkDuration overlap = Some (Ok chunks).

(** The audio collaborator extracts every chunk of [audioPath], reads every
    file back, and reports [duration] for [audioPath]. *)
Definition audio_ok (ff : Ffmpeg.t) (audioPath : string) (duration : Q) : Prop :=
  (forall out st len, Ffmpeg.run_extractChunk ff audioPath out st len = Ok tt)
  /\ (forall p, exists b, Ffmpeg.readFileSync ff p = Ok b)
  /\ AudioProcessor.getAudioDuration ff audioPath = Ok duration.




(** The number [k] as a rational. *)
Definition nQ (k : nat) : Q := inject_Z (Z.of_nat k).

Definition sumQ (l : list Q) : Q := foldr Qplus 0 l.

(** The arithmetic mean, [0] for the empty list. *)
Definition mean (l : list Q) : Q :=
  match l with
  | [] => 0
  | _ => sumQ l / nQ (length l)
  end.

(** The confidence that [mergeResults] counts for a result: one that is
    present and not [0]. *)
Definition countedConfidence (result : TranscriptionResult.t) : option Q :=
  match TranscriptionResult.confidence result with
  | Some c => if truthyQ c then Some c else None
  | None => None
  end.

(** Following the specification: the mean over the segments that reported
    a confidence value, [0] when none did. *)
Definition spec_mergedConfidence (results : list TranscriptionResult.t) : Q :=
  mean (omap TranscriptionResult.confidence results).

(** The words of a result. *)
Definition wordsOf (result : TranscriptionResult.t) : list WordInfo.t :=
  default [] (TranscriptionResult.words result).

(** [parsed] is what the provider reads in an answer of the remote service
    to the request for [chunk]. *)
Definition parsedAnswer (provider : Provider) (chunk : AudioChunk.t)
    (config : TranscriptionConfig.t) (w : World)
    (parsed : TranscriptionResult.t) : Prop :=
  match provider with
  | UseGoogleSpeech p =>
    exists response,
      GoogleSpeechProvider.recognize p w (AudioChunk.buffer chunk) config
        = Ok response
      /\ parsed = GoogleSpeechProvider.processResponse response
  | UseVertexAI p =>
    exists response,
      VertexAISpeechProvider.predict p w (AudioChunk.buffer chunk) config
        = Ok response
      /\ parsed = VertexAISpeechProvider.processResponse response
  end.



(** ** Attempts of the retry pass at one index *)

Section Attempts.
Context {P : Type} `{TranscriptionProvider P}.
Variable provider : P.
Variable chunks : list AudioChunk.t.
Variable transcriptionConfig : TranscriptionConfig.t.
Variables maxRetries chunkIndex : Z.

(** The world in which attempt number [n + 1] calls the port: the attempt
    was announced on the console and the backoff pause was taken. *)
Definition announced (n : nat) (w : World) : World :=
  w ++ [Console (RetryingChunk (chunkIndex + 1) (Z.of_nat n + 1) maxRetries);
        Delay (2 ^ Z.of_nat n * 1000)].

(** What a failed attempt number [n + 1] leaves on the console. *)
Definition exhausted (n : nat) (message : string) : list Event :=
  if (maxRetries <=? Z.of_nat n + 1)%Z
  then [Console (RetriesExhausted (chunkIndex + 1) maxRetries
                                  (error_toString message))]
  else [].

(** [failedAttempts n w w']: from [w], [n] attempts in a row were made at
    [chunkIndex], every one of them failed, and the world is then [w']. *)
Inductive failedAttempts : nat -> World -> World -> Prop :=
| no_attempt w : failedAttempts 0 w w
| failed_attempt n w w1 w2 message :
    failedAttempts n w w1 ->
    Transcriber.transcribeChunkAt provider chunks chunkIndex
      transcriptionConfig (announced n w1) = Some (Throw message, w2) ->
    failedAttempts (S n) w (w2 ++ exhausted n message).
End Attempts.

(** ** Output files *)

(** The files written so far, with their contents. *)
Definition writes (w : World) : list (string * string) :=
  omap (fun e => match e with
                 | FileWritten path content => Some (path, content)
                 | _ => None
                 end) w.

(** A computation that writes no file. *)
Definition quiet {A} (m : M A) : Prop :=
  forall w r w', m w = Some (r, w') -> writes w' = writes w.

(** The configuration that [transcribeFile] hands to the provider. *)
Definition detectedConfig (host : Host.t) (audioPath : string)
    (transcriptionConfig : TranscriptionConfig.t) : TranscriptionConfig.t :=
  TranscriptionConfig.mk
    (TranscriptionConfig.provider transcriptionConfig)
    (TranscriptionConfig.languageCode transcriptionConfig)
    (Some (AudioProcessor.detectEncoding host audioPath)) (Some 16000%Z)
    (TranscriptionConfig.hints transcriptionConfig).

(** The world in which [transcribeFile] calls [transcribeChunks]. *)
Definition chunkStage (verbose : bool) (host : Host.t) (audioPath : string)
    (duration : Q) (chunks : list AudioChunk.t) (w : World) : World :=
  if verbose
  then (w ++ [Console (AudioFileInfo audioPath
                         (AudioProcessor.detectEncoding host audioPath) duration)])
       ++ [Console (SplitInto (length chunks))]
  else w.

(** ** Options of the dispatch and retry stages *)



(** * Sample environments *)

Module Sample.
Definition config : Config.t := Config.initial "/work".

(** An audio collaborator that always succeeds on a file of [duration]
    seconds. *)
Definition ffmpeg (duration : Q) : Ffmpeg.t :=
  Ffmpeg.mk (fun _ => true) (fun _ => 1%Z)
    (fun _ => Ok (Metadata.mk (Some duration) true))
    (fun p => Ok p)
    (fun _ _ _ _ => Ok tt)
    (fun _ => Ok []).

Definition host : Host.t :=
  Host.mk (fun _ => ".wav") (fun _ result => TranscriptionResult.transcript result).

Definition env : ProcessEnv.t :=
  ProcessEnv.mk (Some "project") None (Some "/key.json") None None
    (Some "endpoint")
    (fun _ => Ok tt) (fun _ => Ok tt).

Definition transcriptionConfig : TranscriptionConfig.t :=
  TranscriptionConfig.mk google_speech "ja-JP" None None "".

(** One word, spoken from 2 s to 2.5 s, with confidence [c]. *)
Definition oneWord (c : Q) : Google.Response :=
  Google.mkResponse
    (Some [Google.mkResult
             (Some [Google.mkAlt (Some "hello") (Some c)
                      (Some [Google.mkWord "hello"
                               (Some (Google.mkDuration (Some 2%Z) None))
                               (Some (Google.mkDuration (Some 2%Z)
                                                        (Some 500000000%Z)))
                               None None])])
             (Some "ja-JP")]).

Definition google
    (recognize : World -> Buffer -> TranscriptionConfig.t -> result Google.Response)
  : Provider :=
  UseGoogleSpeech (GoogleSpeechProvider.mk env (ffmpeg 120) recognize).

(** A service that answers every request. *)
Definition answering : Provider := google (fun _ _ _ => Ok (oneWord (4 # 5))).

(** A service that rejects every request. *)
Definition failing : Provider := google (fun _ _ _ => Throw "UNAVAILABLE").


(** One word, from 2 s to 2.5 s, as the endpoint of Vertex AI sends it. *)
Definition prediction : Vertex.Response :=
  Vertex.mkResponse
    (Some [Vertex.StructValue
             {[ "transcript" := Vertex.StringValue "hello";
                "words" :=
                  Vertex.ListValue
                    [Vertex.StructValue
                       {[ "word" := Vertex.StringValue "hello";
                          "startTime" := Vertex.NumberValue 2;
                          "endTime" := Vertex.NumberValue (5 # 2) ]}] ]}]).

Definition vertex : Provider :=
  UseVertexAI (VertexAISpeechProvider.new env (ffmpeg 120)
                 (fun _ _ _ => Ok prediction)).

Definition chunkAt (startTime : Q) (index : nat) : AudioChunk.t :=
  AudioChunk.mk [] startTime (startTime + 59) index.

Definition withConfidence (c : option Q) : TranscriptionResult.t :=
  TranscriptionResult.mk "hello" (Some []) (Some []) None c.
End Sample.

(** * Further vocabulary *)

(** The file that [splitAudioIntoChunks] cuts for the chunk of index [k]. *)
Definition chunkFile (config : Config.t) (k : nat) : string :=
  path_join (AudioProcessor.tempDir config) ("chunk_" +:+ pretty k +:+ ".wav").

(** The chunk [c] is the one of index [k]: it was extracted from [audioPath]
    at its [startTime] into its own file and its buffer is what was read
    back from that file. *)
Definition cut_from (config : Config.t) (ff : Ffmpeg.t) (audioPath : string)
    (k : nat) (c : AudioChunk.t) : Prop :=
  AudioChunk.index c = k
  /\ exists chunkLength,
       AudioChunk.endTime c = AudioChunk.startTime c + chunkLength
       /\ Ffmpeg.run_extractChunk ff audioPath (chunkFile config k)
            (AudioChunk.startTime c) chunkLength = Ok tt
       /\ Ffmpeg.readFileSync ff (chunkFile config k) = Ok (AudioChunk.buffer c).

(** The requests sent to the remote service so far, in order. *)
Definition requests (w : World) : list (Buffer * TranscriptionConfig.t) :=
  omap (fun e => match e with
                 | Request content config => Some (content, config)
                 | _ => None
                 end) w.

(** The pauses taken so far, in milliseconds. *)
Definition pauses (w : World) : list Z :=
  omap (fun e => match e with
                 | Delay ms => Some ms
                 | _ => None
                 end) w.

(** The file system that a provider reads the audio of [transcribe] from. *)
Definition providerFs (provider : Provider) : Ffmpeg.t :=
  match provider with
  | UseGoogleSpeech p => GoogleSpeechProvider.fs p
  | UseVertexAI p => VertexAISpeechProvider.fs p
  end.

(** The first language code that is neither absent nor empty. *)
Definition firstLanguageCode (results : list TranscriptionResult.t)
  : option string :=
  head (omap (fun result =>
                match TranscriptionResult.languageCode result with
                | Some code => if truthyString code then Some code else None
                | None => None
                end) results).

(** The words of [words] that start at [time], in their order. *)
Definition startingAt (time : Q) (words : list WordInfo.t) : list WordInfo.t :=
  List.filter (fun word => Qeq_bool (WordInfo.startTime word) time) words.

(** The indices, counted from [start], at which [outcomes] holds no
    result, in increasing order. *)
Fixpoint absentFrom (start : Z) (outcomes : list (option TranscriptionResult.t))
  : list Z :=
  match outcomes with
  | [] => []
  | None :: rest => start :: absentFrom (start + 1) rest
  | Some _ :: rest => absentFrom (start + 1) rest
  end.

(** The entries of [batchResults] for a batch whose first chunk has the
    index [start]. *)
Fixpoint entriesFrom (start : Z) (outcomes : list (option TranscriptionResult.t))
  : list (Z * option TranscriptionResult.t) :=
  match outcomes with
  | [] => []
  | outcome :: rest => (start, outcome) :: entriesFrom (start + 1) rest
  end.

(** The request that carries [chunk]. *)
Definition requestFor (config : TranscriptionConfig.t) (chunk : AudioChunk.t)
  : Buffer * TranscriptionConfig.t :=
  (AudioChunk.buffer chunk, config).

(** The content that [saveOutput] writes for [result]. *)
Definition outputContent (host : Host.t) (format : option OutputFormat)
    (outputPath : string) (result : TranscriptionResult.t) : string :=
  match default (Transcriber.detectFormat (Host.extname host outputPath)) format
  with
  | TXT => TranscriptionResult.transcript result
  | other => Host.serialize host other result
  end.

(** The file that a run of [transcribeFile] with the merged [options] writes
    when it ends with [outcome]. *)
Definition outputFile (host : Host.t) (options : ProcessingOptions.t)
    (outcome : result TranscriptionResult.t) : list (string * string) :=
  match outcome, read (ProcessingOptions.outputPath options) with
  | Ok result, Some outputPath =>
    if truthyString outputPath
    then [(outputPath,
           outputContent host (read (ProcessingOptions.outputFormat options))
             outputPath result)]
    else []
  | _, _ => []
  end.

(** Two singletons whose processing options differ at most in
    [chunkDuration], [outputFormat] and [outputPath]. *)
Definition same_but_overridden (a b : Config.t) : Prop :=
  let a := Config.processingOptions a in
  let b := Config.processingOptions b in
  ProcessingOptions.overlap a = ProcessingOptions.overlap b
  /\ ProcessingOptions.tempDir a = ProcessingOptions.tempDir b
  /\ ProcessingOptions.verbose a = ProcessingOptions.verbose b
  /\ ProcessingOptions.maxConcurrentChunks a
     = ProcessingOptions.maxConcurrentChunks b
  /\ ProcessingOptions.retryFailedChunks a = ProcessingOptions.retryFailedChunks b
  /\ ProcessingOptions.maxRetries a = ProcessingOptions.maxRetries b.

(** * Further parts of the sources *)

(** ** config.ts: the transcription settings of the singleton *)

Module PartialTranscriptionConfig.
(** [Partial<TranscriptionConfig>]; the three structured settings are
    kept as they are written. *)
Record t := mk {
  provider : prop ProviderName;
  languageCode : prop string;
  encoding : prop AudioEncoding;
  sampleRateHertz : prop Z;
  enableAutomaticPunctuation : prop bool;
  enableWordTimeOffsets : prop bool;
  enableWordConfidence : prop bool;
  model : prop string;
  useEnhanced : prop bool;
  maxAlternatives : prop Z;
  profanityFilter : prop bool;
  speechContexts : prop string;
  diarizationConfig : prop string;
  metadata : prop string
}.

(** [{ ...a, ...b }] *)
Definition spread (a b : t) : t :=
  mk (spread_prop (provider a) (provider b))
     (spread_prop (languageCode a) (languageCode b))
     (spread_prop (encoding a) (encoding b))
     (spread_prop (sampleRateHertz a) (sampleRateHertz b))
     (spread_prop (enableAutomaticPunctuation a) (enableAutomaticPunctuation b))
     (spread_prop (enableWordTimeOffsets a) (enableWordTimeOffsets b))
     (spread_prop (enableWordConfidence a) (enableWordConfidence b))
     (spread_prop (model a) (model b))
     (spread_prop (useEnhanced a) (useEnhanced b))
     (spread_prop (maxAlternatives a) (maxAlternatives b))
     (spread_prop (profanityFilter a) (profanityFilter b))
     (spread_prop (speechContexts a) (speechContexts b))
     (spread_prop (diarizationConfig a) (diarizationConfig b))
     (spread_prop (metadata a) (metadata b)).
End PartialTranscriptionConfig.

Module TranscriptionSettings.
(** The field [transcriptionConfig] of the singleton. *)
Definition t := PartialTranscriptionConfig.t.

Definition loadDefaultTranscriptionConfig : t :=
  PartialTranscriptionConfig.mk
    Missing (Val "ja-JP") (Val LINEAR16) Missing (Val true) (Val true)
    (Val true) (Val "latest_long") (Val true) (Val 1%Z) (Val false)
    Missing Missing Missing.

(** [{ ...this.transcriptionConfig }] *)
Definition getTranscriptionConfig (stored : t) : PartialTranscriptionConfig.t :=
  PartialTranscriptionConfig.spread
    (PartialTranscriptionConfig.mk Missing Missing Missing Missing Missing
       Missing Missing Missing Missing Missing Missing Missing Missing Missing)
    stored.

Definition updateTranscriptionConfig (stored : t)
    (config : PartialTranscriptionConfig.t) : t :=
  PartialTranscriptionConfig.spread stored config.

(** The [transcription] section of a configuration file, read by
    [loadFromFile]: a section that is present is spread over the stored
    settings. *)
Definition loadFromFile (stored : t)
    (transcription : option PartialTranscriptionConfig.t) : t :=
  match transcription with
  | Some section => PartialTranscriptionConfig.spread stored section
  | None => stored
  end.

(** The settings after the singleton was created and the configuration
    files and updates of [changes] were applied, in order. *)
Definition after (changes : list PartialTranscriptionConfig.t) : t :=
  fold_left updateTranscriptionConfig changes loadDefaultTranscriptionConfig.
End TranscriptionSettings.

(** ** index.ts: the transcription configuration of the command line *)

Module CliTranscription.
(** [{ provider: options.provider, languageCode: options.language,
       ...config.getTranscriptionConfig() }] *)
Definition transcriptionConfig (stored : TranscriptionSettings.t)
    (provider : ProviderName) (language : string)
  : PartialTranscriptionConfig.t :=
  PartialTranscriptionConfig.spread
    (PartialTranscriptionConfig.mk (Val provider) (Val language)
       Missing Missing Missing Missing Missing Missing Missing Missing
       Missing Missing Missing Missing)
    (TranscriptionSettings.getTranscriptionConfig stored).
End CliTranscription.

(** ** Numbers and strings of the output formats *)

(** [Math.trunc] *)
Definition js_trunc (x : Q) : Z := if Qltb x 0 then Qceiling x else Qfloor x.

(** [x % y] on numbers, for a divisor that is not [0]: the remainder has the
    sign of [x]. *)
Definition js_rem (x y : Q) : Q := x - y * inject_Z (js_trunc (x / y)).

(** [s.padStart(targetLength, padChar)] *)
Definition padStart (targetLength : nat) (padChar : ascii) (s : string)
  : string :=
  String.string_of_list_ascii (replicate (targetLength - String.length s) padChar)
  +:+ s.

(** The line feed. *)
Definition LF : ascii := "010"%char.

(** The double quote. *)
Definition DQUOTE : ascii := "034"%char.

(** A decimal digit. *)
Definition is_digit (c : ascii) : bool :=
  match Ascii.is_nat c with
  | Some _ => true
  | None => false
  end.

(** ** transcriber.ts: the output formats

    A number with an integer value below [10^21] prints as its decimal
    digits; this is how [hours], [minutes] and the like are printed. *)

Module Formats.

Definition formatSRTTime (seconds : Q) : string :=
  let hours := Qfloor (seconds / 3600) in
  let minutes := Qfloor (js_rem seconds 3600 / 60) in
  let secs := js_rem seconds 60 in
  let pad (n : Z) := padStart 2 "0" (pretty n) in
  let ms := padStart 3 "0" (pretty (Qfloor (js_rem secs 1 * 1000))) in
  pad hours +:+ ":" +:+ pad minutes +:+ ":" +:+ pad (Qfloor secs)
  +:+ "," +:+ ms.

Definition formatDuration (seconds : Q) : string :=
  let hours := Qfloor (seconds / 3600) in
  let minutes := Qfloor (js_rem seconds 3600 / 60) in
  let secs := Qfloor (js_rem seconds 60) in
  if (0 <? hours)%Z then
    pretty hours +:+ "h " +:+ pretty minutes +:+ "m " +:+ pretty secs +:+ "s"
  else if (0 <? minutes)%Z then
    pretty minutes +:+ "m " +:+ pretty secs +:+ "s"
  else
    pretty secs +:+ "s".

(** The last character of a string. *)
Fixpoint lastChar (s : string) : option ascii :=
  match s with
  | EmptyString => None
  | String c EmptyString => Some c
  | String _ rest => lastChar rest
  end.

(** [/[.!?]$/.test(word)] *)
Definition endsSentence (word : string) : bool :=
  match lastChar word with
  | Some c => Ascii.eqb c "." || Ascii.eqb c "!" || Ascii.eqb c "?"
  | None => false
  end.

Definition NL : string := String LF "".

(** The entry that is pushed on [subtitles] for the words of
    [currentSubtitle], of which [first] is the first and [last] the last. *)
Definition subtitle (subtitleIndex : Z) (first last : WordInfo.t)
    (currentSubtitle : list WordInfo.t) : string :=
  let startTime := formatSRTTime (WordInfo.startTime first) in
  let endTime := formatSRTTime (WordInfo.endTime last) in
  let text := join " " (map WordInfo.word currentSubtitle) in
  pretty subtitleIndex +:+ NL +:+ startTime +:+ " --> " +:+ endTime +:+ NL
  +:+ text +:+ NL.

(** The loop of [generateSRT] over the words.  After the push the first
    word of [currentSubtitle] is the one it had, or [word] when it was
    empty, and its last word is [word]. *)
Fixpoint srtLoop (words : list WordInfo.t) (subtitles : list string)
    (currentSubtitle : list WordInfo.t) (subtitleIndex : Z)
  : list string * list WordInfo.t * Z :=
  match words with
  | [] => (subtitles, currentSubtitle, subtitleIndex)
  | word :: rest =>
    let first := hd word currentSubtitle in
    let currentSubtitle := currentSubtitle ++ [word] in
    (* Create subtitle every ~3 seconds or at sentence boundaries *)
    let duration := WordInfo.endTime word - WordInfo.startTime first in
    let isEndOfSentence := endsSentence (WordInfo.word word) in
    if Qle_bool 3 duration || (isEndOfSentence && Qle_bool 1 duration) then
      srtLoop rest
        (subtitles ++ [subtitle subtitleIndex first word currentSubtitle])
        [] (subtitleIndex + 1)
    else srtLoop rest subtitles currentSubtitle subtitleIndex
  end.

Definition generateSRT (result : TranscriptionResult.t) : string :=
  match TranscriptionResult.words result with
  | None | Some [] => ""
  | Some words =>
    let '(subtitles, currentSubtitle, subtitleIndex) :=
      srtLoop words [] [] 1 in
    (* Add remaining words *)
    let subtitles :=
      match currentSubtitle with
      | [] => subtitles
      | first :: _ =>
        subtitles
        ++ [subtitle subtitleIndex first (List.last currentSubtitle first)
              currentSubtitle]
      end in
    join NL subtitles
  end.

(** [s.replace(/(\d+)\n/g, '')].  A match is a run of digits that a line
    feed follows; since a match ends with the line feed and the digits
    before it cannot end an earlier match, the matches from left to right
    are the maximal runs of digits that a line feed follows.  [digits] is
    the run of digits that was read and is not yet decided. *)
Fixpoint removeNumberLines (s : string) (digits : string) : string :=
  match s with
  | EmptyString => digits
  | String c rest =>
    if is_digit c then removeNumberLines rest (digits +:+ String c "")
    else if Ascii.eqb c LF then
      if truthyString digits then removeNumberLines rest ""
      else String c (removeNumberLines rest "")
    else digits +:+ String c (removeNumberLines rest "")
  end.

(** [s.replace(/,/g, '.')] *)
Fixpoint replaceCommas (s : string) : string :=
  match s with
  | EmptyString => EmptyString
  | String c rest =>
    String (if Ascii.eqb c "," then "."%char else c) (replaceCommas rest)
  end.

Definition generateVTT (result : TranscriptionResult.t) : string :=
  let srt := generateSRT result in
  if negb (truthyString srt) then "WEBVTT" +:+ NL +:+ NL
  else
    (* Convert SRT to VTT format *)
    let vtt := replaceCommas (removeNumberLines srt "") in
    "WEBVTT" +:+ NL +:+ NL +:+ vtt.

(** [x.toFixed(3)] for a number below [10^21]: the sign, then the nearest
    multiple of a thousandth, the larger one of two that are as near. *)
Definition toFixed3 (x : Q) : string :=
  let sign := if Qltb x 0 then "-" else "" in
  let n := Qfloor ((if Qltb x 0 then - x else x) * 1000 + (1 # 2)) in
  sign +:+ pretty (n / 1000)%Z +:+ "."
  +:+ padStart 3 "0" (pretty (n mod 1000)%Z).

(** The [replace] of [generateCSV]: every double quote in [s] is
    doubled. *)
Fixpoint escapeQuotes (s : string) : string :=
  match s with
  | EmptyString => EmptyString
  | String c rest =>
    if Ascii.eqb c DQUOTE then String DQUOTE (String DQUOTE (escapeQuotes rest))
    else String c (escapeQuotes rest)
  end.

Section CSV.
(** [String(n)] for a speaker tag. *)
Variable numberToString : Q -> string.

Definition csvRow (word : WordInfo.t) : string :=
  join ","
    [ toFixed3 (WordInfo.startTime word);
      toFixed3 (WordInfo.endTime word);
      String DQUOTE (escapeQuotes (WordInfo.word word)) +:+ String DQUOTE "";
      orString (toFixed3 <$> WordInfo.confidence word) "";
      match WordInfo.speakerTag word with
      | Some tag => if truthyQ tag then numberToString tag else ""
      | None => ""
      end ].

Definition generateCSV (result : TranscriptionResult.t) : string :=
  let headers := ["Start Time"; "End Time"; "Word"; "Confidence"; "Speaker"] in
  let rows :=
    join "," headers
    :: match TranscriptionResult.words result with
       | Some words => map csvRow words
       | None => []
       end in
  join NL rows.

(** The [switch] of [saveOutput] as a serialiser of the host, with
    [JSON.stringify(result, null, 2)] given. *)
Definition serialize (stringify : TranscriptionResult.t -> string)
    (format : OutputFormat) (result : TranscriptionResult.t) : string :=
  match format with
  | JSON => stringify result
  | TXT => TranscriptionResult.transcript result
  | SRT => generateSRT result
  | VTT => generateVTT result
  | CSV => generateCSV result
  end.
End CSV.

End Formats.

(** ** Vocabulary of the output formats *)

(** [pattern] occurs in [s]. *)
Definition occursIn (pattern s : string) : Prop :=
  exists before after, s = before +:+ pattern +:+ after.

(** No digit of [s] is followed by a line feed. *)
Fixpoint noDigitBeforeLF (s : string) : Prop :=
  match s with
  | EmptyString => True
  | String a rest =>
    (is_digit a = true ->
     match rest with
     | String b _ => b <> LF
     | EmptyString => True
     end)
    /\ noDigitBeforeLF rest
  end.

(** [s] holds digits only. *)
Fixpoint allDigits (s : string) : Prop :=
  match s with
  | EmptyString => True
  | String a rest => is_digit a = true /\ allDigits rest
  end.

(** [s] holds no comma. *)
Fixpoint noComma (s : string) : Prop :=
  match s with
  | EmptyString => True
  | String a rest => a <> ","%char /\ noComma rest
  end.

(** The words of [cue], from its first word to its last one, close a
    subtitle: they span three seconds at least, or one second at least when
    the last word ends with a full stop, an exclamation mark or a question
    mark. *)
Definition closesSubtitle (cue : list WordInfo.t) : bool :=
  match cue with
  | [] => false
  | first :: _ =>
    let last := List.last cue first in
    let duration := WordInfo.endTime last - WordInfo.startTime first in
    Qle_bool 3 duration
    || (Formats.endsSentence (WordInfo.word last) && Qle_bool 1 duration)
  end.

(** No beginning of [cue], and not [cue] itself, closes a subtitle. *)
Definition staysOpen (cue : list WordInfo.t) : Prop :=
  forall k, (0 < k <= length cue)%nat -> closesSubtitle (take k cue) = false.

(** The entry of the subtitle number [index] for the words of [cue]. *)
Definition cueEntry (index : Z) (cue : list WordInfo.t) : string :=
  match cue with
  | [] => ""
  | first :: _ => Formats.subtitle index first (List.last cue first) cue
  end.

(** The entries of [cues], numbered from [index]. *)
Fixpoint cueEntries (index : Z) (cues : list (list WordInfo.t)) : list string :=
  match cues with
  | [] => []
  | cue :: rest => cueEntry index cue :: cueEntries (index + 1) rest
  end.

(** Reading a quoted field of a CSV row after its opening quote: a doubled
    quote stands for one quote, a single quote ends the field; the value is
    the field and what follows its closing quote. *)
Fixpoint readQuoted (s : string) : option (string * string) :=
  match s with
  | EmptyString => None
  | String c rest =>
    if Ascii.eqb c DQUOTE then
      match rest with
      | String c' rest' =>
        if Ascii.eqb c' DQUOTE
        then (fun r => (String DQUOTE (fst r), snd r)) <$> readQuoted rest'
        else Some (EmptyString, rest)
      | EmptyString => Some (EmptyString, EmptyString)
      end
    else (fun r => (String c (fst r), snd r)) <$> readQuoted rest
  end.

(** ** utils/auth.ts

    The file system is a finite map from the paths of the files to their
    contents; writing a file and removing a file that exists succeed. *)

(** A value of [JSON.parse]. *)
Module Json.
#[warnings="-register-all"] Inductive t :=
| Null
| Bool (b : bool)
| Number (n : Q)
| Str (s : string)
| Array (items : list t)
| Object (fields : gmap string t).

Definition truthy (value : option t) : bool :=
  match value with
  | None | Some Null => false
  | Some (Bool b) => b
  | Some (Number n) => truthyQ n
  | Some (Str s) => truthyString s
  | Some (Array _) | Some (Object _) => true
  end.
End Json.

(** [s.startsWith(prefix)] *)
Fixpoint startsWith (s prefix : string) : bool :=
  match prefix, s with
  | EmptyString, _ => true
  | String p prefix', String c s' => Ascii.eqb c p && startsWith s' prefix'
  | String _ _, EmptyString => false
  end.

(** [s.includes(needle)] *)
Fixpoint includes (s needle : string) : bool :=
  startsWith s needle
  || match s with
     | EmptyString => false
     | String _ s' => includes s' needle
     end.

Module AuthHelper.

Record State := mkState {
  files : gmap string string;
  (** The static list of the class. *)
  tempCredentialFiles : list string
}.

(** What the helper takes from the host: the text that
    [Buffer.from(input, 'base64').toString('utf-8')] decodes, [JSON.parse]
    (the message of its [SyntaxError] when it throws), [os.tmpdir()] and
    the sixteen hexadecimal digits of [randomBytes(8)], which can depend on
    what was done before. *)
Record Host := mkHost {
  decodeBase64 : string -> string;
  JSON_parse : string -> result Json.t;
  tmpdir : string;
  randomHex : State -> string
}.

Definition existsSync (st : State) (path : string) : bool :=
  bool_decide (is_Some (files st !! path)).

(** [/^[a-zA-Z]:\\/.test(input)] *)
Definition isWindowsAbsolute (input : string) : bool :=
  match input with
  | String letter (String colon (String backslash _)) =>
    let n := nat_of_ascii letter in
    (((65 <=? n)%nat && (n <=? 90)%nat) || ((97 <=? n)%nat && (n <=? 122)%nat))
    && Ascii.eqb colon ":" && Ascii.eqb backslash "\"
  | _ => false
  end.

Definition isFilePath (input : string) : bool :=
  includes input ".json"
  || startsWith input "/"
  || startsWith input "./"
  || startsWith input "../"
  || isWindowsAbsolute input
  || startsWith input "~".

Section Methods.
Variable host : Host.

(** The path of the temporary file that [prepareCredentials] creates
    in the state [st]. *)
Definition tempFilePath (st : State) : string :=
  path_join (tmpdir host) ("gcp-creds-" +:+ randomHex host st +:+ ".json").

Definition prepareCredentials (credentialInput : option string) (st : State)
  : result (option string) * State :=
  match credentialInput with
  | None => (Ok None, st)
  | Some input =>
    if negb (truthyString input) then (Ok None, st)
    else if isFilePath input then
      if negb (existsSync st input)
      then (Throw ("Credential file not found: " +:+ input), st)
      else (Ok (Some input), st)
    else
      let decodedContent := decodeBase64 host input in
      match JSON_parse host decodedContent with
      | Throw message =>
        (Throw ("Invalid credentials: Must be either a valid file path or base64-encoded JSON. Error: SyntaxError: "
                +:+ message), st)
      | Ok _ =>
        let path := tempFilePath st in
        (Ok (Some path),
         mkState (<[path := decodedContent]> (files st))
                 (tempCredentialFiles st ++ [path]))
      end
  end.

(** [{ keyFilename }] or [{}] *)
Definition getCredentialConfig (credentialInput : option string) (st : State)
  : result (option string) * State :=
  match credentialInput with
  | None => (Ok None, st)
  | Some input =>
    if negb (truthyString input) then (Ok None, st)
    else
      match prepareCredentials credentialInput st with
      | (Ok (Some keyFilename), st') =>
        (Ok (if truthyString keyFilename then Some keyFilename else None), st')
      | other => other
      end
  end.

Definition cleanup (st : State) : State :=
  mkState
    (fold_left (fun files filePath =>
                  if bool_decide (is_Some (files !! filePath))
                  then delete filePath files
                  else files)
               (tempCredentialFiles st) (files st))
    [].

Definition requiredFields : list string :=
  ["type"; "project_id"; "private_key"; "client_email"].

(** The body of the [try] of [validateServiceAccountKey] once the text
    is parsed; reading a property of [null] throws a [TypeError]. *)
Definition checkServiceAccountKey (credentials : Json.t) : result unit :=
  match credentials with
  | Json.Null =>
    Throw "Cannot read properties of null (reading 'type')"
  | _ =>
    let field (name : string) : option Json.t :=
      match credentials with
      | Json.Object fields => fields !! name
      | _ => None
      end in
    let missingFields :=
      List.filter (fun name => negb (Json.truthy (field name)))
                  requiredFields in
    if (0 <? length missingFields)%nat then
      Throw ("Service account key missing required fields: "
             +:+ join ", " missingFields)
    else
      if match field "type" with
         | Some (Json.Str type) => String.eqb type "service_account"
         | _ => false
         end
      then Ok tt
      else
        Throw ("Invalid credential type. Expected " +:+ String DQUOTE ""
               +:+ "service_account" +:+ String DQUOTE "")
  end.

Definition validateServiceAccountKey (credentialInput : option string)
    (st : State) : result unit :=
  match credentialInput with
  | None => Ok tt
  | Some input =>
    if negb (truthyString input) then Ok tt
    else
      let jsonContent :=
        if isFilePath input then
          match files st !! input with
          | None => Throw ("Credential file not found: " +:+ input)
          | Some content => Ok content
          end
        else Ok (decodeBase64 host input) in
      match jsonContent with
      | Throw message => Throw message
      | Ok jsonContent =>
        match JSON_parse host jsonContent with
        | Throw _ => Throw "Invalid JSON in credentials"
        | Ok credentials => checkServiceAccountKey credentials
        end
      end
  end.
End Methods.
End AuthHelper.

(** ** utils/audio.ts: extraction and conversion *)

Module Media.
(** A run of [ffmpeg] as [extractAudio] and [convertAudio] set it up. *)
Record Command := mkCommand {
  input : string;
  noVideo : bool;
  audioCodec : option string;
  audioFrequency : Z;
  audioChannels : Z;
  format : option string;
  output : string
}.

(** [Date.now()] and the outcome of a run, [err.message] when it fails. *)
Record t := mk {
  now : Z;
  run : Command -> result unit
}.
End Media.

Module Extraction.
Section Extraction.
Variable config : Config.t.
Variable host : Host.t.
Variable media : Media.t.

(** [codecMap[encoding]] *)
Definition codecMap (encoding : AudioEncoding) : option string :=
  match encoding with
  | LINEAR16 => Some "pcm_s16le"
  | FLAC => Some "flac"
  | MP3 => Some "libmp3lame"
  | OGG_OPUS => Some "libopus"
  | _ => None
  end.

(** The value is the outcome and the runs of [ffmpeg] that were made. *)
Definition convertAudio (inputPath outputPath : string)
    (encoding : option AudioEncoding)
  : result string * list Media.Command :=
  let codec :=
    match encoding with
    | Some encoding => codecMap encoding
    | None => Some "pcm_s16le"
    end in
  let command :=
    Media.mkCommand inputPath false codec 16000 1
      (match encoding with
       | Some LINEAR16 => Some "wav"
       | _ => None
       end)
      outputPath in
  match Media.run media command with
  | Ok _ => (Ok outputPath, [command])
  | Throw message =>
    (Throw ("Audio conversion failed: " +:+ message), [command])
  end.

Definition isVideo (ext : string) : bool :=
  bool_decide (ext ∈ [".mp4"; ".avi"; ".mov"; ".mkv"; ".wmv"; ".flv"; ".webm"]).

Definition isAudio (ext : string) : bool :=
  bool_decide (ext ∈ [".wav"; ".mp3"; ".flac"; ".m4a"; ".aac"]).

(** [path.join(tempDir, `audio_${Date.now()}.wav`)] *)
Definition tempAudio : string :=
  path_join (AudioProcessor.tempDir config)
            ("audio_" +:+ pretty (Media.now media) +:+ ".wav").

Definition extractAudio (inputPath : string) (outputPath : option string)
  : result string * list Media.Command :=
  let ext := Host.extname host inputPath in
  let given :=
    match outputPath with
    | Some p => if truthyString p then Some p else None
    | None => None
    end in
  if negb (isVideo ext) && isAudio ext then
    (* For MP3 files, always convert to WAV for better compatibility *)
    if String.eqb ext ".mp3" then
      convertAudio inputPath (default tempAudio given) (Some LINEAR16)
    else
      (* For other audio files, convert if output path is specified *)
      match given with
      | Some p =>
        if negb (String.eqb p inputPath) then convertAudio inputPath p None
        else (Ok inputPath, [])
      | None => (Ok inputPath, [])
      end
  else
    let audioOutput := default tempAudio given in
    let command :=
      Media.mkCommand inputPath true (Some "pcm_s16le") 16000 1 None
        audioOutput in
    match Media.run media command with
    | Ok _ => (Ok audioOutput, [command])
    | Throw message =>
      (Throw ("Audio extraction failed: " +:+ message), [command])
    end.
End Extraction.
End Extraction.

(** ** index.ts: the environment that the action sets *)

Module CliEnvironment.
(** [--project-id], [--location] and [--key-file]; the location has the
    default [us-central1]. *)
Record Flags := mkFlags {
  projectId : option string;
  location : option string;
  keyFile : option string
}.

(** The assignments to [process.env] at the start of the action.  The
    variable [GOOGLE_CLOUD_LOCATION], which is set with
    [VERTEX_AI_LOCATION], is read by none of the modelled code. *)
Definition apply (flags : Flags) (env : ProcessEnv.t) : ProcessEnv.t :=
  ProcessEnv.mk
    (if ProcessEnv.truthy (projectId flags) then projectId flags
     else ProcessEnv.GOOGLE_CLOUD_PROJECT_ID env)
    (ProcessEnv.GCLOUD_PROJECT env)
    (if ProcessEnv.truthy (keyFile flags) then keyFile flags
     else ProcessEnv.GOOGLE_APPLICATION_CREDENTIALS env)
    (ProcessEnv.VERTEX_AI_PROJECT_ID env)
    (if ProcessEnv.truthy (location flags) then location flags
     else ProcessEnv.VERTEX_AI_LOCATION env)
    (ProcessEnv.VERTEX_AI_SPEECH_ENDPOINT_ID env)
    (ProcessEnv.prepareCredentials env)
    (ProcessEnv.validateServiceAccountKey env).
End CliEnvironment.

(** * Further sample environments *)

Module SampleAuth.
(** A host whose base64 text decodes to itself and whose parser reads an
    empty object from every text. *)
Definition host : AuthHelper.Host :=
  AuthHelper.mkHost (fun input => input) (fun _ => Ok (Json.Object ∅)) "/tmp"
    (fun _ => "00112233aabbccdd").

Definition empty : AuthHelper.State := AuthHelper.mkState ∅ [].
End SampleAuth.

(** * Properties *)

(** ** Arithmetic helpers *)

Lemma Qltb_lt (x y : Q) : Qltb x y = true <-> x < y.
Proof.
  unfold Qltb. rewrite negb_true_iff.
  destruct (Qle_bool y x) eqn:E.
  - apply Qle_bool_iff in E. split; [discriminate | lra].
  - split; [intros _ | reflexivity].
    destruct (Qlt_le_dec x y) as [H|H]; [exact H|].
    apply Qle_bool_iff in H. congruence.
Qed.

Lemma Qltb_ge (x y : Q) : Qltb x y = false <-> y <= x.
Proof.
  destruct (Qltb x y) eqn:E.
  - apply Qltb_lt in E. split; [discriminate | lra].
  - split; [intros _ | reflexivity].
    destruct (Qlt_le_dec x y) as [H|H]; [|exact H].
    apply Qltb_lt in H. congruence.
Qed.

(** Case analysis on every [Qmax] and [Qmin] of the goal, then linear
    arithmetic. *)
Ltac qminmax :=
  repeat match goal with
  | |- context [Qmax ?a ?b] =>
      let H := fresh "Hmax" in
      destruct (Q.max_spec a b) as [[? H]|[? H]];
      generalize dependent (Qmax a b); intros
  | |- context [Qmin ?a ?b] =>
      let H := fresh "Hmin" in
      destruct (Q.min_spec a b) as [[? H]|[? H]];
      generalize dependent (Qmin a b); intros
  | H0 : context [Qmax ?a ?b] |- _ =>
      let H := fresh "Hmax" in
      destruct (Q.max_spec a b) as [[? H]|[? H]];
      generalize dependent (Qmax a b); intros
  | H0 : context [Qmin ?a ?b] |- _ =>
      let H := fresh "Hmin" in
      destruct (Q.min_spec a b) as [[? H]|[? H]];
      generalize dependent (Qmin a b); intros
  end;
  try lra.

Lemma nQ_S (k : nat) : nQ (S k) == nQ k + 1.
Proof.
  unfold nQ. rewrite Nat2Z.inj_succ, <- Z.add_1_r, inject_Z_plus. reflexivity.
Qed.

Lemma nQ_0 : nQ 0 == 0.
Proof. reflexivity. Qed.

Lemma nQ_nonneg (k : nat) : 0 <= nQ k.
Proof.
  unfold nQ. change 0 with (inject_Z 0). rewrite <- Zle_Qle. lia.
Qed.

(** Some multiple of a positive step reaches any bound. *)
Lemma archimedes (d s : Q) : 0 < s -> exists n : nat, d <= nQ n * s.
Proof.
  intros Hs. exists (Z.to_nat (Qceiling (d / s))).
  assert (H1 : d / s <= inject_Z (Qceiling (d / s))) by apply Qle_ceiling.
  assert (H2 : inject_Z (Qceiling (d / s)) <= nQ (Z.to_nat (Qceiling (d / s)))).
  { unfold nQ. rewrite <- Zle_Qle. lia. }
  assert (H3 : d == (d / s) * s) by (field; lra).
  rewrite H3 at 1. nra.
Qed.

(** ** The segmenter: shape of the list that [splitLoop] produces *)

Section Segmenter.
Variable config : Config.t.
Variable ff : Ffmpeg.t.
Variable audioPath : string.
Variables duration chunkDuration overlap : Q.

(** The audio collaborator extracts and reads back every chunk. *)
Hypothesis extract_ok : forall out st len,
  Ffmpeg.run_extractChunk ff audioPath out st len = Ok tt.
Hypothesis read_ok : forall p, exists b, Ffmpeg.readFileSync ff p = Ok b.

Abbreviation step := (chunkDuration - overlap).

Abbreviation loop fuel t idx acc :=
  (AudioProcessor.splitLoop config ff fuel audioPath duration chunkDuration
     overlap t idx acc).

Lemma splitLoop_exit fuel t idx acc :
  duration <= t -> loop (S fuel) t idx acc = Some (Ok acc).
Proof.
  intros H. simpl. apply Qltb_ge in H. rewrite H. reflexivity.
Qed.

Lemma splitLoop_step t idx acc :
  t < duration ->
  exists b, forall fuel,
    loop (S fuel) t idx acc =
    loop fuel (t + (chunkDuration - overlap)) (S idx)
      (acc ++ [AudioChunk.mk b (Qmax 0 (t - overlap))
                 (Qmax 0 (t - overlap)
                  + Qmin chunkDuration (duration - Qmax 0 (t - overlap)))
                 idx]).
Proof.
  intros H. apply Qltb_lt in H.
  destruct (read_ok (path_join (AudioProcessor.tempDir config)
                       ("chunk_" +:+ pretty idx +:+ ".wav"))) as [b Hb].
  exists b. intros fuel. simpl. rewrite H.
  unfold AudioProcessor.extractChunk. rewrite extract_ok, Hb. reflexivity.
Qed.

(** With a positive step the loop started at [t] is left after at most [n]
    rounds when [n] steps reach [duration]; chunk [k] of the rounds is cut
    at the cursor [t + k * step]. *)
Lemma splitLoop_shape (n : nat) : forall t idx acc,
  0 < step ->
  duration - t <= nQ n * step ->
  exists new,
    (forall fuel, (n < fuel)%nat -> loop fuel t idx acc = Some (Ok (acc ++ new)))
    /\ (forall k c, new !! k = Some c ->
          t + nQ k * step < duration
          /\ AudioChunk.startTime c == Qmax 0 (t + nQ k * step - overlap)
          /\ AudioChunk.endTime c ==
             AudioChunk.startTime c
             + Qmin chunkDuration (duration - AudioChunk.startTime c)
          /\ AudioChunk.index c = (idx + k)%nat)
    /\ (forall k, t + nQ k * step < duration -> (k < length new)%nat).
Proof.
  induction n as [|n IH]; intros t idx acc Hs Hn.
  - exists []. rewrite nQ_0 in Hn. split; [|split].
    + intros [|fuel] Hf; [lia|]. rewrite app_nil_r.
      apply splitLoop_exit. lra.
    + intros k c Hk. rewrite lookup_nil in Hk. discriminate.
    + intros k Hk. pose proof (nQ_nonneg k). nra.
  - destruct (Qlt_le_dec t duration) as [Hlt|Hge].
    + destruct (splitLoop_step t idx acc Hlt) as [b Hb].
      destruct (IH (t + (chunkDuration - overlap)) (S idx)
                  (acc ++ [AudioChunk.mk b (Qmax 0 (t - overlap))
                    (Qmax 0 (t - overlap)
                     + Qmin chunkDuration (duration - Qmax 0 (t - overlap)))
                    idx]) Hs) as (new & Hrun & Hshape & Hlen).
      { rewrite nQ_S in Hn. lra. }
      eexists (_ :: new). split; [|split].
      * intros [|fuel] Hf; [lia|]. rewrite Hb, Hrun by lia.
        rewrite <- app_assoc. reflexivity.
      * intros [|k] c Hk; simpl in Hk.
        -- injection Hk as <-. simpl.
           split; [rewrite nQ_0; lra|]. split; [|split; [reflexivity | lia]].
           apply Q.max_compat; [reflexivity | rewrite nQ_0; ring].
        -- destruct (Hshape k c Hk) as (H1 & H2 & H3 & H4).
           split; [rewrite nQ_S; lra|]. split; [|split; [exact H3 | lia]].
           rewrite H2. apply Q.max_compat; [reflexivity | rewrite nQ_S; ring].
      * intros [|k] Hk; simpl; [lia|].
        assert (k < length new)%nat; [|lia].
        apply Hlen. rewrite nQ_S in Hk. lra.
    + exists []. split; [|split].
      * intros [|fuel] Hf; [lia|]. rewrite app_nil_r.
        apply splitLoop_exit. lra.
      * intros k c Hk. rewrite lookup_nil in Hk. discriminate.
      * intros k Hk. pose proof (nQ_nonneg k). nra.
Qed.

Variables chunkDuration_arg overlap_arg : option Q.
Hypothesis chunkDuration_eq : default 59 chunkDuration_arg = chunkDuration.
Hypothesis overlap_eq : default 1 overlap_arg = overlap.
Hypothesis probe_ok : AudioProcessor.getAudioDuration ff audioPath = Ok duration.

Abbreviation split fuel :=
  (AudioProcessor.splitAudioIntoChunks config ff fuel audioPath
     chunkDuration_arg overlap_arg).

Lemma split_unfold fuel : split fuel = loop fuel 0 0%nat [].
Proof.
  unfold AudioProcessor.splitAudioIntoChunks.
  rewrite probe_ok, chunkDuration_eq, overlap_eq. reflexivity.
Qed.

(** The segments of a run whose step is positive. *)
Lemma segments_shape :
  0 < step ->
  exists chunks n,
    (forall fuel, (n < fuel)%nat -> split fuel = Some (Ok chunks))
    /\ (forall k c, chunks !! k = Some c ->
          nQ k * step < duration
          /\ AudioChunk.startTime c == Qmax 0 (nQ k * step - overlap)
          /\ AudioChunk.endTime c ==
             AudioChunk.startTime c
             + Qmin chunkDuration (duration - AudioChunk.startTime c)
          /\ AudioChunk.index c = k)
    /\ (forall k, nQ k * step < duration -> (k < length chunks)%nat).
Proof.
  intros Hs. destruct (archimedes duration step Hs) as [n Hn].
  destruct (splitLoop_shape n 0 0%nat [] Hs) as (chunks & Hrun & Hshape & Hlen);
    [lra|].
  exists chunks, n. split; [|split].
  - intros fuel Hf. rewrite split_unfold. apply Hrun, Hf.
  - intros k c Hk. destruct (Hshape k c Hk) as (H1 & H2 & H3 & H4).
    split; [lra|]. split; [|split; [exact H3 | exact H4]].
    rewrite H2. apply Q.max_compat; [reflexivity | ring].
  - intros k Hk. apply Hlen. lra.
Qed.

(** A non-positive step never moves the cursor past a positive duration. *)
Lemma splitLoop_diverges fuel : forall t idx acc,
  step <= 0 -> t < duration -> loop fuel t idx acc = None.
Proof.
  induction fuel as [|fuel IH]; intros t idx acc Hs Ht; [reflexivity|].
  destruct (splitLoop_step t idx acc Ht) as [b Hb]. rewrite Hb.
  apply IH; [exact Hs | lra].
Qed.
End Segmenter.

(** ** The segmenter: coverage *)

Section Coverage.
Variables duration chunkDuration overlap : Q.
Variable chunks : list AudioChunk.t.

Abbreviation step := (chunkDuration - overlap).

Hypothesis valid_overlap : 0 <= overlap.
Hypothesis valid_step : 0 < step.
Hypothesis shape : forall k c, chunks !! k = Some c ->
  nQ k * step < duration
  /\ AudioChunk.startTime c == Qmax 0 (nQ k * step - overlap)
  /\ AudioChunk.endTime c ==
     AudioChunk.startTime c + Qmin chunkDuration (duration - AudioChunk.startTime c)
  /\ AudioChunk.index c = k.
Hypothesis complete : forall k, nQ k * step < duration -> (k < length chunks)%nat.






End Coverage.

(** ** The segmenter: the claims *)

(** The segments of a run on valid parameters, with the facts of
    [Coverage] about them. *)
Lemma valid_run (config : Config.t) (ff : Ffmpeg.t) (audioPath : string)
    (chunkDuration overlap : option Q) (duration : Q) :
  audio_ok ff audioPath duration ->
  default 1 overlap < default 59 chunkDuration ->
  exists chunks,
    split_returns config ff audioPath chunkDuration overlap chunks
    /\ (forall k c, chunks !! k = Some c ->
          nQ k * (default 59 chunkDuration - default 1 overlap) < duration
          /\ AudioChunk.startTime c ==
             Qmax 0 (nQ k * (default 59 chunkDuration - default 1 overlap)
                     - default 1 overlap)
          /\ AudioChunk.endTime c ==
             AudioChunk.startTime c
             + Qmin (default 59 chunkDuration) (duration - AudioChunk.startTime c)
          /\ AudioChunk.index c = k)
    /\ (forall k,
          nQ k * (default 59 chunkDuration - default 1 overlap) < duration ->
          (k < length chunks)%nat).
Proof.
  intros (Hx & Hr & Hp) Hstep.
  destruct (segments_shape config ff audioPath duration (default 59 chunkDuration)
              (default 1 overlap) Hx Hr chunkDuration overlap eq_refl eq_refl Hp)
    as (chunks & n & Hrun & Hshape & Hlen); [lra|].
  exists chunks. split; [exists n; exact Hrun | split; assumption].
Qed.


(** C5, amended.  [splitAudioIntoChunks] checks none of its parameters and
    raises no error for them.  With an audio collaborator that succeeds: for
    [totalDuration <= 0] it returns the empty list; for [totalDuration > 0]
    and [chunkLength <= overlap] it never returns; for [totalDuration > 0]
    and [overlap < 0] (with [chunkLength > overlap]) it returns segments, the
    first of which starts at [- overlap]. *)
Theorem C5_no_parameter_check (config : Config.t) (ff : Ffmpeg.t)
    (audioPath : string) (chunkDuration overlap : option Q) (totalDuration : Q) :
  audio_ok ff audioPath totalDuration ->
  (totalDuration <= 0 ->
   forall fuel, AudioProcessor.splitAudioIntoChunks config ff (S fuel) audioPath
                  chunkDuration overlap = Some (Ok []))
  /\ (0 < totalDuration -> default 59 chunkDuration <= default 1 overlap ->
      forall fuel, AudioProcessor.splitAudioIntoChunks config ff fuel audioPath
                     chunkDuration overlap = None)
  /\ (0 < totalDuration -> default 1 overlap < 0 ->
      default 1 overlap < default 59 chunkDuration ->
      exists c rest,
        split_returns config ff audioPath chunkDuration overlap (c :: rest)
        /\ AudioChunk.startTime c == - default 1 overlap).
Proof.
  intros Hok. pose proof Hok as (Hx & Hr & Hp). split; [|split].
  - intros Hd fuel.
    rewrite (split_unfold config ff audioPath totalDuration _ _ _ _ eq_refl eq_refl Hp).
    apply splitLoop_exit. exact Hd.
  - intros Hd Hstep fuel.
    rewrite (split_unfold config ff audioPath totalDuration _ _ _ _ eq_refl eq_refl Hp).
    apply splitLoop_diverges; [exact Hx | exact Hr | lra | exact Hd].
  - intros Hd Ho Hstep.
    destruct (valid_run config ff audioPath chunkDuration overlap totalDuration
                Hok Hstep) as (chunks & Hrun & Hshape & Hlen).
    assert (H0 : (0 < length chunks)%nat) by (apply Hlen; rewrite nQ_0; lra).
    destruct chunks as [|c rest]; [simpl in H0; lia|].
    exists c, rest. split; [exact Hrun|].
    destruct (Hshape 0%nat c eq_refl) as (_ & H2 & _).
    rewrite H2, nQ_0. qminmax.
Qed.

(** C6, amended.  For [0 < totalDuration <= chunkLength] (and
    [chunkLength > overlap >= 0]) the first segment covers the whole range
    [[0, totalDuration]]; it is the only segment exactly when
    [totalDuration <= chunkLength - overlap]. *)
Theorem C6_short_audio (config : Config.t) (ff : Ffmpeg.t)
    (audioPath : string) (chunkDuration overlap : option Q) (totalDuration : Q) :
  audio_ok ff audioPath totalDuration ->
  0 < totalDuration ->
  totalDuration <= default 59 chunkDuration ->
  0 <= default 1 overlap ->
  default 1 overlap < default 59 chunkDuration ->
  exists c rest,
    split_returns config ff audioPath chunkDuration overlap (c :: rest)
    /\ AudioChunk.startTime c == 0
    /\ AudioChunk.endTime c == totalDuration
    /\ (rest = [] <->
        totalDuration <= default 59 chunkDuration - default 1 overlap).
Proof.
  intros Hok Hd Hshort Ho Hstep.
  destruct (valid_run config ff audioPath chunkDuration overlap totalDuration
              Hok Hstep) as (chunks & Hrun & Hshape & Hlen).
  assert (H0 : (0 < length chunks)%nat) by (apply Hlen; rewrite nQ_0; lra).
  destruct chunks as [|c rest]; [simpl in H0; lia|].
  exists c, rest. split; [exact Hrun|].
  destruct (Hshape 0%nat c eq_refl) as (_ & H2 & H3 & _).
  rewrite nQ_0 in H2.
  assert (Hs : AudioChunk.startTime c == 0) by (rewrite H2; qminmax).
  split; [exact Hs|]. split.
  - rewrite H3, Hs. qminmax.
  - split.
    + intros ->.
      destruct (Qlt_le_dec (default 59 chunkDuration - default 1 overlap)
                  totalDuration) as [H|H]; [|exact H].
      assert (Hk : (1 < length [c])%nat).
      { apply Hlen. rewrite nQ_S, nQ_0. lra. }
      simpl in Hk. lia.
    + intros Hle. destruct rest as [|c' rest]; [reflexivity|].
      destruct (Hshape 1%nat c' eq_refl) as (H1 & _).
      rewrite nQ_S, nQ_0 in H1. lra.
Qed.


(** ** The merger *)

Lemma js_sort_insert_Permutation {A} (compareFn : A -> A -> Q) a l :
  js_sort_insert compareFn a l ≡ₚ a :: l.
Proof.
  induction l as [|b l IH]; simpl; [reflexivity|].
  destruct (Qle_bool (compareFn a b) 0); [reflexivity|].
  rewrite IH. apply Permutation_swap.
Qed.

Lemma js_sort_Permutation {A} (compareFn : A -> A -> Q) l :
  js_sort compareFn l ≡ₚ l.
Proof.
  induction l as [|a l IH]; simpl; [reflexivity|].
  rewrite js_sort_insert_Permutation. fold (js_sort compareFn l).
  rewrite IH. reflexivity.
Qed.

Lemma countedConfidence_eq result :
  countedConfidence result =
  if match TranscriptionResult.confidence result with
     | Some c => truthyQ c
     | None => false
     end
  then TranscriptionResult.confidence result
  else None.
Proof.
  unfold countedConfidence.
  destruct (TranscriptionResult.confidence result) as [c|];
    [destruct (truthyQ c)|]; reflexivity.
Qed.

Lemma omap_counted_cons result results :
  omap countedConfidence (result :: results) =
  match countedConfidence result with
  | Some c => c :: omap countedConfidence results
  | None => omap countedConfidence results
  end.
Proof. reflexivity. Qed.

Lemma mergeLoop_spec results : forall transcript words languageCode total count,
  let r := Transcriber.mergeLoop results transcript words languageCode total count in
  snd (fst (fst (fst r))) = words ++ concat (map wordsOf results)
  /\ snd (fst r) == total + sumQ (omap countedConfidence results)
  /\ snd r = (count + Z.of_nat (length (omap countedConfidence results)))%Z.
Proof.
  induction results as [|result results IH]; intros; subst r.
  - simpl. rewrite app_nil_r. split; [reflexivity|]. split; [ring | lia].
  - cbn [Transcriber.mergeLoop].
    match goal with
    | |- context [Transcriber.mergeLoop results ?t ?ws ?lc ?tot ?cnt] =>
        destruct (IH t ws lc tot cnt) as (Hw & Ht & Hc)
    end.
    rewrite Hw, Ht, Hc. clear Hw Ht Hc.
    rewrite omap_counted_cons, countedConfidence_eq.
    split; [|split].
    + unfold wordsOf at 2. cbn [map concat].
      destruct (TranscriptionResult.words result); simpl;
        [rewrite <- app_assoc|]; reflexivity.
    + destruct (TranscriptionResult.confidence result) as [c|];
        [destruct (truthyQ c)|]; simpl; ring.
    + destruct (TranscriptionResult.confidence result) as [c|];
        [destruct (truthyQ c)|]; simpl; lia.
Qed.

Lemma mergeResults_words results :
  wordsOf (Transcriber.mergeResults results) ≡ₚ concat (map wordsOf results).
Proof.
  unfold Transcriber.mergeResults.
  pose proof (mergeLoop_spec results "" [] None 0 0%Z) as (Hw & _).
  destruct (Transcriber.mergeLoop results "" [] None 0 0%Z)
    as [[[[transcript words] languageCode] total] count].
  simpl in *. subst words. unfold wordsOf at 1. simpl.
  apply js_sort_Permutation.
Qed.

(** C10, amended.  The merged confidence is the arithmetic mean over exactly
    those segments whose confidence is present and different from [0]: a
    segment without a confidence, or with the confidence [0], counts neither
    in the numerator nor in the denominator.  When no segment has such a
    confidence the merged value is [0]. *)
Theorem C10_merged_confidence (results : list TranscriptionResult.t) :
  exists c,
    TranscriptionResult.confidence (Transcriber.mergeResults results) = Some c
    /\ c == mean (omap countedConfidence results).
Proof.
  unfold Transcriber.mergeResults.
  pose proof (mergeLoop_spec results "" [] None 0 0%Z) as (_ & Ht & Hc).
  destruct (Transcriber.mergeLoop results "" [] None 0 0%Z)
    as [[[[transcript words] languageCode] total] count].
  simpl in *. eexists. split; [reflexivity|].
  subst count. rewrite Z.add_0_l.
  destruct (omap countedConfidence results) as [|c cs] eqn:E.
  - reflexivity.
  - assert (Hpos : (0 <? Z.of_nat (length (c :: cs)))%Z = true).
    { apply Z.ltb_lt. simpl. lia. }
    rewrite Hpos. unfold mean, nQ. rewrite Ht.
    apply Qdiv_comp; [ring | reflexivity].
Qed.

(** ** The port: what [transcribeChunk] returns *)


Lemma transcribeChunk_inv (provider : Provider) chunk config w result w' :
  transcribeChunk provider chunk config w = (Ok result, w') ->
  exists parsed,
    parsedAnswer provider chunk config w parsed
    /\ result = adjustTimestamps chunk parsed
    /\ w' = w ++ [Request (AudioChunk.buffer chunk) config].
Proof.
  destruct provider as [p|p]; simpl.
  - unfold GoogleSpeechProvider.transcribeChunk.
    destruct (GoogleSpeechProvider.validateConfig p config); [|discriminate].
    destruct (GoogleSpeechProvider.recognize p w (AudioChunk.buffer chunk) config)
      as [response|] eqn:E; [|discriminate].
    intros [= <- <-]. exists (GoogleSpeechProvider.processResponse response).
    split; [exists response; split; reflexivity | split; reflexivity].
  - unfold VertexAISpeechProvider.transcribeChunk.
    destruct (VertexAISpeechProvider.validateConfig p config); [|discriminate].
    destruct (VertexAISpeechProvider.predict p w (AudioChunk.buffer chunk) config)
      as [response|] eqn:E; [|discriminate].
    intros [= <- <-]. exists (VertexAISpeechProvider.processResponse response).
    split; [exists response; split; reflexivity | split; reflexivity].
Qed.

(** C3, amended.  [transcribeChunk] itself applies the offset correction, in
    both providers: each word of the result carries the times parsed from the
    answer of the remote service plus the [startTime] of the chunk; the word,
    its confidence and its speaker are as parsed, and so are the transcript,
    the confidence and the language of the result. *)
Theorem C3_transcribeChunk_shifts_words (provider : Provider)
    (chunk : AudioChunk.t) (config : TranscriptionConfig.t) (w w' : World)
    (result : TranscriptionResult.t) :
  transcribeChunk provider chunk config w = (Ok result, w') ->
  exists parsed,
    parsedAnswer provider chunk config w parsed
    /\ TranscriptionResult.words result
       = map (fun word =>
                WordInfo.mk (WordInfo.word word)
                  (WordInfo.startTime word + AudioChunk.startTime chunk)
                  (WordInfo.endTime word + AudioChunk.startTime chunk)
                  (WordInfo.confidence word) (WordInfo.speakerTag word))
         <$> TranscriptionResult.words parsed
    /\ TranscriptionResult.transcript result = TranscriptionResult.transcript parsed
    /\ TranscriptionResult.confidence result = TranscriptionResult.confidence parsed
    /\ TranscriptionResult.languageCode result
       = TranscriptionResult.languageCode parsed.
Proof.
  intros Hrun.
  destruct (transcribeChunk_inv provider chunk config w result w' Hrun)
    as (parsed & Hparsed & -> & _).
  exists parsed. split; [exact Hparsed|].
  unfold adjustTimestamps.
  destruct (TranscriptionResult.words parsed) eqn:E; simpl; rewrite ?E;
    repeat split; reflexivity.
Qed.

(** ** Computations *)

Lemma bind_inv {A B} (m : M A) (f : A -> M B) w r w' :
  bind m f w = Some (r, w') ->
  (exists message, m w = Some (Throw message, w') /\ r = Throw message)
  \/ (exists a w1, m w = Some (Ok a, w1) /\ f a w1 = Some (r, w')).
Proof.
  unfold bind. destruct (m w) as [[[a|message] w1]|]; [| |discriminate].
  - intros Hf. right. exists a, w1. split; [reflexivity | exact Hf].
  - intros [= <- <-]. left. exists message. split; reflexivity.
Qed.

Lemma bind_Ok_inv {A B} (m : M A) (f : A -> M B) w b w' :
  bind m f w = Some (Ok b, w') ->
  exists a w1, m w = Some (Ok a, w1) /\ f a w1 = Some (Ok b, w').
Proof.
  intros Hb. apply bind_inv in Hb as [(message & _ & Hr)|Hok];
    [discriminate | exact Hok].
Qed.

Lemma bind_Ok {A B} (m : M A) (f : A -> M B) w a w1 :
  m w = Some (Ok a, w1) -> bind m f w = f a w1.
Proof. unfold bind. intros ->. reflexivity. Qed.

Lemma bind_Throw {A B} (m : M A) (f : A -> M B) w message w1 :
  m w = Some (Throw message, w1) -> bind m f w = Some (Throw message, w1).
Proof. unfold bind. intros ->. reflexivity. Qed.

Lemma when_run (c : bool) (m : M unit) w :
  (forall w, exists w', m w = Some (Ok tt, w')) ->
  exists w', when c m w = Some (Ok tt, w').
Proof.
  intros Hm. destruct c; simpl; [apply Hm | exists w; reflexivity].
Qed.

Lemma emit_run e w : emit e w = Some (Ok tt, w ++ [e]).
Proof. reflexivity. Qed.

(** ** Writing into the table *)


Section Answered.
Context {P : Type} `{TranscriptionProvider P}.
Variable config : Config.t.
Variable provider : P.
Variable chunks : list AudioChunk.t.
Variable transcriptionConfig : TranscriptionConfig.t.



Lemma batchPromise_run verbose chunkIndex chunk w :
  exists x w',
    Transcriber.batchPromise provider transcriptionConfig verbose chunkIndex
      chunk w = Some (Ok (chunkIndex, x), w')
    /\ forall r, x = Some r ->
         exists w1, transcribeChunk provider chunk transcriptionConfig w
                    = (Ok r, w1).
Proof.
  unfold Transcriber.batchPromise, try_catch, bind, await.
  destruct (transcribeChunk provider chunk transcriptionConfig w)
    as [[r|message] w1] eqn:E.
  - destruct verbose; simpl; eexists _, _;
      (split; [reflexivity|]); intros ? [= <-]; eauto.
  - simpl. eexists _, _. split; [reflexivity|]. intros ? [=].
Qed.

Lemma runBatch_run verbose i batch : forall batchIdx failedChunks w,
  exists entries failed w',
    Transcriber.runBatch provider transcriptionConfig verbose i batch batchIdx
      failedChunks w = Some (Ok (entries, failed), w')
    /\ forall idx r, (idx, Some r) ∈ entries ->
         exists (j : nat) chunk w1 w2,
           batch !! j = Some chunk
           /\ idx = (i + batchIdx + Z.of_nat j)%Z
           /\ transcribeChunk provider chunk transcriptionConfig w1 = (Ok r, w2).
Proof.
  induction batch as [|chunk rest IH]; intros batchIdx failedChunks w.
  - exists [], failedChunks, w. split; [reflexivity|].
    intros idx r Hin. apply elem_of_nil in Hin. destruct Hin.
  - cbn [Transcriber.runBatch].
    destruct (batchPromise_run verbose (i + batchIdx)%Z chunk w)
      as (x & w1 & Hp & Hx).
    rewrite (bind_Ok _ _ _ _ _ Hp). cbn [snd].
    match goal with
    | |- context [Transcriber.runBatch _ _ _ _ rest ?k ?f] =>
        destruct (IH k f w1) as (entries & failed & w2 & Hrest & Hentries)
    end.
    rewrite (bind_Ok _ _ _ _ _ Hrest).
    eexists _, _, _. split; [reflexivity|].
    cbn [fst snd]. intros idx r Hin.
    apply elem_of_cons in Hin as [[= -> <-]|Hin].
    + destruct (Hx r eq_refl) as [w3 Hr].
      exists 0%nat, chunk, w, w3. split; [reflexivity|]. split; [lia | exact Hr].
    + destruct (Hentries idx r Hin) as (j & c & wa & wb & Hj & -> & Hr).
      exists (S j), c, wa, wb. split; [exact Hj|]. split; [lia | exact Hr].
Qed.


End Answered.

(** ** The retry pass *)

Section Retry.
Context {P : Type} `{TranscriptionProvider P}.
Variable provider : P.
Variable chunks : list AudioChunk.t.
Variable transcriptionConfig : TranscriptionConfig.t.
Variables maxRetries chunkIndex : Z.

Abbreviation callAt := 
  (Transcriber.transcribeChunkAt provider chunks chunkIndex transcriptionConfig).
Abbreviation attempt :=
  (Transcriber.retryAttempt provider chunks transcriptionConfig maxRetries
     chunkIndex).
Abbreviation retry fuel :=
  (Transcriber.retryLoop provider fuel chunks transcriptionConfig maxRetries
     chunkIndex).

Lemma transcribeChunkAt_run w :
  exists r w',
    callAt w = Some (r, w')
    /\ forall result, r = Ok result ->
         exists chunk,
           js_get chunks chunkIndex = Some chunk
           /\ transcribeChunk provider chunk transcriptionConfig w
              = (Ok result, w').
Proof.
  unfold Transcriber.transcribeChunkAt.
  destruct (js_get chunks chunkIndex) as [chunk|].
  - unfold await.
    destruct (transcribeChunk provider chunk transcriptionConfig w)
      as [r w'] eqn:E.
    exists r, w'. split; [reflexivity|]. intros result ->. eauto.
  - unfold bind, lift, throw.
    destruct (validateConfig provider transcriptionConfig);
      eexists _, _; (split; [reflexivity|]); intros ? [=].
Qed.

Lemma retryAttempt_run (k : nat) success results w :
  (exists result w2,
      callAt (announced maxRetries chunkIndex k w) = Some (Ok result, w2)
      /\ attempt (Z.of_nat k) success results w
         = Some (Ok (js_set results chunkIndex (Some result), Z.of_nat k, true),
                 w2 ++ [Console (RetrySucceeded (chunkIndex + 1)
                                                (Z.of_nat k + 1))]))
  \/ (exists message w2,
        callAt (announced maxRetries chunkIndex k w) = Some (Throw message, w2)
        /\ attempt (Z.of_nat k) success results w
           = Some (Ok (results, (Z.of_nat k + 1)%Z, success),
                   w2 ++ exhausted maxRetries chunkIndex k message)).
Proof.
  destruct (transcribeChunkAt_run (announced maxRetries chunkIndex k w))
    as ([result|message] & w2 & Hcall & _); [left | right];
    eexists _, w2; (split; [exact Hcall|]);
    unfold Transcriber.retryAttempt, try_catch, bind, emit;
    rewrite <- (app_assoc w); cbn [app];
    unfold announced in Hcall; rewrite Hcall.
  - reflexivity.
  - unfold exhausted, when.
    destruct (maxRetries <=? Z.of_nat k + 1)%Z; simpl;
      rewrite ?app_nil_r; reflexivity.
Qed.

(** From [k] failed attempts on, the loop makes further attempts until one
    succeeds or [maxRetries] are made. *)
Lemma retryLoop_spec (m : nat) : forall (k : nat) fuel w0 w1 results,
  failedAttempts provider chunks transcriptionConfig maxRetries chunkIndex
    k w0 w1 ->
  (maxRetries - Z.of_nat k <= Z.of_nat m)%Z ->
  (m < fuel)%nat ->
  exists results' w' (n : nat) w1',
    retry fuel (Z.of_nat k) false results w1 = Some (Ok results', w')
    /\ failedAttempts provider chunks transcriptionConfig maxRetries chunkIndex
         n w0 w1'
    /\ (Z.of_nat n = Z.max (Z.of_nat k) maxRetries
          /\ results' = results /\ w' = w1'
        \/ (Z.of_nat k <= Z.of_nat n < maxRetries)%Z
           /\ exists result w2,
                callAt (announced maxRetries chunkIndex n w1')
                  = Some (Ok result, w2)
                /\ results' = js_set results chunkIndex (Some result)
                /\ w' = w2 ++ [Console (RetrySucceeded (chunkIndex + 1)
                                                       (Z.of_nat n + 1))]).
Proof.
  induction m as [|m IH]; intros k fuel w0 w1 results Hfailed Hm Hfuel;
    (destruct fuel as [|fuel]; [lia|]); cbn [Transcriber.retryLoop];
    destruct (Z.of_nat k <? maxRetries)%Z eqn:Hk;
    try (apply Z.ltb_lt in Hk; lia);
    try (apply Z.ltb_ge in Hk; exists results, w1, k, w1;
         split; [reflexivity|]; split; [exact Hfailed|];
         left; split; [lia | split; reflexivity]).
  apply Z.ltb_lt in Hk. cbn [negb andb].
  destruct (retryAttempt_run k false results w1)
    as [(result & w2 & Hcall & Hrun)|(message & w2 & Hcall & Hrun)];
    rewrite (bind_Ok _ _ _ _ _ Hrun); cbn [fst snd].
  - destruct fuel as [|fuel]; [lia|]. cbn [Transcriber.retryLoop].
    rewrite andb_false_r.
    eexists _, _, k, w1. split; [reflexivity|]. split; [exact Hfailed|].
    right. split; [lia|]. exists result, w2. repeat split. exact Hcall.
  - replace (Z.of_nat k + 1)%Z with (Z.of_nat (S k)) by lia.
    destruct (IH (S k) fuel w0
                (w2 ++ exhausted maxRetries chunkIndex k message) results)
      as (results' & w' & n & w1' & Hloop & Hn & Hend); [| lia | lia |].
    { econstructor; eassumption. }
    exists results', w', n, w1'. split; [exact Hloop|]. split; [exact Hn|].
    destruct Hend as [(E & -> & ->)|(Hlt & Hs)]; [left | right].
    + split; [lia | split; reflexivity].
    + split; [lia | exact Hs].
Qed.

End Retry.

Section RetryPass.
Context {P : Type} `{TranscriptionProvider P}.
Variable provider : P.
Variable chunks : list AudioChunk.t.
Variable transcriptionConfig : TranscriptionConfig.t.
Variable maxRetries : Z.

Lemma retryEach_returns fuel failedIndices : forall results w,
  (Z.to_nat maxRetries < fuel)%nat ->
  exists results' w',
    Transcriber.retryEach provider fuel chunks transcriptionConfig maxRetries
      failedIndices results w = Some (Ok results', w').
Proof.
  induction failedIndices as [|chunkIndex rest IH]; intros results w Hfuel.
  - exists results, w. reflexivity.
  - cbn [Transcriber.retryEach].
    destruct (retryLoop_spec provider chunks transcriptionConfig maxRetries
                chunkIndex (Z.to_nat maxRetries) 0 fuel w w results)
      as (results1 & w1 & _ & _ & Hloop & _); [constructor | lia | exact Hfuel |].
    change (Z.of_nat 0) with 0%Z in Hloop.
    rewrite (bind_Ok _ _ _ _ _ Hloop). apply IH, Hfuel.
Qed.

End RetryPass.


(** ** The batches *)

Section Dispatch.
Context {P : Type} `{TranscriptionProvider P}.
Variable provider : P.
Variable chunks : list AudioChunk.t.
Variable transcriptionConfig : TranscriptionConfig.t.
Variable verbose : bool.
Variable maxConcurrent : Z.


End Dispatch.


(** ** The merged transcript *)

Lemma transcribeChunks_unfold {P : Type} `{TranscriptionProvider P}
    (config : Config.t) (provider : P) fuel chunks transcriptionConfig w
    results w1 :
  Transcriber.collectResults config provider fuel chunks transcriptionConfig w
    = Some (Ok results, w1) ->
  Transcriber.transcribeChunks config provider fuel chunks transcriptionConfig w
  = if (length (omap id results) =? 0)%nat
    then Some (Throw "All chunks failed to transcribe", w1)
    else
      Some (Ok (Transcriber.mergeResults (omap id results)),
            if truthyBool
                 (read (ProcessingOptions.verbose
                          (Config.getProcessingOptions config)))
            then w1 ++ [Console (SuccessfullyTranscribed
                                   (length (omap id results)) (length chunks))]
            else w1).
Proof.
  intros Hcollect. unfold Transcriber.transcribeChunks.
  rewrite (bind_Ok _ _ _ _ _ Hcollect).
  destruct (length (omap id results) =? 0)%nat; [reflexivity|].
  destruct (truthyBool _); reflexivity.
Qed.

(** ** Files written *)

Lemma writes_snoc w e :
  (forall path content, e <> FileWritten path content) ->
  writes (w ++ [e]) = writes w.
Proof.
  intros He. unfold writes. rewrite omap_app. simpl.
  destruct e; try (apply app_nil_r). destruct (He path content). reflexivity.
Qed.

Lemma quiet_ret {A} (a : A) : quiet (ret a).
Proof. intros w r w' [= _ <-]. reflexivity. Qed.

Lemma quiet_throw {A} message : quiet (@throw A message).
Proof. intros w r w' [= _ <-]. reflexivity. Qed.

Lemma quiet_lift {A} (x : result A) : quiet (lift x).
Proof. intros w r w' [= _ <-]. reflexivity. Qed.

Lemma quiet_out_of_fuel {A} : quiet (@out_of_fuel A).
Proof. intros w r w' [=]. Qed.

Lemma quiet_emit e :
  (forall path content, e <> FileWritten path content) -> quiet (emit e).
Proof. intros He w r w' [= _ <-]. apply writes_snoc, He. Qed.

Lemma quiet_bind {A B} (m : M A) (f : A -> M B) :
  quiet m -> (forall a, quiet (f a)) -> quiet (bind m f).
Proof.
  intros Hm Hf w r w' Hb.
  apply bind_inv in Hb as [(message & Hw & _)|(a & w1 & Hw & Hfa)].
  - exact (Hm _ _ _ Hw).
  - rewrite (Hf _ _ _ _ Hfa). exact (Hm _ _ _ Hw).
Qed.

Lemma quiet_try_catch {A} (m : M A) (handler : string -> M A) :
  quiet m -> (forall e, quiet (handler e)) -> quiet (try_catch m handler).
Proof.
  intros Hm Hh w r w'. unfold try_catch.
  destruct (m w) as [[[a|message] w1]|] eqn:E; [| |discriminate].
  - intros [= <- <-]. exact (Hm _ _ _ E).
  - intros Hr. rewrite (Hh _ _ _ _ Hr). exact (Hm _ _ _ E).
Qed.

Lemma quiet_when c (m : M unit) : quiet m -> quiet (when c m).
Proof. intros Hm. destruct c; [exact Hm | apply quiet_ret]. Qed.

Ltac quiet_step :=
  first
    [ apply quiet_ret | apply quiet_throw | apply quiet_lift
    | apply quiet_out_of_fuel
    | apply quiet_emit; discriminate
    | apply quiet_when
    | apply quiet_try_catch; [|intros ?]
    | apply quiet_bind; [|intros ?] ].

Section Quiet.
Context {P : Type} `{TranscriptionProvider P}.
Variable config : Config.t.
Variable provider : P.

(** The port writes no file. *)
Hypothesis port_quiet : forall chunk transcriptionConfig,
  quiet (await (transcribeChunk provider chunk transcriptionConfig)).

Lemma quiet_transcribeChunkAt chunks chunkIndex transcriptionConfig :
  quiet (Transcriber.transcribeChunkAt provider chunks chunkIndex
           transcriptionConfig).
Proof.
  unfold Transcriber.transcribeChunkAt.
  destruct (js_get chunks chunkIndex); [apply port_quiet|].
  repeat quiet_step.
Qed.

Lemma quiet_runBatch transcriptionConfig verbose i batch :
  forall batchIdx failedChunks,
    quiet (Transcriber.runBatch provider transcriptionConfig verbose i batch
             batchIdx failedChunks).
Proof.
  induction batch as [|chunk rest IH]; intros batchIdx failedChunks;
    cbn [Transcriber.runBatch]; [apply quiet_ret|].
  apply quiet_bind; [|intros entry; apply quiet_bind;
                       [apply IH | intros; apply quiet_ret]].
  unfold Transcriber.batchPromise.
  apply quiet_try_catch; [|intros ?; repeat quiet_step].
  apply quiet_bind; [apply port_quiet | intros; repeat quiet_step].
Qed.

Lemma quiet_dispatchLoop fuel chunks transcriptionConfig verbose maxConcurrent :
  forall i results failedChunks,
    quiet (Transcriber.dispatchLoop provider fuel chunks transcriptionConfig
             verbose maxConcurrent i results failedChunks).
Proof.
  induction fuel as [|fuel IH]; intros i results failedChunks;
    cbn [Transcriber.dispatchLoop]; [apply quiet_out_of_fuel|].
  destruct (i <? Z.of_nat (length chunks))%Z; [|apply quiet_ret].
  apply quiet_bind; [apply quiet_runBatch|]. intros done.
  apply quiet_bind; [repeat quiet_step|]. intros _. apply IH.
Qed.

Lemma quiet_retryLoop fuel chunks transcriptionConfig maxRetries chunkIndex :
  forall retryCount success results,
    quiet (Transcriber.retryLoop provider fuel chunks transcriptionConfig
             maxRetries chunkIndex retryCount success results).
Proof.
  induction fuel as [|fuel IH]; intros retryCount success results;
    cbn [Transcriber.retryLoop]; [apply quiet_out_of_fuel|].
  destruct (_ && _); [|apply quiet_ret].
  apply quiet_bind; [|intros next; apply IH].
  unfold Transcriber.retryAttempt.
  apply quiet_try_catch; [|intros ?; repeat quiet_step].
  apply quiet_bind; [repeat quiet_step|]. intros _.
  apply quiet_bind; [repeat quiet_step|]. intros _.
  apply quiet_bind; [apply quiet_transcribeChunkAt|]. intros result.
  repeat quiet_step.
Qed.

Lemma quiet_retryEach fuel chunks transcriptionConfig maxRetries failedIndices :
  forall results,
    quiet (Transcriber.retryEach provider fuel chunks transcriptionConfig
             maxRetries failedIndices results).
Proof.
  induction failedIndices as [|chunkIndex rest IH]; intros results;
    cbn [Transcriber.retryEach]; [apply quiet_ret|].
  apply quiet_bind; [apply quiet_retryLoop | intros; apply IH].
Qed.

Lemma quiet_collectResults fuel chunks transcriptionConfig :
  quiet (Transcriber.collectResults config provider fuel chunks
           transcriptionConfig).
Proof.
  unfold Transcriber.collectResults.
  apply quiet_bind; [repeat quiet_step|]. intros _.
  apply quiet_bind; [apply quiet_dispatchLoop|]. intros done.
  destruct (_ && _); [|apply quiet_ret].
  apply quiet_bind; [repeat quiet_step|]. intros _.
  apply quiet_retryEach.
Qed.
End Quiet.

Lemma provider_quiet (provider : Provider) chunk transcriptionConfig :
  quiet (await (transcribeChunk provider chunk transcriptionConfig)).
Proof.
  intros w r w'. unfold await.
  destruct provider as [p|p]; simpl;
    [unfold GoogleSpeechProvider.transcribeChunk
    |unfold VertexAISpeechProvider.transcribeChunk];
    repeat match goal with
    | |- context [match ?x with _ => _ end] => destruct x
    end;
    intros [= _ <-]; try reflexivity; apply writes_snoc; discriminate.
Qed.

(** ** The pipeline *)

(** C9.  When the pipeline has split a long audio into chunks and, after
    the batches and the retries, no entry of the table of results is
    present, [transcribeFile] fails with the error "All chunks failed to
    transcribe": it returns no merged result and writes no output file. *)
Theorem C9_all_chunks_failed (config : Config.t) (ff : Ffmpeg.t) (host : Host.t)
    (provider : Provider) (fuel : nat) (inputPath : string)
    (transcriptionConfig : TranscriptionConfig.t)
    (processingOptions : ProcessingOptions.t) (w : World)
    (audioPath : string) (duration : Q) (chunks : list AudioChunk.t)
    (results : list (option TranscriptionResult.t)) (w1 : World) :
  let options :=
    ProcessingOptions.spread (Config.getProcessingOptions config)
                             processingOptions in
  let verbose :=
    truthyBool (read (ProcessingOptions.verbose options)) in
  AudioProcessor.validateAudioFile ff inputPath = Ok tt ->
  Ffmpeg.run_extractAudio ff inputPath = Ok audioPath ->
  AudioProcessor.getAudioDuration ff audioPath = Ok duration ->
  Qltb (orQ (read (ProcessingOptions.chunkDuration options)) 59) duration = true ->
  AudioProcessor.splitAudioIntoChunks config ff fuel audioPath
    (read (ProcessingOptions.chunkDuration options))
    (read (ProcessingOptions.overlap options)) = Some (Ok chunks) ->
  Transcriber.collectResults config provider fuel chunks
    (detectedConfig host audioPath transcriptionConfig)
    (chunkStage verbose host audioPath duration chunks w)
    = Some (Ok results, w1) ->
  (forall r, Some r ∉ results) ->
  Transcriber.transcribeFile config ff host provider fuel inputPath
    transcriptionConfig processingOptions w
  = Some (Throw "All chunks failed to transcribe",
          w1 ++ [CleanupTempFiles; AuthCleanup])
  /\ writes (w1 ++ [CleanupTempFiles; AuthCleanup]) = writes w.
Proof.
  intros options verbose Hvalid Hextract Hduration Hlong Hsplit Hcollect Hnone.
  assert (Hempty : omap id results = []).
  { destruct (omap id results) as [|r rest] eqn:E; [reflexivity|].
    assert (Hin : r ∈ omap id results) by (rewrite E; left).
    apply list_elem_of_omap in Hin as ([r'|] & Hin & [= ->]).
    destruct (Hnone r Hin). }
  pose proof (transcribeChunks_unfold _ _ _ _ _ _ _ _ Hcollect) as Hchunks.
  rewrite Hempty in Hchunks. cbn [length Nat.eqb] in Hchunks.
  split.
  - unfold Transcriber.transcribeFile. fold options. fold verbose.
    unfold try_catch, bind at 1, lift at 1. rewrite Hvalid.
    unfold bind at 1, lift at 1. rewrite Hextract.
    unfold bind at 1, lift at 1. rewrite Hduration.
    fold (detectedConfig host audioPath transcriptionConfig).
    rewrite Hlong, Hsplit.
    unfold chunkStage in Hchunks.
    destruct verbose; unfold when, bind, emit, ret; cbn beta iota;
      rewrite Hchunks; unfold Transcriber.cleanup, bind, emit, throw;
      rewrite <- app_assoc; reflexivity.
  - replace (w1 ++ [CleanupTempFiles; AuthCleanup])
      with ((w1 ++ [CleanupTempFiles]) ++ [AuthCleanup])
      by (rewrite <- app_assoc; reflexivity).
    rewrite !writes_snoc by discriminate.
    rewrite (quiet_collectResults config provider (provider_quiet provider)
               _ _ _ _ _ _ Hcollect).
    unfold chunkStage. destruct verbose; [|reflexivity].
    rewrite !writes_snoc by discriminate. reflexivity.
Qed.


(** ** The batches end *)

Section DispatchReturns.
Context {P : Type} `{TranscriptionProvider P}.
Variable config : Config.t.
Variable provider : P.
Variable chunks : list AudioChunk.t.
Variable transcriptionConfig : TranscriptionConfig.t.

(** With a positive batch size the [for] loop is left after at most one
    round per chunk. *)
Lemma dispatchLoop_returns verbose maxConcurrent (m : nat) :
  forall fuel i results failedChunks w,
    (0 < maxConcurrent)%Z ->
    (Z.of_nat (length chunks) - i <= Z.of_nat m)%Z ->
    (m < fuel)%nat ->
    exists done w',
      Transcriber.dispatchLoop provider fuel chunks transcriptionConfig verbose
        maxConcurrent i results failedChunks w = Some (Ok done, w').
Proof.
  induction m as [|m IH]; intros fuel i results failedChunks w Hmc Hm Hfuel;
    (destruct fuel as [|fuel]; [lia|]); cbn [Transcriber.dispatchLoop];
    destruct (i <? Z.of_nat (length chunks))%Z eqn:Hi;
    try (apply Z.ltb_lt in Hi; lia);
    try (eexists _, _; reflexivity).
  match goal with
  | |- context [Transcriber.runBatch _ _ _ _ ?batch ?k ?f] =>
      destruct (runBatch_run provider transcriptionConfig verbose i batch k f w)
        as (entries & failed & w1 & Hbatch & _)
  end.
  rewrite (bind_Ok _ _ _ _ _ Hbatch). cbn [fst snd].
  destruct (when_run (i + maxConcurrent <? Z.of_nat (length chunks))%Z
              (emit (Delay 100)) w1) as [w2 Hwhen].
  { intros w0. eexists. reflexivity. }
  rewrite (bind_Ok _ _ _ _ _ Hwhen).
  apply IH; [exact Hmc | apply Z.ltb_lt in Hi; lia | lia].
Qed.

(** The table of results is complete as soon as the fuel covers the
    chunks and the retries. *)
Lemma collectResults_returns fuel w :
  let options := Config.getProcessingOptions config in
  (0 < orZ (read (ProcessingOptions.maxConcurrentChunks options)) 3)%Z ->
  (length chunks < fuel)%nat ->
  (Z.to_nat (orZ (read (ProcessingOptions.maxRetries options)) 3) < fuel)%nat ->
  exists results w',
    Transcriber.collectResults config provider fuel chunks transcriptionConfig w
    = Some (Ok results, w').
Proof.
  intros options Hmc Hlen Hretries. unfold Transcriber.collectResults.
  fold options.
  destruct (when_run (truthyBool (read (ProcessingOptions.verbose options)))
              (emit (Console (ProcessingChunks (length chunks)
                (orZ (read (ProcessingOptions.maxConcurrentChunks options)) 3))))
              w) as [w1 Hwhen].
  { intros w0. eexists. reflexivity. }
  rewrite (bind_Ok _ _ _ _ _ Hwhen).
  destruct (dispatchLoop_returns
              (truthyBool (read (ProcessingOptions.verbose options)))
              (orZ (read (ProcessingOptions.maxConcurrentChunks options)) 3)
              (length chunks) fuel 0 (replicate (length chunks) None) [] w1)
    as ([results failed] & w2 & Hdispatch); [exact Hmc | lia | exact Hlen |].
  rewrite (bind_Ok _ _ _ _ _ Hdispatch). cbn [fst snd].
  destruct (_ && _); [|eexists _, _; reflexivity].
  unfold bind at 1, emit at 1.
  apply retryEach_returns, Hretries.
Qed.
End DispatchReturns.

(** ** No result is dropped *)

Lemma js_set_in_range {A} (l : list (option A)) (idx : Z) (x : option A) :
  (0 <= idx < Z.of_nat (length l))%Z ->
  js_set l idx x = <[Z.to_nat idx := x]> l.
Proof.
  intros Hidx. unfold js_set.
  destruct (idx <? 0)%Z eqn:E; [apply Z.ltb_lt in E; lia|].
  destruct (idx <? Z.of_nat (length l))%Z eqn:E'; [reflexivity|].
  apply Z.ltb_ge in E'. lia.
Qed.



Section Kept.
Context {P : Type} `{TranscriptionProvider P}.
Variable config : Config.t.
Variable provider : P.
Variable chunks : list AudioChunk.t.
Variable transcriptionConfig : TranscriptionConfig.t.

(** The port only adds to the trace. *)
Hypothesis port_extends : forall chunk w r w',
  transcribeChunk provider chunk transcriptionConfig w = (r, w') ->
  w `prefix_of` w'.







End Kept.


(** ** Offsets in the merged transcript *)



(** * Instances and counterexamples *)

Lemma sample_audio_ok (duration : Q) :
  audio_ok (Sample.ffmpeg duration) "a.wav" (orQ (Some duration) 0).
Proof.
  split; [intros; reflexivity|].
  split; [intros; eexists; reflexivity | reflexivity].
Defined.


(** A file without duration: the parameters are not checked and no error is
    raised. *)
Lemma C5_counterexample :
  AudioProcessor.getAudioDuration (Sample.ffmpeg 0) "a.wav" = Ok 0
  /\ AudioProcessor.splitAudioIntoChunks Sample.config (Sample.ffmpeg 0) 1
       "a.wav" (Some 59) (Some 1) = Some (Ok [])
  /\ forall fuel message,
       AudioProcessor.splitAudioIntoChunks Sample.config (Sample.ffmpeg 0) fuel
         "a.wav" (Some 59) (Some 1) <> Some (Throw message).
Proof.
  split; [reflexivity|]. split; [reflexivity|].
  intros [|fuel] message; discriminate.
Qed.

Lemma C5_witness :
  (forall fuel, AudioProcessor.splitAudioIntoChunks Sample.config
                  (Sample.ffmpeg 0) (S fuel) "a.wav" (Some 59) (Some 1)
                = Some (Ok []))
  /\ (forall fuel, AudioProcessor.splitAudioIntoChunks Sample.config
                     (Sample.ffmpeg 10) fuel "a.wav" (Some 1) (Some 2) = None)
  /\ (exists c rest,
        split_returns Sample.config (Sample.ffmpeg 10) "a.wav" (Some 5)
          (Some (- (1))) (c :: rest)
        /\ AudioChunk.startTime c == - default 1 (Some (- (1)))).
Proof.
  split; [|split].
  - apply (C5_no_parameter_check Sample.config (Sample.ffmpeg 0) "a.wav"
             (Some 59) (Some 1) 0 (sample_audio_ok 0)).
    discriminate.
  - apply (C5_no_parameter_check Sample.config (Sample.ffmpeg 10) "a.wav"
             (Some 1) (Some 2) 10 (sample_audio_ok 10)).
    + reflexivity.
    + simpl. discriminate.
  - apply (C5_no_parameter_check Sample.config (Sample.ffmpeg 10) "a.wav"
             (Some 5) (Some (- (1))) 10 (sample_audio_ok 10)).
    + reflexivity.
    + reflexivity.
    + reflexivity.
Defined.

(** 58.5 seconds with the default 59 and 1: two segments. *)
Lemma C6_counterexample :
  (117 # 2) <= 59
  /\ AudioProcessor.splitAudioIntoChunks Sample.config (Sample.ffmpeg (117 # 2)) 5
       "a.wav" (Some 59) (Some 1)
     = Some (Ok [AudioChunk.mk [] 0 (117 # 2) 0; AudioChunk.mk [] 57 (117 # 2) 1]).
Proof. split; [discriminate | vm_compute; reflexivity]. Qed.

Lemma C6_witness :
  exists c rest,
    split_returns Sample.config (Sample.ffmpeg 30) "a.wav" None None (c :: rest)
    /\ AudioChunk.startTime c == 0
    /\ AudioChunk.endTime c == 30
    /\ (rest = [] <-> 30 <= default 59 None - default 1 None).
Proof.
  apply (C6_short_audio Sample.config (Sample.ffmpeg 30) "a.wav" None None 30).
  - exact (sample_audio_ok _).
  - reflexivity.
  - simpl. discriminate.
  - simpl. discriminate.
  - reflexivity.
Defined.




(** The service places the word at 2 s of a chunk that starts at 10 s: the
    result of [transcribeChunk] has it at 12 s. *)
Lemma C3_counterexample :
  exists parsed result w',
    map WordInfo.startTime
      (wordsOf (GoogleSpeechProvider.processResponse (Sample.oneWord (4 # 5))))
    = [parsed]
    /\ transcribeChunk Sample.answering (Sample.chunkAt 10 1)
         Sample.transcriptionConfig [] = (Ok result, w')
    /\ map WordInfo.startTime (wordsOf result) = [parsed + 10]
    /\ ~ parsed + 10 == parsed.
Proof.
  eexists _, _, _. split; [reflexivity|]. split; [reflexivity|].
  split; [reflexivity | discriminate].
Qed.

Lemma C3_witness :
  exists parsed,
    parsedAnswer Sample.vertex (Sample.chunkAt 10 1) Sample.transcriptionConfig []
      parsed
    /\ Some [WordInfo.mk "hello" 12 (25 # 2) (Some 0) (Some 0)]
       = map (fun word =>
                WordInfo.mk (WordInfo.word word)
                  (WordInfo.startTime word
                   + AudioChunk.startTime (Sample.chunkAt 10 1))
                  (WordInfo.endTime word
                   + AudioChunk.startTime (Sample.chunkAt 10 1))
                  (WordInfo.confidence word) (WordInfo.speakerTag word))
         <$> TranscriptionResult.words parsed
    /\ "hello" = TranscriptionResult.transcript parsed
    /\ Some 0 = TranscriptionResult.confidence parsed
    /\ Some "" = TranscriptionResult.languageCode parsed.
Proof.
  apply (C3_transcribeChunk_shifts_words Sample.vertex (Sample.chunkAt 10 1)
           Sample.transcriptionConfig []
           [Request [] Sample.transcriptionConfig]
           (TranscriptionResult.mk "hello"
              (Some [WordInfo.mk "hello" 12 (25 # 2) (Some 0) (Some 0)])
              (Some []) (Some "") (Some 0))).
  vm_compute. reflexivity.
Defined.

(** A word at 2 s of the chunk that starts at 10 s is in the merged result
    at 12 s. *)
Example merged_word_at_offset :
  exists merged w2,
    Transcriber.transcribeChunks Sample.config Sample.vertex 5
      [Sample.chunkAt 0 0; Sample.chunkAt 10 1] Sample.transcriptionConfig []
    = Some (Ok merged, w2)
    /\ WordInfo.mk "hello" 12 (25 # 2) (Some 0) (Some 0) ∈ wordsOf merged.
Proof.
  eexists _, _. split; [vm_compute; reflexivity|].
  apply list_elem_of_In. vm_compute. auto.
Qed.



Lemma C9_witness :
  exists w1,
    Transcriber.transcribeFile Sample.config (Sample.ffmpeg 120) Sample.host
      Sample.failing 10 "in.wav" Sample.transcriptionConfig
      (ProcessingOptions.mk Missing Missing Missing (Val "out.txt") Missing
         Missing Missing Missing Missing) []
    = Some (Throw "All chunks failed to transcribe",
            w1 ++ [CleanupTempFiles; AuthCleanup])
    /\ writes (w1 ++ [CleanupTempFiles; AuthCleanup]) = writes [].
Proof.
  eexists.
  eapply (C9_all_chunks_failed Sample.config (Sample.ffmpeg 120) Sample.host
            Sample.failing 10 "in.wav" Sample.transcriptionConfig
            (ProcessingOptions.mk Missing Missing Missing (Val "out.txt") Missing
               Missing Missing Missing Missing) []).
  - reflexivity.
  - reflexivity.
  - reflexivity.
  - reflexivity.
  - vm_compute. reflexivity.
  - vm_compute. reflexivity.
  - intros r Hin.
    repeat (apply elem_of_cons in Hin as [[=]|Hin]).
    apply elem_of_nil in Hin. exact Hin.
Defined.

(** A segment that reports the confidence [0] is left out of the mean. *)
Lemma C10_counterexample :
  exists c,
    TranscriptionResult.confidence
      (Transcriber.mergeResults
         [Sample.withConfidence (Some 0); Sample.withConfidence (Some (4 # 5))])
    = Some c
    /\ c == 4 # 5
    /\ spec_mergedConfidence
         [Sample.withConfidence (Some 0); Sample.withConfidence (Some (4 # 5))]
       == 2 # 5
    /\ ~ c == spec_mergedConfidence
              [Sample.withConfidence (Some 0); Sample.withConfidence (Some (4 # 5))].
Proof.
  eexists. split; [reflexivity|]. split; [reflexivity|].
  split; [reflexivity | discriminate].
Qed.

(** * Further properties of the sources *)

(** ** The segmenter: number, size and files of the chunks *)


Lemma splitLoop_files (config : Config.t) (ff : Ffmpeg.t) (audioPath : string)
    (duration chunkDuration overlap : Q) (fuel : nat) :
  forall currentTime chunkIndex acc chunks,
    AudioProcessor.splitLoop config ff fuel audioPath duration chunkDuration
      overlap currentTime chunkIndex acc = Some (Ok chunks) ->
    length acc = chunkIndex ->
    (forall k c, acc !! k = Some c -> cut_from config ff audioPath k c) ->
    forall k c, chunks !! k = Some c -> cut_from config ff audioPath k c.
Proof.
  induction fuel as [|fuel IH]; intros t idx acc chunks Hrun Hlen Hacc;
    [discriminate|].
  cbn [AudioProcessor.splitLoop] in Hrun.
  destruct (Qltb t duration); [|injection Hrun as <-; exact Hacc].
  unfold AudioProcessor.extractChunk in Hrun.
  destruct (Ffmpeg.run_extractChunk ff audioPath _ _ _) as [[]|message] eqn:Hx;
    [|discriminate].
  destruct (Ffmpeg.readFileSync ff _) as [buffer|message] eqn:Hr;
    [|discriminate].
  apply (IH _ _ _ _ Hrun); [rewrite length_app; simpl; lia |].
  intros k c Hk. apply lookup_app_Some in Hk as [Hk|[Hge Hk]].
  - apply Hacc, Hk.
  - apply list_lookup_singleton_Some in Hk as [Hk <-].
    assert (k = idx) as -> by lia.
    split; [reflexivity|]. eexists. split; [reflexivity|].
    split; [exact Hx | exact Hr].
Qed.

(** X2.  Whatever the audio collaborator does, when [splitAudioIntoChunks]
    returns a list of chunks then chunk [k] has the index [k], was extracted
    at its own [startTime] into [chunk_k.wav] of the temporary directory,
    and its buffer is the content read back from that file: a failed
    extraction or read never leaves a chunk in the list. *)
Theorem X2_chunks_are_read_from_their_files (config : Config.t) (ff : Ffmpeg.t)
    (fuel : nat) (audioPath : string) (chunkDuration overlap : option Q)
    (chunks : list AudioChunk.t) :
  AudioProcessor.splitAudioIntoChunks config ff fuel audioPath chunkDuration
    overlap = Some (Ok chunks) ->
  forall k c, chunks !! k = Some c -> cut_from config ff audioPath k c.
Proof.
  unfold AudioProcessor.splitAudioIntoChunks. intros Hrun.
  destruct (AudioProcessor.getAudioDuration ff audioPath) as [duration|];
    [|discriminate].
  apply (splitLoop_files _ _ _ _ _ _ _ _ _ _ _ Hrun eq_refl).
  intros k c Hk. rewrite lookup_nil in Hk. discriminate.
Qed.

(** ** The providers *)

(** X3.  Both providers check the configuration before anything else: when
    [validateConfig] throws, [transcribeChunk] and [transcribe] throw the
    same error, unwrapped, and send no request; when it returns,
    [transcribeChunk] sends exactly one request, with the buffer of the
    chunk, and [transcribe] sends exactly one request with the content of
    the file, or throws the error of reading it and sends none. *)
Theorem X3_configuration_checked_before_request (provider : Provider)
    (config : TranscriptionConfig.t) (w : World) :
  match validateConfig provider config with
  | Throw message =>
    (forall chunk, transcribeChunk provider chunk config w = (Throw message, w))
    /\ (forall audioPath,
          transcribe provider audioPath config w = (Throw message, w))
  | Ok _ =>
    (forall chunk, exists r,
        transcribeChunk provider chunk config w
        = (r, w ++ [Request (AudioChunk.buffer chunk) config]))
    /\ (forall audioPath,
          match Ffmpeg.readFileSync (providerFs provider) audioPath with
          | Throw message =>
            transcribe provider audioPath config w = (Throw message, w)
          | Ok content => exists r,
            transcribe provider audioPath config w
            = (r, w ++ [Request content config])
          end)
  end.
Proof.
  destruct provider as [p|p]; simpl;
    [unfold GoogleSpeechProvider.transcribeChunk, GoogleSpeechProvider.transcribe;
     destruct (GoogleSpeechProvider.validateConfig p config) as [[]|message]
    |unfold VertexAISpeechProvider.transcribeChunk,
       VertexAISpeechProvider.transcribe;
     destruct (VertexAISpeechProvider.validateConfig p config) as [[]|message]];
    (split; [intros chunk | intros audioPath]); try reflexivity;
    try (destruct (Ffmpeg.readFileSync _ audioPath) as [content|message'];
         [|reflexivity]);
    match goal with
    | |- context [GoogleSpeechProvider.recognize ?p ?w ?b ?c] =>
        destruct (GoogleSpeechProvider.recognize p w b c)
    | |- context [VertexAISpeechProvider.predict ?p ?w ?b ?c] =>
        destruct (VertexAISpeechProvider.predict p w b c)
    end;
    eexists; reflexivity.
Qed.

Lemma truthy_orString_or (a b : option string) :
  truthyString (orString (ProcessEnv.or a b) "")
  = ProcessEnv.truthy a || ProcessEnv.truthy b.
Proof.
  unfold ProcessEnv.or.
  destruct a as [[|? ?]|], b as [[|? ?]|]; reflexivity.
Qed.

Lemma truthy_orString (a : option string) :
  truthyString (orString a "") = ProcessEnv.truthy a.
Proof. destruct a as [[|? ?]|]; reflexivity. Qed.

(** X4.  A Vertex AI provider built from the environment accepts a
    configuration exactly when the language code is not empty, one of
    [VERTEX_AI_PROJECT_ID] and [GOOGLE_CLOUD_PROJECT_ID] is set to a
    non-empty value, and [VERTEX_AI_SPEECH_ENDPOINT_ID] is set to a
    non-empty value; the location is never checked. *)
Theorem X4_vertex_accepts_configuration (env : ProcessEnv.t) (fs : Ffmpeg.t)
    (predict : World -> Buffer -> TranscriptionConfig.t -> result Vertex.Response)
    (config : TranscriptionConfig.t) :
  VertexAISpeechProvider.validateConfig
    (VertexAISpeechProvider.new env fs predict) config = Ok tt
  <-> truthyString (TranscriptionConfig.languageCode config) = true
      /\ (ProcessEnv.truthy (ProcessEnv.VERTEX_AI_PROJECT_ID env) = true
          \/ ProcessEnv.truthy (ProcessEnv.GOOGLE_CLOUD_PROJECT_ID env) = true)
      /\ ProcessEnv.truthy (ProcessEnv.VERTEX_AI_SPEECH_ENDPOINT_ID env) = true.
Proof.
  unfold VertexAISpeechProvider.validateConfig, VertexAISpeechProvider.new.
  cbn [VertexAISpeechProvider.project VertexAISpeechProvider.endpointId].
  rewrite truthy_orString_or, truthy_orString.
  destruct (truthyString (TranscriptionConfig.languageCode config)),
    (ProcessEnv.truthy (ProcessEnv.VERTEX_AI_PROJECT_ID env)),
    (ProcessEnv.truthy (ProcessEnv.GOOGLE_CLOUD_PROJECT_ID env)),
    (ProcessEnv.truthy (ProcessEnv.VERTEX_AI_SPEECH_ENDPOINT_ID env));
    simpl; split; try discriminate; try tauto;
    intros (? & [?|?] & ?); discriminate.
Qed.

(** ** The merger: transcript, order of the words, language *)

Lemma string_app_nil_r (s : string) : s +:+ "" = s.
Proof.
  induction s as [|a s IH]; [reflexivity|].
  change (String a (s +:+ "") = String a s). f_equal. exact IH.
Qed.

Lemma string_app_assoc (s t u : string) : (s +:+ t) +:+ u = s +:+ (t +:+ u).
Proof.
  induction s as [|a s IH]; [reflexivity|].
  change (String a ((s +:+ t) +:+ u) = String a (s +:+ (t +:+ u))).
  f_equal. exact IH.
Qed.

Lemma truthyString_app_r (s t : string) :
  truthyString t = true -> truthyString (s +:+ t) = true.
Proof. destruct s; [trivial | reflexivity]. Qed.

(** The transcript of [mergeLoop], by its loop: every non-empty transcript
    is appended, after a space when something was appended before. *)
Lemma mergeLoop_transcript results :
  forall transcript words languageCode total count,
    fst (fst (fst (fst (Transcriber.mergeLoop results transcript words
                          languageCode total count))))
    = fold_left (fun acc s => acc +:+ (if truthyString acc then " " else "") +:+ s)
        (List.filter truthyString (map TranscriptionResult.transcript results))
        transcript.
Proof.
  induction results as [|result results IH]; intros; [reflexivity|].
  cbn [Transcriber.mergeLoop map List.filter]. rewrite IH.
  destruct (truthyString (TranscriptionResult.transcript result)); reflexivity.
Qed.

Lemma join_cons (sep s : string) (l : list string) :
  join sep (s :: l) = s +:+ fold_right (fun t acc => sep +:+ t +:+ acc) "" l.
Proof.
  revert s. induction l as [|t l IH]; intros s.
  - simpl. rewrite string_app_nil_r. reflexivity.
  - change (join sep (s :: t :: l)) with (s +:+ sep +:+ join sep (t :: l)).
    rewrite IH. reflexivity.
Qed.

Lemma fold_left_join (l : list string) : forall acc,
  Forall (fun s => truthyString s = true) l ->
  fold_left (fun acc s => acc +:+ (if truthyString acc then " " else "") +:+ s)
    l acc
  = if truthyString acc
    then acc +:+ fold_right (fun t acc => " " +:+ t +:+ acc) "" l
    else join " " l.
Proof.
  induction l as [|s l IH]; intros acc Hl.
  - simpl. destruct acc; simpl; [reflexivity|].
    rewrite string_app_nil_r. reflexivity.
  - apply Forall_cons in Hl as [Hs Hl]. cbn [fold_left]. rewrite (IH _ Hl).
    destruct (truthyString acc) eqn:E.
    + rewrite truthyString_app_r by (apply truthyString_app_r, Hs).
      cbn [fold_right]. rewrite !string_app_assoc. reflexivity.
    + destruct acc; [|discriminate].
      change ("" +:+ "" +:+ s) with s.
      rewrite Hs. rewrite join_cons. reflexivity.
Qed.

(** X6.  The merged transcript is the transcripts of the results that are
    not empty, in the order of the results, joined by single spaces; an
    empty transcript leaves no double space. *)
Theorem X6_merged_transcript_is_joined (results : list TranscriptionResult.t) :
  TranscriptionResult.transcript (Transcriber.mergeResults results)
  = join " " (List.filter truthyString
                (map TranscriptionResult.transcript results)).
Proof.
  unfold Transcriber.mergeResults.
  pose proof (mergeLoop_transcript results "" [] None 0 0%Z) as Ht.
  destruct (Transcriber.mergeLoop results "" [] None 0 0%Z)
    as [[[[transcript words] languageCode] total] count].
  simpl in Ht. simpl. rewrite Ht. rewrite fold_left_join; [reflexivity|].
  apply Forall_forall. intros s Hs.
  apply list_elem_of_In, filter_In in Hs as [_ Hs]. exact Hs.
Qed.

Lemma Qle_bool_sub (x y : Q) : Qle_bool (x - y) 0 = true <-> x <= y.
Proof. rewrite Qle_bool_iff. split; intros; lra. Qed.

Lemma js_sort_insert_sorted (a : WordInfo.t) (l : list WordInfo.t) :
  StronglySorted (fun a b => WordInfo.startTime a <= WordInfo.startTime b) l ->
  StronglySorted (fun a b => WordInfo.startTime a <= WordInfo.startTime b)
    (js_sort_insert (fun a b => WordInfo.startTime a - WordInfo.startTime b) a l).
Proof.
  induction 1 as [|b l Hl IH Hb]; simpl.
  - repeat constructor.
  - destruct (Qle_bool (WordInfo.startTime a - WordInfo.startTime b) 0) eqn:E.
    + apply Qle_bool_sub in E. constructor; [constructor; assumption|].
      constructor; [exact E|].
      eapply Forall_impl; [exact Hb|]. simpl. intros c Hc. lra.
    + assert (Hba : WordInfo.startTime b <= WordInfo.startTime a).
      { destruct (Qlt_le_dec (WordInfo.startTime b) (WordInfo.startTime a))
          as [Hlt|Hle]; [lra|].
        apply Qle_bool_sub in Hle. congruence. }
      constructor; [exact IH|].
      rewrite js_sort_insert_Permutation. constructor; assumption.
Qed.

(** X7.  The words of the merged result are in the order of their
    [startTime]: no word is followed by one that starts earlier. *)
Theorem X7_merged_words_sorted (results : list TranscriptionResult.t) :
  StronglySorted (fun a b => WordInfo.startTime a <= WordInfo.startTime b)
    (wordsOf (Transcriber.mergeResults results)).
Proof.
  unfold Transcriber.mergeResults.
  destruct (Transcriber.mergeLoop results "" [] None 0 0%Z)
    as [[[[transcript words] languageCode] total] count].
  unfold wordsOf. simpl. clear.
  induction words as [|a words IH]; simpl; [constructor|].
  apply js_sort_insert_sorted, IH.
Qed.

Lemma js_sort_insert_startingAt (time : Q) (a : WordInfo.t) (l : list WordInfo.t) :
  startingAt time
    (js_sort_insert (fun a b => WordInfo.startTime a - WordInfo.startTime b) a l)
  = startingAt time (a :: l).
Proof.
  induction l as [|b l IH]; [reflexivity|]. simpl.
  destruct (Qle_bool (WordInfo.startTime a - WordInfo.startTime b) 0) eqn:E;
    [reflexivity|].
  change (startingAt time (b :: ?l))
    with (if Qeq_bool (WordInfo.startTime b) time
          then b :: startingAt time l else startingAt time l).
  rewrite IH.
  change (startingAt time (a :: ?l))
    with (if Qeq_bool (WordInfo.startTime a) time
          then a :: startingAt time l else startingAt time l).
  destruct (Qeq_bool (WordInfo.startTime b) time) eqn:Eb;
    destruct (Qeq_bool (WordInfo.startTime a) time) eqn:Ea; try reflexivity.
  apply Qeq_bool_iff in Ea, Eb.
  assert (Hle : WordInfo.startTime a <= WordInfo.startTime b) by lra.
  apply Qle_bool_sub in Hle. congruence.
Qed.

(** X8.  Merging loses and adds no word: the merged words are the words of
    all the results, each as often as it occurs (words of two overlapping
    chunks are not de-duplicated); and the sort is stable: the words that
    start at the same time stay in the order of the results. *)
Theorem X8_merged_words_kept_in_stable_order
    (results : list TranscriptionResult.t) :
  wordsOf (Transcriber.mergeResults results) ≡ₚ concat (map wordsOf results)
  /\ forall time,
       startingAt time (wordsOf (Transcriber.mergeResults results))
       = startingAt time (concat (map wordsOf results)).
Proof.
  split; [apply mergeResults_words|]. intros time.
  unfold Transcriber.mergeResults.
  pose proof (mergeLoop_spec results "" [] None 0 0%Z) as (Hw & _).
  destruct (Transcriber.mergeLoop results "" [] None 0 0%Z)
    as [[[[transcript words] languageCode] total] count].
  simpl in Hw. subst words. unfold wordsOf at 1. simpl.
  generalize (concat (map wordsOf results)). clear.
  induction l as [|a l IH]; [reflexivity|]. simpl.
  rewrite js_sort_insert_startingAt.
  change (startingAt time (a :: ?l))
    with (if Qeq_bool (WordInfo.startTime a) time
          then a :: startingAt time l else startingAt time l).
  fold (js_sort (fun a b => WordInfo.startTime a - WordInfo.startTime b) l).
  rewrite IH. reflexivity.
Qed.

Lemma mergeLoop_languageCode results :
  forall transcript words languageCode total count,
    snd (fst (fst (Transcriber.mergeLoop results transcript words languageCode
                     total count)))
    = if ProcessEnv.truthy languageCode then languageCode
      else match firstLanguageCode results with
           | Some code => Some code
           | None => languageCode
           end.
Proof.
  induction results as [|result results IH]; intros.
  - simpl. destruct (ProcessEnv.truthy languageCode); reflexivity.
  - cbn [Transcriber.mergeLoop]. rewrite IH. unfold firstLanguageCode.
    cbn [omap list_omap]. fold (firstLanguageCode results).
    destruct (ProcessEnv.truthy languageCode) eqn:E; simpl.
    + rewrite E. reflexivity.
    + destruct (TranscriptionResult.languageCode result) as [code|]; simpl.
      * destruct (truthyString code) eqn:Ec; simpl.
        -- rewrite Ec. reflexivity.
        -- rewrite E. reflexivity.
      * rewrite E. reflexivity.
Qed.

(** X9.  The language code of the merged result is the first language code
    among the results that is present and not empty, and it is absent when
    there is none: an empty code of an earlier result does not hide the
    code of a later one. *)
Theorem X9_merged_language_code (results : list TranscriptionResult.t) :
  TranscriptionResult.languageCode (Transcriber.mergeResults results)
  = firstLanguageCode results.
Proof.
  unfold Transcriber.mergeResults.
  pose proof (mergeLoop_languageCode results "" [] None 0 0%Z) as Hl.
  destruct (Transcriber.mergeLoop results "" [] None 0 0%Z)
    as [[[[transcript words] languageCode] total] count].
  simpl in Hl. simpl. rewrite Hl.
  destruct (firstLanguageCode results); reflexivity.
Qed.

(** ** The batches: failed indices, requests and pauses *)

Lemma absentFrom_app start outcomes more :
  absentFrom start (outcomes ++ more)
  = absentFrom start outcomes
    ++ absentFrom (start + Z.of_nat (length outcomes)) more.
Proof.
  revert start. induction outcomes as [|[r|] outcomes IH]; intros start.
  - simpl. rewrite Z.add_0_r. reflexivity.
  - cbn [app absentFrom length]. rewrite IH. do 2 f_equal. lia.
  - cbn [app absentFrom length]. rewrite IH. simpl. do 3 f_equal. lia.
Qed.

(** Writing the entries of a batch at consecutive indices of the table. *)
Lemma store_entriesFrom outcomes : forall prefix rest,
  (length outcomes <= length rest)%nat ->
  fold_left (fun results entry => js_set results (fst entry) (snd entry))
    (entriesFrom (Z.of_nat (length prefix)) outcomes) (prefix ++ rest)
  = prefix ++ outcomes ++ drop (length outcomes) rest.
Proof.
  induction outcomes as [|outcome outcomes IH]; intros prefix rest Hlen.
  - reflexivity.
  - destruct rest as [|r rest]; [simpl in Hlen; lia|].
    cbn [entriesFrom fold_left fst snd].
    rewrite js_set_in_range by (rewrite length_app; simpl; lia).
    rewrite Nat2Z.id.
    replace (<[length prefix := outcome]> (prefix ++ r :: rest))
      with ((prefix ++ [outcome]) ++ rest).
    + replace (Z.of_nat (length prefix) + 1)%Z
        with (Z.of_nat (length (prefix ++ [outcome])))
        by (rewrite length_app; simpl; lia).
      rewrite IH by (simpl in Hlen; lia).
      rewrite <- app_assoc. reflexivity.
    + rewrite <- app_assoc. simpl.
      rewrite insert_app_r_alt by lia.
      rewrite Nat.sub_diag. reflexivity.
Qed.

Lemma js_slice_batch {A} (l : list A) (i step : Z) :
  (0 <= i < Z.of_nat (length l))%Z ->
  (0 < step)%Z ->
  js_slice l i (Z.min (i + step) (Z.of_nat (length l)))
  = take (Z.to_nat (Z.min step (Z.of_nat (length l) - i))) (drop (Z.to_nat i) l).
Proof.
  intros Hi Hs. unfold js_slice.
  destruct (i <? 0)%Z eqn:E; [apply Z.ltb_lt in E; lia|].
  destruct (Z.min (i + step) (Z.of_nat (length l)) <? 0)%Z eqn:E';
    [apply Z.ltb_lt in E'; lia|].
  f_equal; [|f_equal]; lia.
Qed.

Section Outcomes.
Context {P : Type} `{TranscriptionProvider P}.
Variable provider : P.
Variable chunks : list AudioChunk.t.
Variable transcriptionConfig : TranscriptionConfig.t.
Variable verbose : bool.
Variable maxConcurrent : Z.

Lemma runBatch_outcomes i batch : forall batchIdx failedChunks w,
  exists outcomes w',
    Transcriber.runBatch provider transcriptionConfig verbose i batch batchIdx
      failedChunks w
    = Some (Ok (entriesFrom (i + batchIdx) outcomes,
                failedChunks ++ absentFrom (i + batchIdx) outcomes), w')
    /\ length outcomes = length batch.
Proof.
  induction batch as [|chunk rest IH]; intros batchIdx failedChunks w.
  - exists [], w. simpl. rewrite app_nil_r. split; reflexivity.
  - cbn [Transcriber.runBatch].
    destruct (batchPromise_run provider transcriptionConfig verbose
                (i + batchIdx)%Z chunk w) as (x & w1 & Hp & _).
    rewrite (bind_Ok _ _ _ _ _ Hp). cbn [snd].
    match goal with
    | |- context [Transcriber.runBatch _ _ _ _ rest ?k ?f] =>
        destruct (IH k f w1) as (outcomes & w2 & Hrest & Hlen)
    end.
    rewrite (bind_Ok _ _ _ _ _ Hrest). cbn [fst snd].
    exists (x :: outcomes), w2. split; [|simpl; lia].
    replace (i + (batchIdx + 1))%Z with (i + batchIdx + 1)%Z by lia.
    destruct x as [r|]; cbn [entriesFrom absentFrom];
      rewrite <- ?app_assoc; reflexivity.
Qed.

(** The state of the [for] loop at [i]: the entries below [i] are
    decided, the others are still absent, and [failedChunks] lists the
    decided entries that are absent. *)
Lemma dispatchLoop_outcomes fuel : forall i prefix failedChunks w done w',
  (0 < maxConcurrent)%Z ->
  (length prefix <= length chunks)%nat ->
  Z.of_nat (length prefix) = Z.min i (Z.of_nat (length chunks)) ->
  failedChunks = absentFrom 0 prefix ->
  Transcriber.dispatchLoop provider fuel chunks transcriptionConfig verbose
    maxConcurrent i
    (prefix ++ replicate (length chunks - length prefix) None)
    failedChunks w = Some (Ok done, w') ->
  length (fst done) = length chunks /\ snd done = absentFrom 0 (fst done).
Proof.
  induction fuel as [|fuel IH];
    intros i prefix failedChunks w done w' Hm Hle Hprefix Hfailed Hrun;
    [discriminate|].
  cbn [Transcriber.dispatchLoop] in Hrun.
  destruct (i <? Z.of_nat (length chunks))%Z eqn:Hcond.
  - apply Z.ltb_lt in Hcond.
    assert (Hi : Z.of_nat (length prefix) = i) by lia.
    rewrite js_slice_batch in Hrun by lia.
    match type of Hrun with
    | context [Transcriber.runBatch _ _ _ _ ?batch ?k ?f] =>
        destruct (runBatch_outcomes i batch k f w)
          as (outcomes & w1 & Hbatch & Hlen)
    end.
    rewrite (bind_Ok _ _ _ _ _ Hbatch) in Hrun. cbn [fst snd] in Hrun.
    apply bind_Ok_inv in Hrun as (u & w2 & _ & Hrun).
    rewrite length_take, length_drop in Hlen.
    rewrite Z.add_0_r, <- Hi in Hrun.
    rewrite store_entriesFrom in Hrun by (rewrite length_replicate; lia).
    rewrite drop_replicate, app_assoc in Hrun.
    replace (length chunks - length prefix - length outcomes)%nat
      with (length chunks - length (prefix ++ outcomes))%nat in Hrun
      by (rewrite length_app; lia).
    apply IH in Hrun; [exact Hrun | exact Hm | | |].
    + rewrite length_app. lia.
    + rewrite length_app. lia.
    + rewrite absentFrom_app, Hfailed. reflexivity.
  - apply Z.ltb_ge in Hcond. injection Hrun as <- <-. cbn [fst snd].
    replace (length chunks - length prefix)%nat with 0%nat by lia.
    simpl. rewrite app_nil_r. split; [lia | exact Hfailed].
Qed.
End Outcomes.

(** X10.  When the batches are done, the table has one entry per chunk and
    [failedChunks] holds exactly the indices of the entries that are
    absent, each once: these are the chunks that the retry pass is given.
    They are in increasing order, the rejections of one batch being taken
    in the order of its chunks. *)
Theorem X10_failed_chunks_are_the_absent_entries {P : Type}
    `{TranscriptionProvider P} (provider : P) (fuel : nat)
    (chunks : list AudioChunk.t) (transcriptionConfig : TranscriptionConfig.t)
    (verbose : bool) (maxConcurrent : Z) (w w' : World)
    (done : list (option TranscriptionResult.t) * list Z) :
  (0 < maxConcurrent)%Z ->
  Transcriber.dispatchLoop provider fuel chunks transcriptionConfig verbose
    maxConcurrent 0 (replicate (length chunks) None) [] w = Some (Ok done, w') ->
  length (fst done) = length chunks /\ snd done = absentFrom 0 (fst done).
Proof.
  intros Hm Hrun.
  apply (dispatchLoop_outcomes provider chunks transcriptionConfig verbose
           maxConcurrent fuel 0 [] [] w done w' Hm); simpl;
    [lia | lia | reflexivity |].
  rewrite Nat.sub_0_r. exact Hrun.
Qed.

Lemma requests_app w1 w2 : requests (w1 ++ w2) = requests w1 ++ requests w2.
Proof. apply omap_app. Qed.

Lemma pauses_app w1 w2 : pauses (w1 ++ w2) = pauses w1 ++ pauses w2.
Proof. apply omap_app. Qed.

Section Sends.
Context {P : Type} `{TranscriptionProvider P}.
Variable provider : P.
Variable chunks : list AudioChunk.t.
Variable transcriptionConfig : TranscriptionConfig.t.
Variable verbose : bool.
Variable maxConcurrent : Z.

(** What a call of the port sends for a chunk; the port takes no pause. *)
Variable sent : AudioChunk.t -> list (Buffer * TranscriptionConfig.t).
Hypothesis port_sends : forall chunk w r w',
  transcribeChunk provider chunk transcriptionConfig w = (r, w') ->
  requests w' = requests w ++ sent chunk /\ pauses w' = pauses w.

Lemma batchPromise_sends chunkIndex chunk w :
  exists x w',
    Transcriber.batchPromise provider transcriptionConfig verbose chunkIndex
      chunk w = Some (Ok (chunkIndex, x), w')
    /\ requests w' = requests w ++ sent chunk
    /\ pauses w' = pauses w.
Proof.
  unfold Transcriber.batchPromise, try_catch, bind, await.
  destruct (transcribeChunk provider chunk transcriptionConfig w)
    as [[r|message] w1] eqn:E; apply port_sends in E as [Hr Hp].
  - destruct verbose; simpl; eexists _, _; (split; [reflexivity|]);
      rewrite ?requests_app, ?pauses_app; simpl;
      rewrite ?app_nil_r; split; assumption.
  - simpl. eexists _, _. split; [reflexivity|].
    rewrite !requests_app, !pauses_app. simpl.
    rewrite ?app_nil_r. split; assumption.
Qed.

Lemma runBatch_sends i batch : forall batchIdx failedChunks w,
  exists done w',
    Transcriber.runBatch provider transcriptionConfig verbose i batch batchIdx
      failedChunks w = Some (Ok done, w')
    /\ requests w' = requests w ++ concat (map sent batch)
    /\ pauses w' = pauses w.
Proof.
  induction batch as [|chunk rest IH]; intros batchIdx failedChunks w.
  - eexists _, w. simpl. rewrite app_nil_r. repeat split.
  - cbn [Transcriber.runBatch].
    destruct (batchPromise_sends (i + batchIdx)%Z chunk w)
      as (x & w1 & Hp & Hr1 & Hp1).
    rewrite (bind_Ok _ _ _ _ _ Hp). cbn [snd].
    match goal with
    | |- context [Transcriber.runBatch _ _ _ _ rest ?k ?f] =>
        destruct (IH k f w1) as (done & w2 & Hrest & Hr2 & Hp2)
    end.
    rewrite (bind_Ok _ _ _ _ _ Hrest).
    eexists _, w2. split; [reflexivity|].
    rewrite Hr2, Hr1, Hp2, Hp1, <- app_assoc. split; reflexivity.
Qed.

(** From [i] on, the loop sends the chunks that are left, in their order,
    and pauses after every batch but the last. *)
Lemma dispatchLoop_sends fuel : forall i results failedChunks w done w',
  (0 <= i)%Z ->
  (0 < maxConcurrent)%Z ->
  Transcriber.dispatchLoop provider fuel chunks transcriptionConfig verbose
    maxConcurrent i results failedChunks w = Some (Ok done, w') ->
  requests w'
  = requests w ++ concat (map sent (drop (Z.to_nat i) chunks))
  /\ pauses w'
     = pauses w
       ++ replicate
            (Z.to_nat ((Z.of_nat (length chunks) - i - 1) / maxConcurrent))
            100%Z.
Proof.
  induction fuel as [|fuel IH];
    intros i results failedChunks w done w' Hi Hm Hrun; [discriminate|].
  cbn [Transcriber.dispatchLoop] in Hrun.
  destruct (i <? Z.of_nat (length chunks))%Z eqn:Hcond.
  - apply Z.ltb_lt in Hcond.
    rewrite js_slice_batch in Hrun by lia.
    match type of Hrun with
    | context [Transcriber.runBatch _ _ _ _ ?batch ?k ?f] =>
        destruct (runBatch_sends i batch k f w)
          as (entries & w1 & Hbatch & Hr1 & Hp1)
    end.
    rewrite (bind_Ok _ _ _ _ _ Hbatch) in Hrun.
    apply bind_Ok_inv in Hrun as (u & w2 & Hwhen & Hrun).
    apply IH in Hrun as [Hr2 Hp2]; [| lia | exact Hm].
    unfold when in Hwhen.
    destruct (i + maxConcurrent <? Z.of_nat (length chunks))%Z eqn:Hmore;
      [apply Z.ltb_lt in Hmore | apply Z.ltb_ge in Hmore];
      injection Hwhen as _ <-.
    + rewrite requests_app, pauses_app in *. simpl in Hr2, Hp2.
      rewrite app_nil_r in Hr2. rewrite Hr2, Hr1, Hp2, Hp1.
      rewrite <- !app_assoc, <- concat_app, <- map_app. split.
      * do 4 f_equal. rewrite Z.min_l by lia.
        rewrite Z2Nat.inj_add by lia.
        rewrite <- drop_drop. apply take_drop.
      * f_equal.
        replace (Z.of_nat (length chunks) - i - 1)%Z
          with (Z.of_nat (length chunks) - (i + maxConcurrent) - 1
                + 1 * maxConcurrent)%Z by lia.
        rewrite Z.div_add by lia.
        rewrite Z2Nat.inj_add by (try apply Z.div_pos; lia).
        rewrite Nat.add_comm. reflexivity.
    + rewrite Hr2, Hr1, Hp2, Hp1.
      rewrite <- !app_assoc, <- concat_app, <- map_app. split.
      * do 4 f_equal. rewrite Z.min_r by lia.
        rewrite take_ge by (rewrite length_drop; lia).
        rewrite (drop_ge chunks (Z.to_nat (i + maxConcurrent))) by lia.
        apply app_nil_r.
      * f_equal.
        rewrite (Z.div_small (Z.of_nat (length chunks) - i - 1)) by lia.
        assert ((Z.of_nat (length chunks) - (i + maxConcurrent) - 1)
                / maxConcurrent < 0)%Z
          by (apply Z.div_lt_upper_bound; lia).
        replace (Z.to_nat _) with 0%nat by lia. reflexivity.
  - apply Z.ltb_ge in Hcond. injection Hrun as _ <-.
    rewrite drop_ge by lia.
    assert ((Z.of_nat (length chunks) - i - 1) / maxConcurrent < 0)%Z
      by (apply Z.div_lt_upper_bound; lia).
    replace (Z.to_nat _) with 0%nat by lia.
    simpl. rewrite !app_nil_r. split; reflexivity.
Qed.
End Sends.

(** What a provider sends for a chunk: the request that carries it when the
    configuration is accepted, nothing otherwise. *)
Lemma provider_sends (provider : Provider)
    (transcriptionConfig : TranscriptionConfig.t) chunk w r w' :
  transcribeChunk provider chunk transcriptionConfig w = (r, w') ->
  requests w'
  = requests w
    ++ match validateConfig provider transcriptionConfig with
       | Ok _ => [requestFor transcriptionConfig chunk]
       | Throw _ => []
       end
  /\ pauses w' = pauses w.
Proof.
  destruct provider as [p|p]; simpl;
    [unfold GoogleSpeechProvider.transcribeChunk;
     destruct (GoogleSpeechProvider.validateConfig p transcriptionConfig)
    |unfold VertexAISpeechProvider.transcribeChunk;
     destruct (VertexAISpeechProvider.validateConfig p transcriptionConfig)];
    repeat match goal with
    | |- context [match ?x with _ => _ end] => destruct x
    end;
    intros [= _ <-]; rewrite ?requests_app, ?pauses_app; simpl;
    rewrite ?app_nil_r; split; reflexivity.
Qed.

(** X11.  The batches send every chunk to the remote service exactly once,
    in the order of the chunks, whatever the batch size and whatever the
    answers, when the provider accepts the configuration: a failed chunk is
    not sent again before the retry pass and no chunk is skipped.  When the
    provider rejects the configuration they send nothing. *)
Theorem X11_batches_send_every_chunk_once (provider : Provider) (fuel : nat)
    (chunks : list AudioChunk.t) (transcriptionConfig : TranscriptionConfig.t)
    (verbose : bool) (maxConcurrent : Z) (w w' : World)
    (done : list (option TranscriptionResult.t) * list Z) :
  (0 < maxConcurrent)%Z ->
  Transcriber.dispatchLoop provider fuel chunks transcriptionConfig verbose
    maxConcurrent 0 (replicate (length chunks) None) [] w = Some (Ok done, w') ->
  requests w'
  = requests w
    ++ match validateConfig provider transcriptionConfig with
       | Ok _ => map (requestFor transcriptionConfig) chunks
       | Throw _ => []
       end.
Proof.
  intros Hm Hrun.
  rewrite (proj1 (dispatchLoop_sends provider chunks transcriptionConfig verbose
                    maxConcurrent _
                    (provider_sends provider transcriptionConfig)
                    fuel 0 _ _ w done w' (Z.le_refl 0) Hm Hrun)).
  f_equal. change (Z.to_nat 0) with 0%nat. rewrite drop_0. clear.
  destruct (validateConfig provider transcriptionConfig);
    induction chunks as [|c l IH]; cbn [map concat app];
    rewrite ?IH; reflexivity.
Qed.

(** X12.  The batches pause for 100 ms after every batch but the last:
    [n] chunks in batches of [maxConcurrent] take
    [ceil (n / maxConcurrent) - 1] pauses, that is
    [(n - 1) / maxConcurrent] rounded down, and none when there is no
    chunk. *)
Theorem X12_batches_pause_between_batches (provider : Provider) (fuel : nat)
    (chunks : list AudioChunk.t) (transcriptionConfig : TranscriptionConfig.t)
    (verbose : bool) (maxConcurrent : Z) (w w' : World)
    (done : list (option TranscriptionResult.t) * list Z) :
  (0 < maxConcurrent)%Z ->
  Transcriber.dispatchLoop provider fuel chunks transcriptionConfig verbose
    maxConcurrent 0 (replicate (length chunks) None) [] w = Some (Ok done, w') ->
  pauses w'
  = pauses w
    ++ replicate (Z.to_nat ((Z.of_nat (length chunks) - 1) / maxConcurrent))
         100%Z.
Proof.
  intros Hm Hrun.
  pose proof (proj2 (dispatchLoop_sends provider chunks transcriptionConfig
                       verbose maxConcurrent _
                       (provider_sends provider transcriptionConfig)
                       fuel 0 _ _ w done w' (Z.le_refl 0) Hm Hrun)) as Hp.
  rewrite Z.sub_0_r in Hp. exact Hp.
Qed.

Lemma dispatchLoop_diverges {P : Type} `{TranscriptionProvider P} (provider : P)
    (chunks : list AudioChunk.t) (transcriptionConfig : TranscriptionConfig.t)
    (verbose : bool) (maxConcurrent : Z) (fuel : nat) :
  forall i results failedChunks w,
    (maxConcurrent < 0)%Z ->
    (i < Z.of_nat (length chunks))%Z ->
    Transcriber.dispatchLoop provider fuel chunks transcriptionConfig verbose
      maxConcurrent i results failedChunks w = None.
Proof.
  induction fuel as [|fuel IH]; intros i results failedChunks w Hm Hi;
    [reflexivity|].
  cbn [Transcriber.dispatchLoop].
  destruct (i <? Z.of_nat (length chunks))%Z eqn:Hcond;
    [|apply Z.ltb_ge in Hcond; lia].
  match goal with
  | |- context [Transcriber.runBatch _ _ _ _ ?batch ?k ?f] =>
      destruct (runBatch_run provider transcriptionConfig verbose i batch k f w)
        as (entries & failed & w1 & Hbatch & _)
  end.
  rewrite (bind_Ok _ _ _ _ _ Hbatch). cbn [fst snd].
  destruct (when_run (i + maxConcurrent <? Z.of_nat (length chunks))%Z
              (emit (Delay 100)) w1) as [w2 Hwhen].
  { intros w0. eexists. reflexivity. }
  rewrite (bind_Ok _ _ _ _ _ Hwhen).
  apply IH; [exact Hm | lia].
Qed.

(** X5.  The batches end exactly when the batch size is positive: with
    a positive size the loop is left whenever the fuel exceeds the number
    of chunks, and with a negative size (the size is taken as it is
    configured unless it is absent or 0) the index never reaches the number
    of chunks, so for one chunk or more the loop is never left, whatever
    the fuel. *)
Theorem X5_batches_end_iff_the_batch_size_is_positive {P : Type}
    `{TranscriptionProvider P} (provider : P) (chunks : list AudioChunk.t)
    (transcriptionConfig : TranscriptionConfig.t) (verbose : bool)
    (maxConcurrent : Z) (w : World) :
  ((0 < maxConcurrent)%Z ->
   forall fuel, (length chunks < fuel)%nat ->
     exists done w',
       Transcriber.dispatchLoop provider fuel chunks transcriptionConfig verbose
         maxConcurrent 0 (replicate (length chunks) None) [] w
       = Some (Ok done, w'))
  /\ ((maxConcurrent < 0)%Z -> chunks <> [] ->
      forall fuel,
        Transcriber.dispatchLoop provider fuel chunks transcriptionConfig verbose
          maxConcurrent 0 (replicate (length chunks) None) [] w = None).
Proof.
  split.
  - intros Hm fuel Hfuel.
    apply (dispatchLoop_returns provider chunks transcriptionConfig verbose
             maxConcurrent (length chunks)); [exact Hm | lia | exact Hfuel].
  - intros Hm Hchunks fuel. apply dispatchLoop_diverges; [exact Hm|].
    destruct chunks; [contradiction | simpl; lia].
Qed.

(** ** The pipeline: cleanup, configuration, short audio, output file *)

(** X13.  Whatever happens in [transcribeFile], when it returns or throws
    the last two things it has done are to remove the temporary files and
    to clean up the credentials, in this order (removing the temporary
    directory is taken not to throw). *)
Theorem X13_cleanup_runs_last {P : Type} `{TranscriptionProvider P}
    (config : Config.t) (ff : Ffmpeg.t) (host : Host.t) (provider : P)
    (fuel : nat) (inputPath : string)
    (transcriptionConfig : TranscriptionConfig.t)
    (processingOptions : ProcessingOptions.t) (w w' : World)
    (outcome : result TranscriptionResult.t) :
  Transcriber.transcribeFile config ff host provider fuel inputPath
    transcriptionConfig processingOptions w = Some (outcome, w') ->
  exists w1, w' = w1 ++ [CleanupTempFiles; AuthCleanup].
Proof.
  unfold Transcriber.transcribeFile, try_catch. intros Hrun.
  match type of Hrun with
  | match ?body with _ => _ end = _ =>
      destruct body as [[[result|message] w1]|] eqn:Hbody
  end; [| |discriminate].
  - injection Hrun as <- <-.
    do 5 (apply bind_Ok_inv in Hbody as (? & ? & _ & Hbody)).
    apply bind_Ok_inv in Hbody as (? & w2 & _ & Hbody).
    unfold Transcriber.cleanup, bind, emit, ret in Hbody.
    injection Hbody as _ <-. exists w2. rewrite <- app_assoc. reflexivity.
  - unfold Transcriber.cleanup, bind, emit, throw in Hrun.
    injection Hrun as _ <-. exists w1. rewrite <- app_assoc. reflexivity.
Qed.

(** X14.  [transcribeFile] overwrites the [encoding] and the
    [sampleRateHertz] of the configuration it is given with the encoding it
    detects from the extension of the audio file and with 16000: two runs
    that differ only in these two settings are the same run. *)
Theorem X14_caller_encoding_is_overwritten {P : Type} `{TranscriptionProvider P}
    (config : Config.t) (ff : Ffmpeg.t) (host : Host.t) (provider : P)
    (fuel : nat) (inputPath : string)
    (transcriptionConfig transcriptionConfig' : TranscriptionConfig.t)
    (processingOptions : ProcessingOptions.t) (w : World) :
  TranscriptionConfig.provider transcriptionConfig
    = TranscriptionConfig.provider transcriptionConfig' ->
  TranscriptionConfig.languageCode transcriptionConfig
    = TranscriptionConfig.languageCode transcriptionConfig' ->
  TranscriptionConfig.hints transcriptionConfig
    = TranscriptionConfig.hints transcriptionConfig' ->
  Transcriber.transcribeFile config ff host provider fuel inputPath
    transcriptionConfig processingOptions w
  = Transcriber.transcribeFile config ff host provider fuel inputPath
      transcriptionConfig' processingOptions w.
Proof.
  destruct transcriptionConfig, transcriptionConfig'. simpl.
  intros -> -> ->. reflexivity.
Qed.

(** X15.  An audio that is not longer than the chunk duration of the merged
    options (59 s when that is absent or 0) is not split: whatever the
    fuel, [transcribeFile] ends, and with the outcome of one call of
    [transcribe] on the whole audio file, under the configuration with the
    detected encoding (writing the output file is taken to succeed). *)
Theorem X15_short_audio_is_sent_whole {P : Type} `{TranscriptionProvider P}
    (config : Config.t) (ff : Ffmpeg.t) (host : Host.t) (provider : P)
    (fuel : nat) (inputPath : string)
    (transcriptionConfig : TranscriptionConfig.t)
    (processingOptions : ProcessingOptions.t) (w : World)
    (audioPath : string) (duration : Q) :
  let options :=
    ProcessingOptions.spread (Config.getProcessingOptions config)
                             processingOptions in
  let verbose := truthyBool (read (ProcessingOptions.verbose options)) in
  AudioProcessor.validateAudioFile ff inputPath = Ok tt ->
  Ffmpeg.run_extractAudio ff inputPath = Ok audioPath ->
  AudioProcessor.getAudioDuration ff audioPath = Ok duration ->
  duration <= orQ (read (ProcessingOptions.chunkDuration options)) 59 ->
  exists outcome w1 w2,
    transcribe provider audioPath
      (detectedConfig host audioPath transcriptionConfig)
      (if verbose
       then w ++ [Console (AudioFileInfo audioPath
                             (AudioProcessor.detectEncoding host audioPath)
                             duration)]
       else w)
    = (outcome, w1)
    /\ Transcriber.transcribeFile config ff host provider fuel inputPath
         transcriptionConfig processingOptions w = Some (outcome, w2).
Proof.
  intros options verbose Hvalid Hextract Hduration Hshort.
  apply Qltb_ge in Hshort.
  unfold Transcriber.transcribeFile. fold options. fold verbose.
  unfold try_catch, bind at 1, lift at 1. rewrite Hvalid.
  unfold bind at 1, lift at 1. rewrite Hextract.
  unfold bind at 1, lift at 1. rewrite Hduration.
  fold (detectedConfig host audioPath transcriptionConfig).
  rewrite Hshort.
  set (w0 := if verbose then _ else w).
  assert (Hwhen : when verbose
            (emit (Console (AudioFileInfo audioPath
                     (AudioProcessor.detectEncoding host audioPath) duration))) w
          = Some (Ok tt, w0)).
  { subst w0. destruct verbose; reflexivity. }
  rewrite (bind_Ok _ _ _ _ _ Hwhen).
  unfold bind at 1, await.
  destruct (transcribe provider audioPath
              (detectedConfig host audioPath transcriptionConfig) w0)
    as [[result|message] w1] eqn:Hcall.
  - exists (Ok result), w1.
    destruct (read (ProcessingOptions.outputPath options)) as [outputPath|];
      [destruct (truthyString outputPath)|];
      unfold Transcriber.saveOutput, Transcriber.cleanup;
      destruct verbose; eexists; split; reflexivity.
  - exists (Throw message), w1. eexists. split; reflexivity.
Qed.

Lemma quiet_transcribeChunks {P : Type} `{TranscriptionProvider P}
    (config : Config.t) (provider : P) fuel chunks transcriptionConfig :
  (forall chunk transcriptionConfig,
     quiet (await (transcribeChunk provider chunk transcriptionConfig))) ->
  quiet (Transcriber.transcribeChunks config provider fuel chunks
           transcriptionConfig).
Proof.
  intros Hport. unfold Transcriber.transcribeChunks.
  apply quiet_bind; [apply quiet_collectResults, Hport|]. intros results.
  destruct (_ =? _)%nat; repeat quiet_step.
Qed.

Lemma provider_transcribe_quiet (provider : Provider) audioPath
    transcriptionConfig :
  quiet (await (transcribe provider audioPath transcriptionConfig)).
Proof.
  intros w r w'. unfold await.
  destruct provider as [p|p]; simpl;
    [unfold GoogleSpeechProvider.transcribe
    |unfold VertexAISpeechProvider.transcribe];
    repeat match goal with
    | |- context [match ?x with _ => _ end] => destruct x
    end;
    intros [= _ <-]; try reflexivity; apply writes_snoc; discriminate.
Qed.

Lemma writes_app w1 w2 : writes (w1 ++ w2) = writes w1 ++ writes w2.
Proof. apply omap_app. Qed.

(** X16.  A run of [transcribeFile] writes at most one file: when the
    transcription succeeds and the merged options have a non-empty
    [outputPath], the file at that path, with the content of the chosen
    format (the explicit format, else the one of the extension, plain text
    for an extension that is not known); when it throws, or without an
    [outputPath], no file. *)
Theorem X16_output_file_only_on_success (config : Config.t) (ff : Ffmpeg.t)
    (host : Host.t) (provider : Provider) (fuel : nat) (inputPath : string)
    (transcriptionConfig : TranscriptionConfig.t)
    (processingOptions : ProcessingOptions.t) (w w' : World)
    (outcome : result TranscriptionResult.t) :
  Transcriber.transcribeFile config ff host provider fuel inputPath
    transcriptionConfig processingOptions w = Some (outcome, w') ->
  writes w'
  = writes w
    ++ outputFile host
         (ProcessingOptions.spread (Config.getProcessingOptions config)
                                   processingOptions)
         outcome.
Proof.
  unfold Transcriber.transcribeFile.
  remember (ProcessingOptions.spread _ _) as options eqn:Hoptions.
  remember (truthyBool _) as verbose eqn:Hverbose. clear Hoptions Hverbose.
  intros Hrun. unfold try_catch in Hrun.
  match type of Hrun with
  | match ?body with _ => _ end = _ =>
      destruct body as [[[result|message] w1]|] eqn:Hbody
  end; [| |discriminate].
  - injection Hrun as <- <-.
    apply bind_Ok_inv in Hbody as (? & wa & Ha & Hbody).
    apply quiet_lift in Ha.
    apply bind_Ok_inv in Hbody as (audioPath & wb & Hb & Hbody).
    apply quiet_lift in Hb.
    apply bind_Ok_inv in Hbody as (duration & wc & Hc & Hbody).
    apply quiet_lift in Hc.
    apply bind_Ok_inv in Hbody as (? & wd & Hd & Hbody).
    apply (quiet_when _ _ (quiet_emit (Console _) ltac:(intros; discriminate))) in Hd.
    apply bind_Ok_inv in Hbody as (result' & we & He & Hbody).
    assert (Hstage : writes we = writes wd).
    { revert He. destruct (Qltb _ duration).
      - apply quiet_bind.
        + intros w0 r w0'.
          destruct (AudioProcessor.splitAudioIntoChunks _ _ _ _ _ _);
            [|discriminate]. intros [= _ <-]. reflexivity.
        + intros chunks. apply quiet_bind; [repeat quiet_step|]. intros _.
          apply quiet_transcribeChunks. intros. apply provider_quiet.
      - apply provider_transcribe_quiet. }
    apply bind_Ok_inv in Hbody as (? & wf & Hf & Hbody).
    unfold Transcriber.cleanup, bind, emit, ret in Hbody.
    injection Hbody as <- <-.
    rewrite !writes_app. simpl. rewrite !app_nil_r.
    unfold outputFile.
    destruct (read (ProcessingOptions.outputPath options)) as [outputPath|].
    + destruct (truthyString outputPath).
      * unfold Transcriber.saveOutput, bind, emit, when in Hf.
        destruct verbose; injection Hf as _ <-;
          rewrite !writes_app; simpl; rewrite ?app_nil_r;
          unfold outputContent;
          destruct (read (ProcessingOptions.outputFormat options)) as [[]|];
          simpl; try congruence;
          destruct (Transcriber.detectFormat (Host.extname host outputPath));
          congruence.
      * injection Hf as _ <-. rewrite app_nil_r. congruence.
    + injection Hf as _ <-. rewrite app_nil_r. congruence.
  - unfold Transcriber.cleanup, bind, emit, throw in Hrun.
    injection Hrun as <- <-.
    rewrite !writes_app. simpl. rewrite !app_nil_r.
    apply bind_inv in Hbody as [(? & Ha & _)|(? & wa & Ha & Hbody)];
      apply quiet_lift in Ha; [congruence|].
    apply bind_inv in Hbody as [(? & Hb & _)|(audioPath & wb & Hb & Hbody)];
      apply quiet_lift in Hb; [congruence|].
    apply bind_inv in Hbody as [(? & Hc & _)|(duration & wc & Hc & Hbody)];
      apply quiet_lift in Hc; [congruence|].
    apply bind_inv in Hbody as [(? & Hd & _)|(? & wd & Hd & Hbody)];
      apply (quiet_when _ _ (quiet_emit (Console _) ltac:(intros; discriminate))) in Hd;
      [congruence|].
    assert (Hstage : forall r we,
              (if Qltb (orQ (read (ProcessingOptions.chunkDuration options)) 59)
                       duration
               then
                 bind (fun w =>
                         match AudioProcessor.splitAudioIntoChunks config ff fuel
                                 audioPath
                                 (read (ProcessingOptions.chunkDuration options))
                                 (read (ProcessingOptions.overlap options)) with
                         | None => None
                         | Some r => Some (r, w)
                         end)
                   (fun chunks =>
                      bind (when verbose
                              (emit (Console (SplitInto (length chunks)))))
                        (fun _ =>
                           Transcriber.transcribeChunks config provider fuel
                             chunks
                             (detectedConfig host audioPath transcriptionConfig)))
               else await (transcribe provider audioPath
                             (detectedConfig host audioPath transcriptionConfig)))
                wd = Some (r, we) ->
              writes we = writes wd).
    { intros r we. destruct (Qltb _ duration).
      - apply quiet_bind.
        + intros w0 r0 w0'.
          destruct (AudioProcessor.splitAudioIntoChunks _ _ _ _ _ _);
            [|discriminate]. intros [= _ <-]. reflexivity.
        + intros chunks. apply quiet_bind; [repeat quiet_step|]. intros _.
          apply quiet_transcribeChunks. intros. apply provider_quiet.
      - apply provider_transcribe_quiet. }
    apply bind_inv in Hbody as [(? & He & _)|(result & we & He & Hbody)];
      apply Hstage in He; [congruence|].
    exfalso.
    apply bind_inv in Hbody as [(? & Hf & _)|(? & wf & Hf & Hbody)].
    + destruct (read (ProcessingOptions.outputPath options)) as [outputPath|];
        [destruct (truthyString outputPath)|]; try discriminate.
      unfold Transcriber.saveOutput, bind, emit, when in Hf.
      destruct verbose; discriminate.
    + discriminate.
Qed.

(** ** The command line and the configuration *)

(** X17.  Under the command line the [chunkDuration], the [outputFormat]
    and the [outputPath] of the stored processing options (the ones a
    configuration file sets) have no effect: the options object that the
    action builds always writes these three properties, so two runs whose
    singletons differ only in them are the same run. *)
Theorem X17_command_line_overrides_stored_options {P : Type}
    `{TranscriptionProvider P} (config config' : Config.t) (ff : Ffmpeg.t)
    (host : Host.t) (provider : P) (fuel : nat) (inputPath : string)
    (transcriptionConfig : TranscriptionConfig.t) (flags : Cli.Options)
    (w : World) :
  same_but_overridden config config' ->
  Transcriber.transcribeFile config ff host provider fuel inputPath
    transcriptionConfig (Cli.processingOptions config flags) w
  = Transcriber.transcribeFile config' ff host provider fuel inputPath
      transcriptionConfig (Cli.processingOptions config' flags) w.
Proof.
  destruct config as [[]], config' as [[]], flags as [output format ? ? ? ?].
  unfold same_but_overridden. simpl.
  intros (-> & -> & -> & -> & -> & ->).
  destruct output, format; reflexivity.
Qed.

Lemma languageCode_stays_present (changes : list PartialTranscriptionConfig.t) :
  forall stored,
    PartialTranscriptionConfig.languageCode stored <> Missing ->
    PartialTranscriptionConfig.languageCode
      (fold_left TranscriptionSettings.updateTranscriptionConfig changes stored)
    <> Missing.
Proof.
  induction changes as [|change changes IH]; intros stored Hstored;
    [exact Hstored|].
  apply IH. simpl.
  destruct (PartialTranscriptionConfig.languageCode change); simpl;
    [exact Hstored | discriminate | discriminate].
Qed.

(** X18.  The language of the command line never reaches the provider:
    the action spreads the stored transcription settings over the provider
    and the language of the flags, and the stored settings always have a
    [languageCode] (["ja-JP"] at first, and no update or configuration file
    can remove the property).  Two command lines that differ only in
    [--language] build the same configuration, while the provider of the
    flags is used as long as no update has set one. *)
Theorem X18_language_flag_has_no_effect
    (changes : list PartialTranscriptionConfig.t) (provider : ProviderName)
    (language language' : string) :
  let stored := TranscriptionSettings.after changes in
  CliTranscription.transcriptionConfig stored provider language
  = CliTranscription.transcriptionConfig stored provider language'
  /\ PartialTranscriptionConfig.languageCode
       (CliTranscription.transcriptionConfig stored provider language)
     = PartialTranscriptionConfig.languageCode stored
  /\ (PartialTranscriptionConfig.provider stored = Missing ->
      PartialTranscriptionConfig.provider
        (CliTranscription.transcriptionConfig stored provider language)
      = Val provider).
Proof.
  intros stored.
  pose proof (languageCode_stays_present changes
                TranscriptionSettings.loadDefaultTranscriptionConfig
                ltac:(discriminate)) as Hpresent.
  fold (TranscriptionSettings.after changes) in Hpresent. fold stored in Hpresent.
  unfold CliTranscription.transcriptionConfig,
    TranscriptionSettings.getTranscriptionConfig,
    PartialTranscriptionConfig.spread. simpl.
  destruct (PartialTranscriptionConfig.languageCode stored) eqn:E;
    [destruct (Hpresent eq_refl)| |];
    (split; [reflexivity|]); (split; [reflexivity|]);
    intros ->; reflexivity.
Qed.

(** ** The output formats: times *)

Lemma Qfloor_unique (x : Q) (z : Z) :
  inject_Z z <= x -> x < inject_Z (z + 1) -> Qfloor x = z.
Proof.
  intros H1 H2. apply Z.le_antisymm.
  - apply Z.lt_succ_r. rewrite Zlt_Qlt.
    eapply Qle_lt_trans; [apply Qfloor_le | exact H2].
  - apply Qfloor_resp_le in H1. rewrite Qfloor_Z in H1. exact H1.
Qed.

Lemma Qfloor_bounds (x : Q) :
  inject_Z (Qfloor x) <= x /\ x < inject_Z (Qfloor x) + 1.
Proof.
  split; [apply Qfloor_le|].
  pose proof (Qlt_floor x) as H. rewrite inject_Z_plus in H. exact H.
Qed.

Lemma Qfloor_range (x : Q) (lo hi : Z) :
  inject_Z lo <= x -> x < inject_Z hi -> (lo <= Qfloor x < hi)%Z.
Proof.
  intros Hlo Hhi. destruct (Qfloor_bounds x) as [H1 H2]. split.
  - apply Qfloor_resp_le in Hlo. rewrite Qfloor_Z in Hlo. exact Hlo.
  - rewrite Zlt_Qlt. lra.
Qed.

Lemma js_rem_nonneg (x y : Q) :
  0 <= x / y -> js_rem x y = x - y * inject_Z (Qfloor (x / y)).
Proof.
  intros H. unfold js_rem, js_trunc. apply Qltb_ge in H. rewrite H. reflexivity.
Qed.

Lemma Qdiv_3600 (x : Q) : x / 3600 == x * (1 # 3600).
Proof. reflexivity. Qed.

Lemma Qdiv_60 (x : Q) : x / 60 == x * (1 # 60).
Proof. reflexivity. Qed.


(** The hours, minutes and seconds that both formats compute from a time
    that is not negative. *)
Lemma clock_fields (seconds : Q) :
  0 <= seconds ->
  let h := Qfloor (seconds / 3600) in
  let m := Qfloor (js_rem seconds 3600 / 60) in
  let secs := js_rem seconds 60 in
  (0 <= h)%Z /\ (0 <= m < 60)%Z
  /\ secs == seconds - inject_Z ((h * 60 + m) * 60)
  /\ 0 <= secs /\ secs < 60.
Proof.
  intros Hs h m secs.
  assert (H0 : 0 <= seconds / 3600) by (rewrite Qdiv_3600; lra).
  destruct (Qfloor_bounds (seconds / 3600)) as [Hh1 Hh2]. fold h in Hh1, Hh2.
  rewrite Qdiv_3600 in Hh1, Hh2.
  assert (Hh : (0 <= h)%Z).
  { apply (Qfloor_range _ 0 (h + 1)); [exact H0 | apply Qlt_floor]. }
  pose proof (js_rem_nonneg seconds 3600 H0) as Hr1. fold h in Hr1.
  destruct (Qfloor_bounds (js_rem seconds 3600 / 60)) as [Hm1 Hm2].
  fold m in Hm1, Hm2. rewrite Hr1, Qdiv_60 in Hm1, Hm2.
  assert (Hm : (0 <= m < 60)%Z).
  { apply Qfloor_range; rewrite Hr1, Qdiv_60;
      [change (inject_Z 0) with 0 | change (inject_Z 60) with 60]; lra. }
  assert (H60 : Qfloor (seconds / 60) = (h * 60 + m)%Z).
  { apply Qfloor_unique; rewrite Qdiv_60, ?inject_Z_plus, ?inject_Z_mult;
      change (inject_Z 60) with 60; change (inject_Z 1) with 1; lra. }
  assert (H0' : 0 <= seconds / 60) by (rewrite Qdiv_60; lra).
  assert (Hsecs : secs == seconds - inject_Z ((h * 60 + m) * 60)).
  { unfold secs. rewrite (js_rem_nonneg seconds 60 H0'), H60.
    rewrite !inject_Z_plus, !inject_Z_mult, ?inject_Z_plus, ?inject_Z_mult.
    change (inject_Z 60) with 60. ring. }
  split; [exact Hh|]. split; [exact Hm|]. split; [exact Hsecs|].
  rewrite Hsecs, !inject_Z_mult, !inject_Z_plus, !inject_Z_mult.
  change (inject_Z 60) with 60. split; lra.
Qed.


(** X20.  For a time that is not negative [formatDuration] prints whole
    hours, minutes below 60 and seconds below 60 that add up to the time
    rounded down to the second; the hours are printed only when there is at
    least one, and without hours the minutes only when there is at least
    one. *)
Theorem X20_duration_is_rounded_down_to_seconds (seconds : Q) :
  0 <= seconds ->
  exists h m s : Z,
    (0 <= h /\ 0 <= m < 60 /\ 0 <= s < 60)%Z
    /\ inject_Z ((h * 60 + m) * 60 + s) <= seconds
    /\ seconds < inject_Z ((h * 60 + m) * 60 + s) + 1
    /\ Formats.formatDuration seconds
       = if (0 <? h)%Z then
           pretty h +:+ "h " +:+ pretty m +:+ "m " +:+ pretty s +:+ "s"
         else if (0 <? m)%Z then pretty m +:+ "m " +:+ pretty s +:+ "s"
         else pretty s +:+ "s".
Proof.
  intros Hs.
  destruct (clock_fields seconds Hs) as (Hh & Hm & Hsecs & Hlo & Hhi).
  set (h := Qfloor (seconds / 3600)) in *.
  set (m := Qfloor (js_rem seconds 3600 / 60)) in *.
  set (secs := js_rem seconds 60) in *.
  exists h, m, (Qfloor secs).
  destruct (Qfloor_bounds secs) as [Hf1 Hf2].
  assert (Hsec : (0 <= Qfloor secs < 60)%Z).
  { apply Qfloor_range;
      [change (inject_Z 0) with 0 | change (inject_Z 60) with 60]; lra. }
  split; [lia|].
  repeat (rewrite inject_Z_plus || rewrite inject_Z_mult).
  repeat (rewrite inject_Z_plus in Hsecs || rewrite inject_Z_mult in Hsecs).
  change (inject_Z 60) with 60 in *.
  split; [lra|]. split; [lra|]. reflexivity.
Qed.

(** ** The output formats: WebVTT *)

Lemma string_app_cons (a : ascii) (s t : string) :
  String a s +:+ t = String a (s +:+ t).
Proof. reflexivity. Qed.

Lemma noDigitBeforeLF_digits (digits rest : string) :
  allDigits digits ->
  match rest with String b _ => b <> LF | EmptyString => True end ->
  noDigitBeforeLF rest ->
  noDigitBeforeLF (digits +:+ rest).
Proof.
  intros Hd Hstart Hrest. induction digits as [|a digits IH]; [exact Hrest|].
  destruct Hd as [Ha Hd]. rewrite string_app_cons. split; [|exact (IH Hd)].
  intros _. destruct digits as [|b digits].
  - exact Hstart.
  - rewrite string_app_cons. destruct Hd as [Hb _].
    intros ->. discriminate.
Qed.

Lemma allDigits_snoc (digits : string) (c : ascii) :
  allDigits digits -> is_digit c = true -> allDigits (digits +:+ String c "").
Proof.
  intros Hd Hc. induction digits as [|a digits IH]; [split; trivial|].
  destruct Hd as [Ha Hd]. rewrite string_app_cons. split; [exact Ha | exact (IH Hd)].
Qed.

Lemma removeNumberLines_noDigitBeforeLF (s : string) : forall digits,
  allDigits digits ->
  noDigitBeforeLF (Formats.removeNumberLines s digits).
Proof.
  induction s as [|c s IH]; intros digits Hd; cbn [Formats.removeNumberLines].
  - rewrite <- (string_app_nil_r digits).
    apply noDigitBeforeLF_digits; [exact Hd | exact I | exact I].
  - destruct (is_digit c) eqn:Hc.
    + apply IH, allDigits_snoc; assumption.
    + destruct (Ascii.eqb c LF) eqn:Hlf.
      * destruct (truthyString digits); [apply IH; exact I|].
        split; [rewrite Hc; discriminate | apply IH; exact I].
      * apply noDigitBeforeLF_digits; [exact Hd | |].
        -- intros ->. rewrite Ascii.eqb_refl in Hlf. discriminate.
        -- split; [rewrite Hc; discriminate | apply IH; exact I].
Qed.

Lemma replaceCommas_noDigitBeforeLF (s : string) :
  noDigitBeforeLF s -> noDigitBeforeLF (Formats.replaceCommas s).
Proof.
  induction s as [|a s IH]; [trivial|]. intros [Ha Hs].
  cbn [Formats.replaceCommas]. split; [|exact (IH Hs)].
  destruct (Ascii.eqb a ",") eqn:E; [discriminate|].
  intros Hd. specialize (Ha Hd). destruct s as [|b s]; [exact I|].
  cbn [Formats.replaceCommas].
  destruct (Ascii.eqb b ",") eqn:E'; [discriminate | exact Ha].
Qed.

Lemma replaceCommas_noComma (s : string) : noComma (Formats.replaceCommas s).
Proof.
  induction s as [|a s IH]; [exact I|]. cbn [Formats.replaceCommas].
  split; [|exact IH].
  destruct (Ascii.eqb a ",") eqn:E; [discriminate|].
  intros ->. discriminate.
Qed.

Lemma noDigitBeforeLF_occursIn (s : string) (d : ascii) :
  noDigitBeforeLF s -> is_digit d = true ->
  ~ occursIn (String d Formats.NL) s.
Proof.
  intros Hs Hd (before & after & ->). induction before as [|a before IH].
  - destruct Hs as [H _]. exact (H Hd eq_refl).
  - destruct Hs as [_ Hs]. exact (IH Hs).
Qed.

Lemma noComma_occursIn (s : string) : noComma s -> ~ occursIn "," s.
Proof.
  intros Hs (before & after & ->). induction before as [|a before IH].
  - destruct Hs as [H _]. exact (H eq_refl).
  - destruct Hs as [_ Hs]. exact (IH Hs).
Qed.

(** X22.  The text that [generateVTT] returns never holds a comma, and
    never a digit that a line feed follows: the replacement that is meant
    to remove the numbers of the subtitles removes every run of digits at
    the end of a line, with the line feed, so the milliseconds of the end
    time of a cue are removed too and the text of the cue follows the
    timing on the same line. *)
Theorem X22_vtt_has_no_digit_at_the_end_of_a_line
    (result : TranscriptionResult.t) :
  ~ occursIn "," (Formats.generateVTT result)
  /\ forall d, is_digit d = true ->
       ~ occursIn (String d Formats.NL) (Formats.generateVTT result).
Proof.
  assert (H : noComma (Formats.generateVTT result)
              /\ noDigitBeforeLF (Formats.generateVTT result)).
  { unfold Formats.generateVTT.
    destruct (negb (truthyString (Formats.generateSRT result))).
    - split; repeat split; try discriminate.
    - pose proof (replaceCommas_noComma
                    (Formats.removeNumberLines (Formats.generateSRT result) ""))
        as Hc.
      pose proof (replaceCommas_noDigitBeforeLF _
                    (removeNumberLines_noDigitBeforeLF
                       (Formats.generateSRT result) "" I)) as Hd.
      split; repeat split; try discriminate; assumption. }
  destruct H as [Hc Hd]. split; [apply noComma_occursIn, Hc|].
  intros d Hdigit. apply noDigitBeforeLF_occursIn; assumption.
Qed.

(** ** The output formats: SubRip *)

Lemma closesSubtitle_pushed (current : list WordInfo.t) (word : WordInfo.t) :
  closesSubtitle (current ++ [word])
  = (let first := hd word current in
     let duration := WordInfo.endTime word - WordInfo.startTime first in
     Qle_bool 3 duration
     || (Formats.endsSentence (WordInfo.word word) && Qle_bool 1 duration)).
Proof.
  destruct current as [|first current]; [reflexivity|].
  unfold closesSubtitle. cbn [app hd].
  change (first :: current ++ [word]) with ((first :: current) ++ [word]).
  rewrite last_last. reflexivity.
Qed.

Lemma cueEntry_pushed (index : Z) (current : list WordInfo.t) (word : WordInfo.t) :
  cueEntry index (current ++ [word])
  = Formats.subtitle index (hd word current) word (current ++ [word]).
Proof.
  destruct current as [|first current]; [reflexivity|].
  unfold cueEntry. cbn [app hd].
  change (first :: current ++ [word]) with ((first :: current) ++ [word]).
  rewrite last_last. reflexivity.
Qed.

Lemma cueEntries_app (cues more : list (list WordInfo.t)) : forall index,
  cueEntries index (cues ++ more)
  = cueEntries index cues
    ++ cueEntries (index + Z.of_nat (length cues)) more.
Proof.
  induction cues as [|cue cues IH]; intros index.
  - simpl. rewrite Z.add_0_r. reflexivity.
  - cbn [app cueEntries length]. rewrite IH. do 3 f_equal. lia.
Qed.

(** The loop of [generateSRT]: the subtitles it pushes are the entries of
    the cues it closes, and the words it is left with are still open. *)
Lemma srtLoop_cues (words : list WordInfo.t) :
  forall subtitles current index,
    staysOpen current ->
    exists cues open,
      Formats.srtLoop words subtitles current index
      = (subtitles ++ cueEntries index cues, open,
         (index + Z.of_nat (length cues))%Z)
      /\ current ++ words = concat cues ++ open
      /\ staysOpen open
      /\ Forall (fun cue =>
                   closesSubtitle cue = true
                   /\ forall k, (0 < k < length cue)%nat ->
                        closesSubtitle (take k cue) = false) cues.
Proof.
  induction words as [|word words IH]; intros subtitles current index Hopen.
  - exists [], current. simpl. rewrite !app_nil_r, Z.add_0_r.
    repeat split; [exact Hopen | constructor].
  - cbn [Formats.srtLoop].
    pose proof (closesSubtitle_pushed current word) as Hcond. cbn zeta in Hcond.
    rewrite <- Hcond, <- cueEntry_pushed.
    assert (Hprefix : forall k, (0 < k <= length current)%nat ->
              closesSubtitle (take k (current ++ [word])) = false).
    { intros k Hk. rewrite take_app_le by lia. apply Hopen, Hk. }
    destruct (closesSubtitle (current ++ [word])) eqn:Hcloses.
    + destruct (IH (subtitles ++ [cueEntry index (current ++ [word])]) []
                  (index + 1)%Z) as (cues & open & Hrun & Hwords & Hopen' & Hcues).
      { intros k Hk. simpl in Hk. lia. }
      exists ((current ++ [word]) :: cues), open. rewrite Hrun.
      split; [|split; [|split]].
      * cbn [cueEntries length].
        f_equal; [f_equal; rewrite <- app_assoc; reflexivity | lia].
      * cbn [concat]. rewrite <- !app_assoc. simpl in Hwords.
        rewrite <- Hwords. reflexivity.
      * exact Hopen'.
      * constructor; [|exact Hcues]. split; [exact Hcloses|].
        intros k Hk. rewrite length_app in Hk. simpl in Hk.
        apply Hprefix. lia.
    + destruct (IH subtitles (current ++ [word]) index)
        as (cues & open & Hrun & Hwords & Hopen' & Hcues).
      { intros k Hk. rewrite length_app in Hk. simpl in Hk.
        destruct (decide (k = S (length current))) as [->|Hne].
        - rewrite take_ge by (rewrite length_app; simpl; lia). exact Hcloses.
        - apply Hprefix. lia. }
      exists cues, open. rewrite Hrun. split; [reflexivity|].
      split; [|split; assumption].
      rewrite <- Hwords, <- app_assoc. reflexivity.
Qed.

(** X21.  [generateSRT] cuts the words, in their order and without losing
    one, into cues that are numbered from 1: a cue is closed by the first
    of its words at which it spans three seconds, or one second with a word
    that ends a sentence, so no cue could have been closed earlier and every
    cue but the last is closed; the text is the entries of the cues joined
    by line feeds, and it is empty when there is no word. *)
Theorem X21_srt_cuts_words_into_cues (result : TranscriptionResult.t) :
  exists cues : list (list WordInfo.t),
    concat cues = wordsOf result
    /\ Formats.generateSRT result = join Formats.NL (cueEntries 1 cues)
    /\ forall i cue, cues !! i = Some cue ->
         cue <> []
         /\ (forall k, (0 < k < length cue)%nat ->
               closesSubtitle (take k cue) = false)
         /\ ((S i < length cues)%nat -> closesSubtitle cue = true).
Proof.
  unfold Formats.generateSRT, wordsOf.
  destruct (TranscriptionResult.words result) as [[|word words]|];
    try (exists []; split; [reflexivity|]; split; [reflexivity|];
         intros i cue Hi; rewrite lookup_nil in Hi; discriminate).
  destruct (srtLoop_cues (word :: words) [] [] 1)
    as (cues & open & Hrun & Hwords & Hopen & Hcues).
  { intros k Hk. simpl in Hk. lia. }
  rewrite Hrun. simpl in Hwords. cbn [app].
  rewrite Forall_lookup in Hcues.
  destruct open as [|first open].
  - exists cues. rewrite app_nil_r in Hwords. split; [auto|].
    split; [reflexivity|]. intros i cue Hi.
    destruct (Hcues i cue Hi) as [Hcloses Hminimal].
    split; [intros ->; discriminate|]. split; [exact Hminimal | auto].
  - exists (cues ++ [first :: open]).
    split; [rewrite concat_app; simpl; rewrite app_nil_r; auto|].
    split.
    + rewrite cueEntries_app. reflexivity.
    + intros i cue Hi. apply lookup_app_Some in Hi as [Hi|[Hge Hi]].
      * destruct (Hcues i cue Hi) as [Hcloses Hminimal].
        split; [intros ->; discriminate|]. split; [exact Hminimal | auto].
      * apply list_lookup_singleton_Some in Hi as [Hi <-].
        split; [discriminate|]. split.
        -- intros k Hk. apply Hopen. lia.
        -- rewrite length_app. simpl. lia.
Qed.

(** ** The output formats: CSV *)

Lemma readQuoted_escapeQuotes (word rest : string) :
  match rest with String c _ => c <> DQUOTE | EmptyString => True end ->
  readQuoted (Formats.escapeQuotes word +:+ String DQUOTE rest)
  = Some (word, rest).
Proof.
  intros Hrest. induction word as [|c word IH].
  - change (readQuoted (String DQUOTE rest) = Some ("", rest)).
    cbn [readQuoted]. rewrite Ascii.eqb_refl.
    destruct rest as [|c rest]; [reflexivity|].
    destruct (Ascii.eqb c DQUOTE) eqn:E; [|reflexivity].
    apply Ascii.eqb_eq in E. contradiction.
  - cbn [Formats.escapeQuotes].
    destruct (Ascii.eqb c DQUOTE) eqn:E.
    + apply Ascii.eqb_eq in E. subst c. rewrite !string_app_cons.
      cbn [readQuoted]. rewrite !Ascii.eqb_refl, IH. reflexivity.
    + rewrite string_app_cons. cbn [readQuoted]. rewrite E, IH. reflexivity.
Qed.

(** X23.  A row of [generateCSV] is the two times, the word between double
    quotes, the confidence and the speaker, separated by commas; a double
    quote inside the word is doubled, so reading the quoted field back (a
    doubled quote is one quote, a single quote closes the field) gives the
    word itself, whatever commas, quotes or line feeds it holds, and stops
    at the comma before the confidence. *)
Theorem X23_csv_word_field_round_trips (numberToString : Q -> string)
    (word : WordInfo.t) :
  exists confidence speaker,
    let tail := "," +:+ confidence +:+ "," +:+ speaker in
    Formats.csvRow numberToString word
    = Formats.toFixed3 (WordInfo.startTime word) +:+ ","
      +:+ Formats.toFixed3 (WordInfo.endTime word) +:+ ","
      +:+ String DQUOTE (Formats.escapeQuotes (WordInfo.word word)
                         +:+ String DQUOTE tail)
    /\ readQuoted (Formats.escapeQuotes (WordInfo.word word)
                   +:+ String DQUOTE tail)
       = Some (WordInfo.word word, tail).
Proof.
  exists (orString (Formats.toFixed3 <$> WordInfo.confidence word) ""),
    (match WordInfo.speakerTag word with
     | Some tag => if truthyQ tag then numberToString tag else ""
     | None => ""
     end).
  cbn zeta. split.
  - unfold Formats.csvRow.
    generalize (Formats.toFixed3 (WordInfo.startTime word)),
      (Formats.toFixed3 (WordInfo.endTime word)),
      (orString (Formats.toFixed3 <$> WordInfo.confidence word) ""),
      (Formats.escapeQuotes (WordInfo.word word)).
    intros a b c e. cbn [join].
    rewrite string_app_cons, !string_app_assoc. reflexivity.
  - apply readQuoted_escapeQuotes. discriminate.
Qed.

(** ** The credentials *)

Lemma includes_app (prefix s needle : string) :
  includes s needle = true -> includes (prefix +:+ s) needle = true.
Proof.
  intros Hs. induction prefix as [|c prefix IH]; [exact Hs|].
  rewrite string_app_cons. cbn [includes]. rewrite IH. apply orb_true_r.
Qed.

Lemma tempFilePath_isFilePath (host : AuthHelper.Host) (st : AuthHelper.State) :
  AuthHelper.isFilePath (AuthHelper.tempFilePath host st) = true
  /\ truthyString (AuthHelper.tempFilePath host st) = true.
Proof.
  unfold AuthHelper.tempFilePath, path_join. split.
  - unfold AuthHelper.isFilePath.
    rewrite includes_app; [reflexivity|].
    apply (includes_app "/"), (includes_app "gcp-creds-"), includes_app.
    reflexivity.
  - apply truthyString_app_r. reflexivity.
Qed.

(** X24.  Credentials that are given inline, as base64 text and not as a
    path, are written to a temporary file: when [prepareCredentials]
    returns a path for them, the path is the one of the temporary file, the
    file holds the decoded text, it is on the list of the files to clean
    up, no other file has changed, and validating the service account key
    by that path gives the verdict of validating the inline text. *)
Theorem X24_inline_credentials_become_a_tracked_file (host : AuthHelper.Host)
    (st st' : AuthHelper.State) (input path : string) :
  AuthHelper.isFilePath input = false ->
  AuthHelper.prepareCredentials host (Some input) st = (Ok (Some path), st') ->
  path = AuthHelper.tempFilePath host st
  /\ AuthHelper.files st' !! path = Some (AuthHelper.decodeBase64 host input)
  /\ AuthHelper.tempCredentialFiles st'
     = AuthHelper.tempCredentialFiles st ++ [path]
  /\ (forall other, other <> path ->
        AuthHelper.files st' !! other = AuthHelper.files st !! other)
  /\ AuthHelper.validateServiceAccountKey host (Some path) st'
     = AuthHelper.validateServiceAccountKey host (Some input) st.
Proof.
  intros Hinline. unfold AuthHelper.prepareCredentials.
  destruct (truthyString input) eqn:Hinput; [|discriminate].
  rewrite Hinline. cbn [negb].
  destruct (AuthHelper.JSON_parse host (AuthHelper.decodeBase64 host input))
    as [credentials|message] eqn:Hparse; [|discriminate].
  intros [= <- <-]. cbn [AuthHelper.files AuthHelper.tempCredentialFiles].
  destruct (tempFilePath_isFilePath host st) as [Hpath Htruthy].
  split; [reflexivity|]. split; [apply lookup_insert_eq|].
  split; [reflexivity|]. split.
  - intros other Hother. apply lookup_insert_ne. congruence.
  - unfold AuthHelper.validateServiceAccountKey.
    rewrite Htruthy, Hinput, Hpath, Hinline.
    cbn [negb AuthHelper.files]. rewrite lookup_insert_eq. reflexivity.
Qed.

Lemma cleanup_files (paths : list string) : forall (files : gmap string string) p,
  fold_left (fun files filePath =>
               if bool_decide (is_Some (files !! filePath))
               then delete filePath files
               else files) paths files !! p
  = if bool_decide (p ∈ paths) then None else files !! p.
Proof.
  induction paths as [|q paths IH]; intros files p; [reflexivity|].
  cbn [fold_left]. rewrite IH.
  destruct (decide (p ∈ paths)) as [Hin|Hnot].
  - rewrite (bool_decide_eq_true_2 (p ∈ paths)) by exact Hin.
    rewrite (bool_decide_eq_true_2 (p ∈ q :: paths)) by (right; exact Hin).
    reflexivity.
  - rewrite (bool_decide_eq_false_2 (p ∈ paths)) by exact Hnot.
    destruct (decide (p = q)) as [->|Hne].
    + rewrite (bool_decide_eq_true_2 (q ∈ q :: paths)) by left.
      destruct (bool_decide (is_Some (files !! q))) eqn:E.
      * apply lookup_delete_eq.
      * apply bool_decide_eq_false in E.
        destruct (files !! q) eqn:E'; [|reflexivity].
        destruct E. eexists. reflexivity.
    + rewrite (bool_decide_eq_false_2 (p ∈ q :: paths))
        by (intros Hin; apply elem_of_cons in Hin as [?|?]; auto).
      destruct (bool_decide (is_Some (files !! q))); [|reflexivity].
      apply lookup_delete_ne. congruence.
Qed.

(** X25.  [cleanup] removes every file that is on the list of the
    temporary credential files, leaves every other file as it is, and
    empties the list. *)
Theorem X25_cleanup_removes_the_tracked_files (st : AuthHelper.State) :
  AuthHelper.tempCredentialFiles (AuthHelper.cleanup st) = []
  /\ forall path,
       AuthHelper.files (AuthHelper.cleanup st) !! path
       = if bool_decide (path ∈ AuthHelper.tempCredentialFiles st)
         then None
         else AuthHelper.files st !! path.
Proof.
  split; [reflexivity|]. intros path. apply cleanup_files.
Qed.

(** X26.  [validateServiceAccountKey] accepts nothing but an absent or
    empty input and a text, read from the file of a path or decoded from
    inline base64, that parses to an object whose [type], [project_id],
    [private_key] and [client_email] are all truthy and whose [type] is
    the string [service_account]. *)
Theorem X26_service_account_key_is_accepted (host : AuthHelper.Host)
    (st : AuthHelper.State) (input : string) :
  AuthHelper.validateServiceAccountKey host (Some input) st = Ok tt
  <-> input = ""
      \/ exists content fields,
           (if AuthHelper.isFilePath input
            then AuthHelper.files st !! input = Some content
            else content = AuthHelper.decodeBase64 host input)
           /\ AuthHelper.JSON_parse host content = Ok (Json.Object fields)
           /\ Json.truthy (fields !! "type") = true
           /\ Json.truthy (fields !! "project_id") = true
           /\ Json.truthy (fields !! "private_key") = true
           /\ Json.truthy (fields !! "client_email") = true
           /\ fields !! "type" = Some (Json.Str "service_account").
Proof.
  unfold AuthHelper.validateServiceAccountKey.
  destruct input as [|c input]; [split; auto|]. cbn [truthyString negb].
  set (path := String c input).
  assert (Hcheck : forall credentials,
            AuthHelper.checkServiceAccountKey credentials = Ok tt
            <-> exists fields,
                  credentials = Json.Object fields
                  /\ Json.truthy (fields !! "type") = true
                  /\ Json.truthy (fields !! "project_id") = true
                  /\ Json.truthy (fields !! "private_key") = true
                  /\ Json.truthy (fields !! "client_email") = true
                  /\ fields !! "type" = Some (Json.Str "service_account")).
  { intros credentials. split.
    - intros Hok.
      destruct credentials as [|b|n|s|items|fields]; try discriminate Hok.
      revert Hok.
      unfold AuthHelper.checkServiceAccountKey, AuthHelper.requiredFields.
      cbn [List.filter].
      destruct (Json.truthy (fields !! "type")) eqn:H1,
        (Json.truthy (fields !! "project_id")) eqn:H2,
        (Json.truthy (fields !! "private_key")) eqn:H3,
        (Json.truthy (fields !! "client_email")) eqn:H4;
        cbn; try discriminate.
      destruct (fields !! "type") as [[| | |s| |]|] eqn:E; try discriminate.
      destruct (String.eqb s "service_account") eqn:Es; [|discriminate].
      apply String.eqb_eq in Es. subst s. intros _. exists fields.
      rewrite E. repeat split; first [assumption | reflexivity].
    - intros (fields & -> & H1 & H2 & H3 & H4 & Htype).
      unfold AuthHelper.checkServiceAccountKey, AuthHelper.requiredFields.
      cbn [List.filter]. rewrite H1, H2, H3, H4. cbn. rewrite Htype.
      reflexivity. }
  split.
  - intros Hok. right.
    destruct (AuthHelper.isFilePath path).
    + destruct (AuthHelper.files st !! path) as [content|]; [|discriminate].
      destruct (AuthHelper.JSON_parse host content) as [credentials|] eqn:Hp;
        [|discriminate].
      apply Hcheck in Hok as (fields & -> & Hfields).
      exists content, fields. auto.
    + destruct (AuthHelper.JSON_parse host (AuthHelper.decodeBase64 host path))
        as [credentials|] eqn:Hp; [|discriminate].
      apply Hcheck in Hok as (fields & -> & Hfields).
      exists (AuthHelper.decodeBase64 host path), fields. auto.
  - intros [[=]|(content & fields & Hcontent & Hparse & Hfields)].
    destruct (AuthHelper.isFilePath path).
    + rewrite Hcontent, Hparse. apply Hcheck. exists fields. auto.
    + subst content. rewrite Hparse. apply Hcheck. exists fields. auto.
Qed.

(** ** Extraction of the audio *)

(** X27.  [extractAudio] runs [ffmpeg] at most once, and every run reads
    the input and writes mono audio at 16 kHz with the codec [pcm_s16le] to
    the path that is returned when the run succeeds.  It makes no run
    exactly when it hands the input path on as it is, which it does for
    the extensions [.wav], [.flac], [.m4a] and [.aac] when no other output
    path is asked for; an [.mp3] and every extension it does not know as
    audio is converted (creating the temporary directory is taken to
    succeed). *)
Theorem X27_extracted_audio_is_mono_16_kHz (config : Config.t) (host : Host.t)
    (media : Media.t) (inputPath : string) (outputPath : option string) :
  let ext := Host.extname host inputPath in
  let outcome := Extraction.extractAudio config host media inputPath outputPath in
  (length (snd outcome) <= 1)%nat
  /\ (forall command, command ∈ snd outcome ->
        Media.input command = inputPath
        /\ Media.audioCodec command = Some "pcm_s16le"
        /\ Media.audioFrequency command = 16000%Z
        /\ Media.audioChannels command = 1%Z
        /\ (fst outcome = Ok (Media.output command)
            \/ exists message, fst outcome = Throw message))
  /\ (snd outcome = [] <->
      ext ∈ [".wav"; ".flac"; ".m4a"; ".aac"]
      /\ match outputPath with
         | Some p => p = "" \/ p = inputPath
         | None => True
         end)
  /\ (snd outcome = [] -> fst outcome = Ok inputPath).
Proof.
  intros ext outcome. subst outcome.
  unfold Extraction.extractAudio. fold ext.
  assert (Hext : (negb (Extraction.isVideo ext) && Extraction.isAudio ext = true
                  /\ String.eqb ext ".mp3" = false)
                 <-> ext ∈ [".wav"; ".flac"; ".m4a"; ".aac"]).
  { unfold Extraction.isVideo, Extraction.isAudio. split.
    - intros [Ha Hm]. apply andb_true_iff in Ha as [_ Ha].
      apply bool_decide_eq_true in Ha. apply String.eqb_neq in Hm.
      rewrite !elem_of_cons, elem_of_nil in Ha.
      rewrite !elem_of_cons, elem_of_nil. tauto.
    - intros Hin. rewrite !elem_of_cons, elem_of_nil in Hin.
      destruct Hin as [->|[->|[->|[->|[]]]]]; split; reflexivity. }
  set (given := match outputPath with
                | Some p => if truthyString p then Some p else None
                | None => None
                end).
  assert (Hgiven : given = None /\ (outputPath = None \/ outputPath = Some "")
                   \/ (exists p, given = Some p /\ outputPath = Some p
                                  /\ truthyString p = true)).
  { subst given. destruct outputPath as [p|]; [|auto].
    destruct p as [|c p]; [auto | right; eauto]. }
  assert (Hone : forall (r : result string) (command : Media.Command),
            Media.input command = inputPath ->
            Media.audioCodec command = Some "pcm_s16le" ->
            Media.audioFrequency command = 16000%Z ->
            Media.audioChannels command = 1%Z ->
            (r = Ok (Media.output command) \/ exists message, r = Throw message) ->
            forall command', command' ∈ [command] ->
              Media.input command' = inputPath
              /\ Media.audioCodec command' = Some "pcm_s16le"
              /\ Media.audioFrequency command' = 16000%Z
              /\ Media.audioChannels command' = 1%Z
              /\ (r = Ok (Media.output command')
                  \/ exists message, r = Throw message)).
  { intros r command H1 H2 H3 H4 H5 command' Hc.
    apply list_elem_of_singleton in Hc as ->. auto. }
  destruct (negb (Extraction.isVideo ext) && Extraction.isAudio ext) eqn:Haudio.
  - destruct (String.eqb ext ".mp3") eqn:Hmp3.
    + unfold Extraction.convertAudio. cbn [Extraction.codecMap].
      destruct (Media.run media _) as [[]|message]; cbn [fst snd length];
        (split; [lia|]);
        (split; [apply Hone; cbn; eauto|]);
        (split; [|discriminate]);
        (split; [discriminate|]);
        intros [Hin _]; apply Hext in Hin as [_ ?]; discriminate.
    + assert (Hin : ext ∈ [".wav"; ".flac"; ".m4a"; ".aac"])
        by (apply Hext; auto).
      destruct Hgiven as [[-> Hout]|(p & -> & -> & Hp)].
      * cbn [fst snd length]. split; [lia|].
        split; [intros ? Hc; apply elem_of_nil in Hc; destruct Hc|].
        split; [|reflexivity]. split; [|reflexivity].
        intros _. split; [exact Hin|].
        destruct Hout as [->| ->]; auto.
      * destruct (String.eqb p inputPath) eqn:Hsame; cbn [negb].
        -- apply String.eqb_eq in Hsame. cbn [fst snd length]. split; [lia|].
           split; [intros ? Hc; apply elem_of_nil in Hc; destruct Hc|].
           split; [|reflexivity]. split; auto.
        -- apply String.eqb_neq in Hsame.
           unfold Extraction.convertAudio.
           destruct (Media.run media _) as [[]|message]; cbn [fst snd length];
             (split; [lia|]);
             (split; [apply Hone; cbn; eauto|]);
             (split; [|discriminate]);
             (split; [discriminate|]);
             intros [_ [-> | ->]]; [discriminate | congruence
                                   | discriminate | congruence].
  - destruct (Media.run media _) as [[]|message]; cbn [fst snd length];
      (split; [lia|]);
      (split; [apply Hone; cbn; eauto|]);
      (split; [|discriminate]);
      (split; [discriminate|]);
      intros [Hin _]; apply Hext in Hin as [? _]; congruence.
Qed.

(** ** The environment of the command line *)

(** X28.  Under the command line the location of the Vertex AI provider
    is the [--location] flag whenever that is not empty (and it has a
    default), whatever [VERTEX_AI_LOCATION] is set to; but its project is
    [VERTEX_AI_PROJECT_ID] whenever that is set and not empty, whatever
    [--project-id] says, since the flag sets [GOOGLE_CLOUD_PROJECT_ID]
    only. *)
Theorem X28_location_flag_wins_project_flag_does_not
    (flags : CliEnvironment.Flags) (env : ProcessEnv.t) (fs : Ffmpeg.t)
    (predict : World -> Buffer -> TranscriptionConfig.t -> result Vertex.Response) :
  let provider :=
    VertexAISpeechProvider.new (CliEnvironment.apply flags env) fs predict in
  (forall location,
     CliEnvironment.location flags = Some location ->
     truthyString location = true ->
     VertexAISpeechProvider.location provider = location)
  /\ (forall project,
        ProcessEnv.VERTEX_AI_PROJECT_ID env = Some project ->
        truthyString project = true ->
        VertexAISpeechProvider.project provider = project)
  /\ (ProcessEnv.truthy (ProcessEnv.VERTEX_AI_PROJECT_ID env) = false ->
      forall project,
        CliEnvironment.projectId flags = Some project ->
        truthyString project = true ->
        VertexAISpeechProvider.project provider = project).
Proof.
  intros provider. subst provider.
  unfold VertexAISpeechProvider.new, CliEnvironment.apply.
  cbn [VertexAISpeechProvider.location VertexAISpeechProvider.project
       ProcessEnv.VERTEX_AI_LOCATION ProcessEnv.VERTEX_AI_PROJECT_ID
       ProcessEnv.GOOGLE_CLOUD_PROJECT_ID].
  split; [|split].
  - intros location -> Htruthy. simpl. rewrite Htruthy. simpl.
    rewrite Htruthy. reflexivity.
  - intros project -> Htruthy. unfold ProcessEnv.or. simpl.
    rewrite Htruthy. simpl. rewrite Htruthy. reflexivity.
  - intros Hnone project -> Htruthy. unfold ProcessEnv.or.
    rewrite Hnone. simpl. rewrite Htruthy. simpl. rewrite Htruthy. reflexivity.
Qed.

(** * Instances of the further properties *)


Lemma X2_witness :
  exists chunks,
    AudioProcessor.splitAudioIntoChunks Sample.config (Sample.ffmpeg 120) 5
      "a.wav" None None = Some (Ok chunks)
    /\ forall k c, chunks !! k = Some c ->
         cut_from Sample.config (Sample.ffmpeg 120) "a.wav" k c.
Proof.
  eexists. split; [vm_compute; reflexivity|].
  apply (X2_chunks_are_read_from_their_files Sample.config (Sample.ffmpeg 120)
           5 "a.wav" None None).
  vm_compute. reflexivity.
Defined.

(** Two chunks, both rejected: both indices are on the list. *)
Lemma X10_witness :
  exists done w',
    Transcriber.dispatchLoop Sample.failing 5
      [Sample.chunkAt 0 0; Sample.chunkAt 58 1] Sample.transcriptionConfig
      false 3 0 (replicate 2 None) [] [] = Some (Ok done, w')
    /\ length (fst done) = 2%nat
    /\ snd done = absentFrom 0 (fst done).
Proof.
  eexists _, _. split; [vm_compute; reflexivity|].
  eapply (X10_failed_chunks_are_the_absent_entries Sample.failing 5
           [Sample.chunkAt 0 0; Sample.chunkAt 58 1] Sample.transcriptionConfig
           false 3 []).
  - reflexivity.
  - vm_compute. reflexivity.
Defined.

(** Four chunks in batches of three. *)
Lemma X11_witness :
  exists done w',
    Transcriber.dispatchLoop Sample.answering 5
      [Sample.chunkAt 0 0; Sample.chunkAt 58 1; Sample.chunkAt 116 2;
       Sample.chunkAt 174 3] Sample.transcriptionConfig false 3 0
      (replicate 4 None) [] [] = Some (Ok done, w')
    /\ requests w'
       = requests []
         ++ match validateConfig Sample.answering Sample.transcriptionConfig with
            | Ok _ =>
              map (requestFor Sample.transcriptionConfig)
                [Sample.chunkAt 0 0; Sample.chunkAt 58 1; Sample.chunkAt 116 2;
                 Sample.chunkAt 174 3]
            | Throw _ => []
            end.
Proof.
  eexists _, _. split; [vm_compute; reflexivity|].
  eapply (X11_batches_send_every_chunk_once Sample.answering 5
           [Sample.chunkAt 0 0; Sample.chunkAt 58 1; Sample.chunkAt 116 2;
            Sample.chunkAt 174 3] Sample.transcriptionConfig false 3 []).
  - reflexivity.
  - vm_compute. reflexivity.
Defined.

Lemma X12_witness :
  exists done w',
    Transcriber.dispatchLoop Sample.answering 5
      [Sample.chunkAt 0 0; Sample.chunkAt 58 1; Sample.chunkAt 116 2;
       Sample.chunkAt 174 3] Sample.transcriptionConfig false 3 0
      (replicate 4 None) [] [] = Some (Ok done, w')
    /\ pauses w' = pauses [] ++ replicate (Z.to_nat ((4 - 1) / 3)) 100%Z.
Proof.
  eexists _, _. split; [vm_compute; reflexivity|].
  eapply (X12_batches_pause_between_batches Sample.answering 5
           [Sample.chunkAt 0 0; Sample.chunkAt 58 1; Sample.chunkAt 116 2;
            Sample.chunkAt 174 3] Sample.transcriptionConfig false 3 []).
  - reflexivity.
  - vm_compute. reflexivity.
Defined.

Lemma X13_witness :
  exists outcome w',
    Transcriber.transcribeFile Sample.config (Sample.ffmpeg 120) Sample.host
      Sample.failing 10 "in.wav" Sample.transcriptionConfig
      ProcessingOptions.empty [] = Some (outcome, w')
    /\ exists w1, w' = w1 ++ [CleanupTempFiles; AuthCleanup].
Proof.
  eexists _, _. split; [vm_compute; reflexivity|].
  eapply (X13_cleanup_runs_last Sample.config (Sample.ffmpeg 120) Sample.host
           Sample.failing 10 "in.wav" Sample.transcriptionConfig
           ProcessingOptions.empty []).
  vm_compute. reflexivity.
Defined.

Lemma X14_witness :
  Transcriber.transcribeFile Sample.config (Sample.ffmpeg 120) Sample.host
    Sample.answering 10 "in.wav"
    (TranscriptionConfig.mk google_speech "ja-JP" (Some MP3) (Some 44100%Z) "")
    ProcessingOptions.empty []
  = Transcriber.transcribeFile Sample.config (Sample.ffmpeg 120) Sample.host
      Sample.answering 10 "in.wav"
      (TranscriptionConfig.mk google_speech "ja-JP" None None "")
      ProcessingOptions.empty [].
Proof.
  apply X14_caller_encoding_is_overwritten; reflexivity.
Defined.

(** Thirty seconds of audio and no fuel at all. *)
Lemma X15_witness :
  exists outcome w1 w2,
    transcribe Sample.answering "in.wav"
      (detectedConfig Sample.host "in.wav" Sample.transcriptionConfig) []
    = (outcome, w1)
    /\ Transcriber.transcribeFile Sample.config (Sample.ffmpeg 30) Sample.host
         Sample.answering 0 "in.wav" Sample.transcriptionConfig
         ProcessingOptions.empty [] = Some (outcome, w2).
Proof.
  apply (X15_short_audio_is_sent_whole Sample.config (Sample.ffmpeg 30)
           Sample.host Sample.answering 0 "in.wav" Sample.transcriptionConfig
           ProcessingOptions.empty [] "in.wav" 30).
  - reflexivity.
  - reflexivity.
  - reflexivity.
  - vm_compute. discriminate.
Defined.

Lemma X16_witness :
  exists outcome w',
    Transcriber.transcribeFile Sample.config (Sample.ffmpeg 30) Sample.host
      Sample.answering 0 "in.wav" Sample.transcriptionConfig
      (ProcessingOptions.mk Missing Missing Missing (Val "out.srt") Missing
         Missing Missing Missing Missing) [] = Some (outcome, w')
    /\ writes w'
       = writes []
         ++ outputFile Sample.host
              (ProcessingOptions.spread
                 (Config.getProcessingOptions Sample.config)
                 (ProcessingOptions.mk Missing Missing Missing (Val "out.srt")
                    Missing Missing Missing Missing Missing))
              outcome.
Proof.
  eexists _, _. split; [vm_compute; reflexivity|].
  eapply (X16_output_file_only_on_success Sample.config (Sample.ffmpeg 30)
           Sample.host Sample.answering 0 "in.wav" Sample.transcriptionConfig
           _ []).
  vm_compute. reflexivity.
Defined.

(** A configuration file that asks for chunks of 30 s and an output file,
    under a command line without [--output]. *)
Lemma X17_witness :
  Transcriber.transcribeFile Sample.config (Sample.ffmpeg 120) Sample.host
    Sample.answering 10 "in.wav" Sample.transcriptionConfig
    (Cli.processingOptions Sample.config
       (Cli.mkOptions None None 59 3 None None)) []
  = Transcriber.transcribeFile
      (Config.updateProcessingOptions Sample.config
         (ProcessingOptions.mk (Val 30) Missing (Val SRT) (Val "out.srt")
            Missing Missing Missing Missing Missing))
      (Sample.ffmpeg 120) Sample.host Sample.answering 10 "in.wav"
      Sample.transcriptionConfig
      (Cli.processingOptions
         (Config.updateProcessingOptions Sample.config
            (ProcessingOptions.mk (Val 30) Missing (Val SRT) (Val "out.srt")
               Missing Missing Missing Missing Missing))
         (Cli.mkOptions None None 59 3 None None)) [].
Proof.
  apply (X17_command_line_overrides_stored_options Sample.config
           (Config.updateProcessingOptions Sample.config
              (ProcessingOptions.mk (Val 30) Missing (Val SRT) (Val "out.srt")
                 Missing Missing Missing Missing Missing))).
  repeat split; reflexivity.
Defined.


Lemma X20_witness :
  exists h m s : Z,
    (0 <= h /\ 0 <= m < 60 /\ 0 <= s < 60)%Z
    /\ inject_Z ((h * 60 + m) * 60 + s) <= 7323 # 2
    /\ 7323 # 2 < inject_Z ((h * 60 + m) * 60 + s) + 1
    /\ Formats.formatDuration (7323 # 2)
       = if (0 <? h)%Z then
           pretty h +:+ "h " +:+ pretty m +:+ "m " +:+ pretty s +:+ "s"
         else if (0 <? m)%Z then pretty m +:+ "m " +:+ pretty s +:+ "s"
         else pretty s +:+ "s".
Proof.
  apply (X20_duration_is_rounded_down_to_seconds (7323 # 2)).
  vm_compute. discriminate.
Defined.

Lemma X24_witness :
  exists path st',
    AuthHelper.prepareCredentials SampleAuth.host (Some "e30=") SampleAuth.empty
    = (Ok (Some path), st')
    /\ path = AuthHelper.tempFilePath SampleAuth.host SampleAuth.empty
    /\ AuthHelper.files st' !! path
       = Some (AuthHelper.decodeBase64 SampleAuth.host "e30=")
    /\ AuthHelper.tempCredentialFiles st'
       = AuthHelper.tempCredentialFiles SampleAuth.empty ++ [path]
    /\ (forall other, other <> path ->
          AuthHelper.files st' !! other
          = AuthHelper.files SampleAuth.empty !! other)
    /\ AuthHelper.validateServiceAccountKey SampleAuth.host (Some path) st'
       = AuthHelper.validateServiceAccountKey SampleAuth.host (Some "e30=")
           SampleAuth.empty.
Proof.
  eexists _, _. split; [reflexivity|].
  eapply (X24_inline_credentials_become_a_tracked_file SampleAuth.host
           SampleAuth.empty _ "e30=").
  - reflexivity.
  - reflexivity.
Defined.
